(** * drawHandShapes: the image store of [src/lib/storage.ts]

    A shallow embedding of the storage module (the in-memory list
    [globalThis.imageStore], the reconciliation scan, [addImage], the
    query functions and [deleteImage]) together with the parts of Node's
    [path] and [fs] modules the module calls, followed by the properties
    of the store.

    Conventions of the embedding:
    - JavaScript strings are [string]s (sequences of 8-bit characters);
    - JavaScript numbers that hold timestamps are integers in [Z];
    - the filesystem is a tree of directories and files; every path is
      resolved from the root, [process.cwd()] being an absolute path;
    - a function that can throw runs in the monad [M], whose result is
      either a value or an exception, always with the state reached. *)

From Stdlib Require Import ZArith List String Ascii Bool Lia.
From Stdlib Require Import Permutation Sorted DecimalString.
Import ListNotations.

Local Open Scope string_scope.
Local Open Scope Z_scope.

Set Implicit Arguments.
Set Warnings "-register-all".

(** ** Strings and the regular expressions of the module *)

Module Str.

(** [s || d] on strings: the empty string is the only falsy string. *)
Definition or_default (s d : string) : string :=
  if (s =? "")%string then d else s.

Definition truthy (s : string) : bool := negb (s =? "")%string.

(** [arr.includes(x)] and [arr.join(sep)]. *)
Definition includes (x : string) (arr : list string) : bool :=
  existsb (fun y => (y =? x)%string) arr.

Definition join (sep : string) (arr : list string) : string :=
  String.concat sep arr.

(** [s.split(sep)] for a one-character separator. *)
Fixpoint split (sep : ascii) (s : string) : list string :=
  match s with
  | EmptyString => [EmptyString]
  | String c s' =>
      if Ascii.eqb c sep then EmptyString :: split sep s'
      else match split sep s' with
           | [] => [String c EmptyString]
           | w :: ws => String c w :: ws
           end
  end.

Definition code (c : ascii) : N := N_of_ascii c.

Definition is_digit (c : ascii) : bool :=
  ((48 <=? code c) && (code c <=? 57))%N.

(** [\w]: letters, digits and the underscore. *)
Definition is_word (c : ascii) : bool :=
  (is_digit c
   || ((65 <=? code c) && (code c <=? 90))
   || ((97 <=? code c) && (code c <=? 122))
   || (code c =? 95))%N.

(** [.] matches everything but a line terminator. *)
Definition is_line_terminator (c : ascii) : bool :=
  ((code c =? 10) || (code c =? 13))%N.

Definition lower (c : ascii) : ascii :=
  if ((65 <=? code c) && (code c <=? 90))%N
  then ascii_of_N (code c + 32) else c.

Definition chars : string -> list ascii := list_ascii_of_string.
Definition of_chars : list ascii -> string := string_of_list_ascii.

(** [s.startsWith(p)]. *)
Definition startsWith (p s : string) : bool := String.prefix p s.

(** Does the reversed character list [rs] start with the reversed,
    lower-case pattern [rp], ignoring case? *)
Fixpoint rprefix_ci (rp rs : list ascii) : option (list ascii) :=
  match rp, rs with
  | [], _ => Some rs
  | p :: rp', c :: rs' =>
      if Ascii.eqb p (lower c) then rprefix_ci rp' rs' else None
  | _ :: _, [] => None
  end.

(** The three alternatives of [\.(png|jpg|jpeg)$], each reversed. *)
Definition image_exts : list (list ascii) :=
  map (fun e => rev (chars e)) [".png"; ".jpg"; ".jpeg"].

(** Strips the extension matched by [/\.(png|jpg|jpeg)$/i] from a
    reversed name; [None] when the name has no such extension. *)
Fixpoint strip_ext (exts : list (list ascii)) (rs : list ascii)
  : option (list ascii) :=
  match exts with
  | [] => None
  | e :: exts' =>
      match rprefix_ci e rs with
      | Some rest => Some rest
      | None => strip_ext exts' rs
      end
  end.

(** [file.match(/\.(png|jpg|jpeg)$/i)] is not null. *)
Definition has_image_ext (file : string) : bool :=
  match strip_ext image_exts (rev (chars file)) with
  | Some _ => true
  | None => false
  end.

(** Splits a list into its longest prefix satisfying [p] and the rest. *)
Fixpoint span (p : ascii -> bool) (l : list ascii)
  : list ascii * list ascii :=
  match l with
  | [] => ([], [])
  | c :: l' =>
      if p c then let (a, b) := span p l' in (c :: a, b) else ([], l)
  end.

(** [parseInt(digits, 10)] on a run of decimal digits. *)
Definition parseInt (digits : list ascii) : Z :=
  fold_left (fun acc c => 10 * acc + (Z.of_N (code c) - 48)) digits 0.

(** Group 2 of [file.match(/^(.+)_(\d+)\.(png|jpg|jpeg)$/i)], parsed:
    the name is [<prefix>_<digits>.<ext>] with a non-empty prefix free of
    line terminators; the digits are the whole digit run before the
    extension, since the character in front of them is the underscore. *)
Definition match_timestamp (file : string) : option Z :=
  match strip_ext image_exts (rev (chars file)) with
  | None => None
  | Some rstem =>
      match span is_digit rstem with
      | ([], _) => None
      | (rdigits, c :: rprefix) =>
          if (code c =? 95)%N
             && negb (match rprefix with [] => true | _ => false end)
             && negb (existsb is_line_terminator rprefix)
          then Some (parseInt (rev rdigits))
          else None
      | (_, []) => None
      end
  end.

(** [image.replace(/^data:image\/\w+;base64,/, "")]. *)
Definition strip_data_url (image : string) : string :=
  let head := "data:image/" in
  if startsWith head image then
    let rest := chars (substring (String.length head)
                                 (String.length image) image) in
    match span is_word rest with
    | ([], _) => image
    | (_, tail) =>
        let t := of_chars tail in
        if startsWith ";base64," t
        then substring 8 (String.length t) t
        else image
    end
  else image.

(** Template-literal rendering of a number that holds an integer. *)
Definition of_Z (z : Z) : string := NilZero.string_of_int (Z.to_int z).

End Str.

(** ** Node's [path] module (POSIX flavour) *)

Module Path.

(** [normalizeString]: drops empty and [.] segments and resolves [..]
    against the segments kept so far ([acc], most recent first). *)
Fixpoint normalizeSegments (allowAboveRoot : bool)
         (acc : list string) (segs : list string) : list string :=
  match segs with
  | [] => rev acc
  | seg :: rest =>
      if ((seg =? "") || (seg =? "."))%string
      then normalizeSegments allowAboveRoot acc rest
      else if (seg =? "..")%string then
        match acc with
        | top :: acc' =>
            if (top =? "..")%string
            then normalizeSegments allowAboveRoot
                   (if allowAboveRoot then ".." :: acc else acc) rest
            else normalizeSegments allowAboveRoot acc' rest
        | [] =>
            normalizeSegments allowAboveRoot
              (if allowAboveRoot then [".."] else []) rest
        end
      else normalizeSegments allowAboveRoot (seg :: acc) rest
  end.

Definition isAbsolute (p : string) : bool := Str.startsWith "/" p.

Definition hasTrailingSlash (p : string) : bool :=
  match rev (Str.chars p) with
  | c :: _ => Ascii.eqb c "/"
  | [] => false
  end.

(** [path.normalize(p)]. *)
Definition normalize (p : string) : string :=
  if (p =? "")%string then "." else
  let absolute := isAbsolute p in
  let trailing := hasTrailingSlash p in
  let body :=
    Str.join "/" (normalizeSegments (negb absolute) [] (Str.split "/" p)) in
  if (body =? "")%string then
    if absolute then "/" else if trailing then "./" else "."
  else
    let body' := if trailing then body ++ "/" else body in
    if absolute then "/" ++ body' else body'.

(** [path.join(...parts)] on string arguments: the non-empty parts are
    glued with [/] and the result is normalised. *)
Definition join (parts : list string) : string :=
  match filter Str.truthy parts with
  | [] => "."
  | ps => normalize (Str.join "/" ps)
  end.

End Path.

(** ** The filesystem, as Node's [fs] module sees it *)

Module Fs.

(** A file carries its modification time, whether it is immutable (an
    immutable file cannot be unlinked or overwritten: EPERM) and its
    contents; a directory carries its modification time and its entries
    in [readdir] order. *)
Inductive node : Type :=
| File (mtimeMs : Z) (immutable : bool) (data : string)
| Dir (mtimeMs : Z) (entries : list (string * node)).

Record Stats : Type :=
  { isDirectory : bool; isFile : bool; mtimeMs : Z }.

Fixpoint assoc (name : string) (es : list (string * node)) : option node :=
  match es with
  | [] => None
  | (n, x) :: es' => if (n =? name)%string then Some x else assoc name es'
  end.

(** Replaces the entry [name] (every one, should there be several). *)
Definition replace (name : string) (x : node) (es : list (string * node))
  : list (string * node) :=
  map (fun e => if (fst e =? name)%string then (name, x) else e) es.

Definition remove (name : string) (es : list (string * node))
  : list (string * node) :=
  filter (fun e => negb (fst e =? name)%string) es.

(** The components of a path, and whether it must denote a directory. *)
Definition components (p : string) : list string :=
  filter Str.truthy (Str.split "/" p).

Fixpoint walk (n : node) (cs : list string) : option node :=
  match cs with
  | [] => Some n
  | c :: cs' =>
      match n with
      | Dir _ es =>
          match assoc c es with
          | Some x => walk x cs'
          | None => None
          end
      | File _ _ _ => None
      end
  end.

(** Resolution of a path; a trailing slash demands a directory. *)
Definition resolve (root : node) (p : string) : option node :=
  match walk root (components p) with
  | Some (File _ _ _ as f) =>
      if Path.hasTrailingSlash p then None else Some f
  | r => r
  end.

(** [fs.existsSync(p)]: never throws. *)
Definition existsSync (root : node) (p : string) : bool :=
  match resolve root p with Some _ => true | None => false end.

(** [fs.statSync(p)]; [None] stands for the ENOENT/ENOTDIR exception. *)
Definition statSync (root : node) (p : string) : option Stats :=
  match resolve root p with
  | Some (File m _ _) =>
      Some {| isDirectory := false; isFile := true; mtimeMs := m |}
  | Some (Dir m _) =>
      Some {| isDirectory := true; isFile := false; mtimeMs := m |}
  | None => None
  end.

(** [fs.readdirSync(p)]; [None] stands for ENOENT/ENOTDIR. *)
Definition readdirSync (root : node) (p : string) : option (list string) :=
  match resolve root p with
  | Some (Dir _ es) => Some (map fst es)
  | _ => None
  end.

(** Rebuilds the tree along [cs], applying [f] to the entries of the
    directory that holds the last component. *)
Fixpoint update (f : string -> list (string * node)
                     -> option (list (string * node)))
         (n : node) (cs : list string) : option node :=
  match cs, n with
  | [], _ => None
  | [c], Dir m es =>
      match f c es with
      | Some es' => Some (Dir m es')
      | None => None
      end
  | c :: cs', Dir m es =>
      match assoc c es with
      | Some x =>
          match update f x cs' with
          | Some x' => Some (Dir m (replace c x' es))
          | None => None
          end
      | None => None
      end
  | _ :: _, File _ _ _ => None
  end.

(** [fs.unlinkSync(p)]: removes a file that is not immutable; a missing
    path, a directory or an immutable file makes it throw ([None]). *)
Definition unlinkEntry (c : string) (es : list (string * node))
  : option (list (string * node)) :=
  match assoc c es with
  | Some (File _ false _) => Some (remove c es)
  | _ => None
  end.

Definition unlinkSync (root : node) (p : string) : option node :=
  if Path.hasTrailingSlash p then None
  else update unlinkEntry root (components p).

(** [fs.writeFileSync(p, data)] at time [now]: creates or overwrites a
    file in an existing directory. *)
Definition writeEntry (data : string) (now : Z)
           (c : string) (es : list (string * node))
  : option (list (string * node)) :=
  match assoc c es with
  | None => Some (es ++ [(c, File now false data)])%list
  | Some (File _ false _) => Some (replace c (File now false data) es)
  | Some _ => None
  end.

Definition writeFileSync (root : node) (p : string) (data : string)
           (now : Z) : option node :=
  if Path.hasTrailingSlash p then None
  else update (writeEntry data now) root (components p).

(** A chain of fresh directories [c1/c2/.../cn] created at [now]. *)
Fixpoint chain (now : Z) (cs : list string) : node :=
  match cs with
  | [] => Dir now []
  | c :: cs' => Dir now [(c, chain now cs')]
  end.

(** [fs.mkdirSync(p, { recursive: true })]. *)
Fixpoint mkdirp (now : Z) (n : node) (cs : list string) : option node :=
  match n with
  | File _ _ _ => None
  | Dir m es =>
      match cs with
      | [] => Some n
      | c :: cs' =>
          match assoc c es with
          | Some x =>
              match mkdirp now x cs' with
              | Some x' => Some (Dir m (replace c x' es))
              | None => None
              end
          | None => Some (Dir m (es ++ [(c, chain now cs')])%list)
          end
      end
  end.

Definition mkdirSync_recursive (root : node) (p : string) (now : Z)
  : option node :=
  mkdirp now root (components p).

End Fs.

(** ** The data model *)

(** [type ImageData]; the fields are read as [img.(Data.label)]. *)
Module Data.
Record ImageData : Type :=
  { filename : string;
    label : string;
    quality : string;
    image : string;
    timestamp : Z;
    filePath : string }.
End Data.
Definition ImageData : Type := Data.ImageData.

(** The state the module works on: the disk and [globalThis.imageStore]. *)
Record World : Type :=
  { disk : Fs.node;
    imageStore : list ImageData }.

Definition set_disk (d : Fs.node) (w : World) : World :=
  {| disk := d; imageStore := imageStore w |}.

Definition set_store (s : list ImageData) (w : World) : World :=
  {| disk := disk w; imageStore := s |}.

(** ** Computations that may throw *)

Inductive exn : Type :=
| Error (message : string)
| TypeError (message : string)
| SystemError (syscall : string) (path : string).

Inductive result (A : Type) : Type :=
| Ok (a : A)
| Throw (e : exn).

Arguments Ok {A} a.
Arguments Throw {A} e.

(** A computation returns or throws, and leaves the world it reached. *)
Definition M (A : Type) : Type := World -> result A * World.

Definition ret {A} (a : A) : M A := fun w => (Ok a, w).

Definition throw {A} (e : exn) : M A := fun w => (Throw e, w).

Definition bind {A B} (m : M A) (k : A -> M B) : M B :=
  fun w =>
    match m w with
    | (Ok a, w') => k a w'
    | (Throw e, w') => (Throw e, w')
    end.

(** [try { m } catch (e) { h e }]. *)
Definition try_catch {A} (m : M A) (h : exn -> M A) : M A :=
  fun w =>
    match m w with
    | (Ok a, w') => (Ok a, w')
    | (Throw e, w') => h e w'
    end.

Declare Scope js_scope.
Delimit Scope js_scope with js.
Notation "x <- m ;; k" := (bind m (fun x => k))
  (at level 61, m at next level, right associativity) : js_scope.
Notation "m ;; k" := (bind m (fun _ => k))
  (at level 61, right associativity) : js_scope.
Local Open Scope js_scope.

(** [xs.forEach(body)]. *)
Fixpoint forEach {X} (xs : list X) (body : X -> M unit) : M unit :=
  match xs with
  | [] => ret tt
  | x :: xs' => body x ;; forEach xs' body
  end.

Definition getStore : M (list ImageData) := fun w => (Ok (imageStore w), w).

Definition putStore (s : list ImageData) : M unit :=
  fun w => (Ok tt, set_store s w).

(** The [fs] calls, lifted to the monad. *)
Definition existsSync (p : string) : M bool :=
  fun w => (Ok (Fs.existsSync (disk w) p), w).

Definition statSync (p : string) : M Fs.Stats :=
  fun w =>
    match Fs.statSync (disk w) p with
    | Some st => (Ok st, w)
    | None => (Throw (SystemError "stat" p), w)
    end.

Definition readdirSync (p : string) : M (list string) :=
  fun w =>
    match Fs.readdirSync (disk w) p with
    | Some names => (Ok names, w)
    | None => (Throw (SystemError "scandir" p), w)
    end.

Definition unlinkSync (p : string) : M unit :=
  fun w =>
    match Fs.unlinkSync (disk w) p with
    | Some d => (Ok tt, set_disk d w)
    | None => (Throw (SystemError "unlink" p), w)
    end.

Definition mkdirSync_recursive (p : string) (now : Z) : M unit :=
  fun w =>
    match Fs.mkdirSync_recursive (disk w) p now with
    | Some d => (Ok tt, set_disk d w)
    | None => (Throw (SystemError "mkdir" p), w)
    end.

Definition writeFileSync (p : string) (data : string) (now : Z) : M unit :=
  fun w =>
    match Fs.writeFileSync (disk w) p data now with
    | Some d => (Ok tt, set_disk d w)
    | None => (Throw (SystemError "open" p), w)
    end.

(** ** [src/lib/storage.ts] *)

(** A value read out of an object literal is one of its own strings or a
    member inherited from [Object.prototype]; of the latter only the
    rendering by [String(v)] is kept. *)
Inductive jsval : Type :=
| JString (s : string)
| JInherited (rendering : string).

Definition js_truthy (v : jsval) : bool :=
  match v with
  | JString s => Str.truthy s
  | JInherited _ => true
  end.

Definition js_String (v : jsval) : string :=
  match v with
  | JString s => s
  | JInherited r => r
  end.

Definition native (name : string) : jsval :=
  JInherited ("function " ++ name ++ "() { [native code] }").

(** The members every object literal inherits. *)
Definition objectPrototype : list (string * jsval) :=
  [ ("constructor", native "Object");
    ("__defineGetter__", native "__defineGetter__");
    ("__defineSetter__", native "__defineSetter__");
    ("hasOwnProperty", native "hasOwnProperty");
    ("__lookupGetter__", native "__lookupGetter__");
    ("__lookupSetter__", native "__lookupSetter__");
    ("isPrototypeOf", native "isPrototypeOf");
    ("propertyIsEnumerable", native "propertyIsEnumerable");
    ("toString", native "toString");
    ("valueOf", native "valueOf");
    ("__proto__", JInherited "[object Object]");
    ("toLocaleString", native "toLocaleString") ].

Fixpoint getProperty (own : list (string * jsval)) (key : string)
  : option jsval :=
  match own with
  | [] => None
  | (k, v) :: own' => if (k =? key)%string then Some v else getProperty own' key
  end.

(** [obj[key]] for an object literal with the own properties [own]. *)
Definition lookupProperty (own : list (string * jsval)) (key : string)
  : option jsval :=
  match getProperty own key with
  | Some v => Some v
  | None => getProperty objectPrototype key
  end.

(** [path.join(...parts)]: a part that is not a string makes it throw. *)
Fixpoint strings (parts : list jsval) : option (list string) :=
  match parts with
  | [] => Some []
  | JString s :: parts' =>
      match strings parts' with
      | Some ss => Some (s :: ss)
      | None => None
      end
  | JInherited _ :: _ => None
  end.

Definition pathJoin (parts : list jsval) : M string :=
  match strings parts with
  | Some ss => ret (Path.join ss)
  | None => throw (TypeError "ERR_INVALID_ARG_TYPE")
  end.

(** [process.cwd()]. *)
Record Process : Type := { cwd : string }.

Section Storage.

Variable process : Process.

Definition labelToFolder : list (string * jsval) :=
  [ ("circle", JString "circles");
    ("square", JString "squares");
    ("triangle", JString "triangles") ].

(** [getFolderName(label)]: [labelToFolder[label] || label]. *)
Definition getFolderName (label : string) : jsval :=
  match lookupProperty labelToFolder label with
  | Some v => if js_truthy v then v else JString label
  | None => JString label
  end.

Definition validLabels : list string := ["circle"; "square"; "triangle"].
Definition validQualities : list string := ["perfect"; "medium"; "irregular"].

(** [globalThis.imageStore.push(imageData)]. *)
Definition push (imageData : ImageData) : M unit :=
  store <- getStore ;;
  putStore (store ++ [imageData]).

(** The callback of [files.forEach] in a quality subdirectory
    (lines 65-93). *)
Definition scanQualityFile (folderName qualityDir label quality file : string)
  : M unit :=
  if Str.has_image_ext file then
    let filePath := Path.join [qualityDir; file] in
    fileStats <- statSync filePath ;;
    let timestamp :=
      match Str.match_timestamp file with
      | Some t => t
      | None => Fs.mtimeMs fileStats
      end in
    let imageData :=
      {| Data.filename := file;
         Data.label := label;
         Data.quality := quality;
         Data.image := "";
         Data.timestamp := timestamp;
         Data.filePath := "/shapes/" ++ folderName ++ "/" ++ quality ++ "/" ++ file |} in
    store <- getStore ;;
    let exists_ :=
      existsb (fun img => (img.(Data.filename) =? file)%string
                          && (img.(Data.label) =? label)%string
                          && (img.(Data.quality) =? quality)%string) store in
    if negb exists_ then push imageData else ret tt
  else ret tt.

(** The callback of [validQualities.forEach] (lines 61-95). *)
Definition scanQuality (folderName labelDir label quality : string) : M unit :=
  let qualityDir := Path.join [labelDir; quality] in
  e <- existsSync qualityDir ;;
  if e then
    files <- readdirSync qualityDir ;;
    forEach files (scanQualityFile folderName qualityDir label quality)
  else ret tt.

(** The callback of [files.forEach] in the label directory itself
    (lines 99-125): files of the flat, older layout. *)
Definition scanLegacyFile (folderName labelDir label file : string) : M unit :=
  let filePath := Path.join [labelDir; file] in
  fileStats <- statSync filePath ;;
  if Fs.isFile fileStats && Str.has_image_ext file then
    let timestamp :=
      match Str.match_timestamp file with
      | Some t => t
      | None => Fs.mtimeMs fileStats
      end in
    let imageData :=
      {| Data.filename := file;
         Data.label := label;
         Data.quality := "perfect";
         Data.image := "";
         Data.timestamp := timestamp;
         Data.filePath := "/shapes/" ++ folderName ++ "/" ++ file |} in
    store <- getStore ;;
    let exists_ :=
      existsb (fun img => (img.(Data.filename) =? file)%string
                          && (img.(Data.label) =? label)%string
                          && (img.(Data.quality) =? "perfect")%string) store in
    if negb exists_ then push imageData else ret tt
  else ret tt.

(** The callback of [validLabels.forEach] (lines 51-128). *)
Definition scanLabel (publicShapesDir label : string) : M unit :=
  let folderName := getFolderName label in
  labelDir <- pathJoin [JString publicShapesDir; folderName] ;;
  e <- existsSync labelDir ;;
  if e then
    stats <- statSync labelDir ;;
    if Fs.isDirectory stats then
      forEach validQualities
        (scanQuality (js_String folderName) labelDir label) ;;
      files <- readdirSync labelDir ;;
      forEach files (scanLegacyFile (js_String folderName) labelDir label)
    else ret tt
  else ret tt.

(** The body of the [try] block of [loadImagesFromFilesystem]. *)
Definition loadImagesFromFilesystem_body : M unit :=
  let publicShapesDir := Path.join [cwd process; "public"; "shapes"] in
  e <- existsSync publicShapesDir ;;
  if negb e then ret tt
  else forEach validLabels (scanLabel publicShapesDir).

(** [loadImagesFromFilesystem()]: the [catch] logs and swallows. *)
Definition loadImagesFromFilesystem : M unit :=
  try_catch loadImagesFromFilesystem_body (fun _ => ret tt).

(** Loading the module (lines 18-22) on a process that has no store. *)
Definition moduleInit : M unit :=
  putStore [] ;;
  loadImagesFromFilesystem.

(** [addImage(label, quality, image)], [now] being what [Date.now()]
    returns. The bytes written are the decoding of [base64Data]; the
    model keeps the base64 text. *)
Definition addImage (now : Z) (label quality image : string) : M ImageData :=
  let timestamp := now in
  let filename := label ++ "_" ++ Str.of_Z timestamp ++ ".png" in
  if negb (Str.includes label validLabels) then
    throw (Error ("Invalid label: " ++ label ++ ". Must be one of: "
                  ++ Str.join ", " validLabels))
  else if negb (Str.includes quality validQualities) then
    throw (Error ("Invalid quality: " ++ quality ++ ". Must be one of: "
                  ++ Str.join ", " validQualities))
  else
    let base64Data := Str.strip_data_url image in
    let buffer := base64Data in
    let folderName := getFolderName label in
    publicDir <- pathJoin [JString (cwd process); JString "public";
                           JString "shapes"; folderName; JString quality] ;;
    let filePath := Path.join [publicDir; filename] in
    e <- existsSync publicDir ;;
    (if negb e then mkdirSync_recursive publicDir now else ret tt) ;;
    writeFileSync filePath buffer now ;;
    let webPath := "/shapes/" ++ js_String folderName ++ "/" ++ quality
                   ++ "/" ++ filename in
    let imageData :=
      {| Data.filename := filename;
         Data.label := label;
         Data.quality := quality;
         Data.image := image;
         Data.timestamp := timestamp;
         Data.filePath := webPath |} in
    push imageData ;;
    ret imageData.

(** The comparator of [getAllImages]: [b.timestamp - a.timestamp]. *)
Definition byTimestampDesc (a b : ImageData) : Z :=
  b.(Data.timestamp) - a.(Data.timestamp).

(** [arr.sort(cmp)] is a stable sort: an element goes in front of the
    first one it does not have to follow. *)
Fixpoint insertSorted (cmp : ImageData -> ImageData -> Z)
         (x : ImageData) (l : list ImageData) : list ImageData :=
  match l with
  | [] => [x]
  | y :: l' => if cmp x y <=? 0 then x :: l else y :: insertSorted cmp x l'
  end.

Definition sort (cmp : ImageData -> ImageData -> Z) (l : list ImageData)
  : list ImageData :=
  fold_right (insertSorted cmp) [] l.

(** [getAllImages()]. *)
Definition getAllImages : M (list ImageData) :=
  store <- getStore ;;
  ret (sort byTimestampDesc store).

Definition getImagesByLabel (label : string) : M (list ImageData) :=
  store <- getStore ;;
  ret (filter (fun img => (img.(Data.label) =? label)%string) store).

Definition getImagesByQuality (quality : string) : M (list ImageData) :=
  store <- getStore ;;
  ret (filter (fun img => (img.(Data.quality) =? quality)%string) store).

Definition getImagesByLabelAndQuality (label quality : string)
  : M (list ImageData) :=
  store <- getStore ;;
  ret (filter (fun img => (img.(Data.label) =? label)%string
                          && (img.(Data.quality) =? quality)%string) store).

(** The predicate shared by [findImageInStore] and the filter of
    [deleteImage]: both compare qualities after [|| "perfect"]. *)
Definition sameImage (filename label normalizedQuality : string)
           (img : ImageData) : bool :=
  let imgQuality := Str.or_default img.(Data.quality) "perfect" in
  (img.(Data.filename) =? filename)%string
  && (img.(Data.label) =? label)%string
  && (imgQuality =? normalizedQuality)%string.

(** [findImageInStore(filename, label, quality)]. *)
Definition findImageInStore (filename label quality : string)
  : M (option ImageData) :=
  let normalizedQuality := Str.or_default quality "perfect" in
  store <- getStore ;;
  ret (find (sameImage filename label normalizedQuality) store).

(** The [for (const filePath of pathsToTry)] loop (lines 272-283); the
    value is the final [deleted]. *)
Fixpoint tryPaths (pathsToTry : list string) : M bool :=
  match pathsToTry with
  | [] => ret false
  | filePath :: rest =>
      e <- existsSync filePath ;;
      if e then
        unlinked <- try_catch (unlinkSync filePath ;; ret true)
                              (fun _ => ret false) ;;
        if unlinked then ret true else tryPaths rest
      else tryPaths rest
  end.

(** [pathsToTry] once its three pushes are done (lines 244-269). *)
Definition candidatePaths (imageInStore : option ImageData)
           (filename label quality : string) : M (list string) :=
  let fromStore :=
    match imageInStore with
    | Some img =>
        if Str.truthy img.(Data.filePath) then
          let relativePath :=
            if Str.startsWith "/" img.(Data.filePath)
            then substring 1 (String.length img.(Data.filePath)) img.(Data.filePath)
            else img.(Data.filePath) in
          [Path.join [cwd process; "public"; relativePath]]
        else []
    | None => []
    end in
  let folderName := getFolderName label in
  qualityDir <- pathJoin [JString (cwd process); JString "public";
                          JString "shapes"; folderName; JString quality] ;;
  let qualityFilePath := Path.join [qualityDir; filename] in
  oldDir <- pathJoin [JString (cwd process); JString "public";
                      JString "shapes"; folderName] ;;
  let oldFilePath := Path.join [oldDir; filename] in
  ret (fromStore ++ [qualityFilePath; oldFilePath])%list.

(** The body of the [try] block of [deleteImage]. *)
Definition deleteImage_body (filename label quality : string) : M bool :=
  imageInStore <- findImageInStore filename label quality ;;
  pathsToTry <- candidatePaths imageInStore filename label quality ;;
  deleted <- tryPaths pathsToTry ;;
  let normalizedQuality := Str.or_default quality "perfect" in
  store <- getStore ;;
  let initialLength := List.length store in
  let store' :=
    filter (fun img => negb (sameImage filename label normalizedQuality img))
           store in
  putStore store' ;;
  let removedFromStore := (List.length store' <? initialLength)%nat in
  ret (deleted || removedFromStore).

(** [deleteImage(filename, label, quality)]. *)
Definition deleteImage (filename label quality : string) : M bool :=
  try_catch (deleteImage_body filename label quality) (fun _ => ret false).

End Storage.

(** The library functions are reasoned about through their lemmas. *)
Arguments Path.join : simpl never.
Arguments Fs.existsSync : simpl never.
Arguments Fs.statSync : simpl never.
Arguments Fs.readdirSync : simpl never.
Arguments Fs.unlinkSync : simpl never.
Arguments Fs.writeFileSync : simpl never.
Arguments Fs.mkdirSync_recursive : simpl never.
Arguments Str.has_image_ext : simpl never.
Arguments Str.match_timestamp : simpl never.
Arguments Str.strip_data_url : simpl never.
Arguments Str.of_Z : simpl never.
Arguments Str.startsWith : simpl never.

(** ** Notions the properties are stated with *)

(** The identity of a record: file name, label and normalised quality. *)
Definition triple (img : ImageData) : string * string * string :=
  (img.(Data.filename), img.(Data.label),
   Str.or_default img.(Data.quality) "perfect").

Definition uniqueTriples (store : list ImageData) : Prop :=
  NoDup (map triple store).

Definition validRecord (img : ImageData) : Prop :=
  In img.(Data.label) validLabels /\ In img.(Data.quality) validQualities.

Definition validStore (store : list ImageData) : Prop :=
  Forall validRecord store.

(** The record [addImage] builds for valid arguments. *)
Definition addedRecord (now : Z) (label quality image : string) : ImageData :=
  let filename := label ++ "_" ++ Str.of_Z now ++ ".png" in
  {| Data.filename := filename;
     Data.label := label;
     Data.quality := quality;
     Data.image := image;
     Data.timestamp := now;
     Data.filePath := "/shapes/" ++ js_String (getFolderName label) ++ "/"
                      ++ quality ++ "/" ++ filename |}.

(** The states a process can be in: the module is loaded on some disk, and
    then the scan, [addImage] and [deleteImage] run in any order, with any
    arguments and clock readings, while the disk may be changed from
    outside between two calls. *)
Inductive reachable (process : Process) : World -> Prop :=
| reach_init d :
    reachable process (snd (moduleInit process {| disk := d; imageStore := [] |}))
| reach_scan w :
    reachable process w ->
    reachable process (snd (loadImagesFromFilesystem process w))
| reach_add w now label quality image :
    reachable process w ->
    reachable process (snd (addImage process now label quality image w))
| reach_delete w filename label quality :
    reachable process w ->
    reachable process (snd (deleteImage process filename label quality w))
| reach_disk w d :
    reachable process w ->
    reachable process (set_disk d w).

(** The states reached when every [addImage] call produces a file name
    that the list does not hold yet under the same label and quality (the
    clock reading differs from that of the earlier records of that label
    and quality). *)
Inductive reachableFresh (process : Process) : World -> Prop :=
| fresh_init d :
    reachableFresh process
      (snd (moduleInit process {| disk := d; imageStore := [] |}))
| fresh_scan w :
    reachableFresh process w ->
    reachableFresh process (snd (loadImagesFromFilesystem process w))
| fresh_add w now label quality image :
    reachableFresh process w ->
    ~ In (triple (addedRecord now label quality image))
         (map triple (imageStore w)) ->
    reachableFresh process (snd (addImage process now label quality image w))
| fresh_delete w filename label quality :
    reachableFresh process w ->
    reachableFresh process (snd (deleteImage process filename label quality w))
| fresh_disk w d :
    reachableFresh process w ->
    reachableFresh process (set_disk d w).

(** *** The scan, seen from the disk *)

(** The list holds a record with this file name, label and quality. *)
Definition hasRecord (file label quality : string) (store : list ImageData)
  : bool :=
  existsb (fun img => (img.(Data.filename) =? file)%string
                      && (img.(Data.label) =? label)%string
                      && (img.(Data.quality) =? quality)%string) store.

(** The append of the scan: nothing when the record is there already. *)
Definition pushNew (store : list ImageData) (img : ImageData)
  : list ImageData :=
  if hasRecord img.(Data.filename) img.(Data.label) img.(Data.quality) store
  then store else (store ++ [img])%list.

(** On the disk [d], [m] offers the records [offered] to the list one
    after the other, whatever the list holds, and ends with [outcome]. *)
Definition offers (d : Fs.node) (m : M unit) (offered : list ImageData)
           (outcome : result unit) : Prop :=
  forall store,
    m {| disk := d; imageStore := store |}
    = (outcome, {| disk := d; imageStore := fold_left pushNew offered store |}).

Definition offering (d : Fs.node) (m : M unit) : Prop :=
  exists offered outcome, offers d m offered outcome.

(** The disk is [d] and the list satisfies [R]. *)
Definition keeping (d : Fs.node) (R : list ImageData -> Prop) : World -> Prop :=
  fun w => disk w = d /\ R (imageStore w).

(** [R] survives appends. *)
Definition monotone (R : list ImageData -> Prop) : Prop :=
  forall store img, R store -> R (store ++ [img])%list.

(** Every image entry listed in a quality subdirectory of the label has
    its record in the list. *)
Definition qualityEntriesRecorded (d : Fs.node) (labelDir label : string)
           (store : list ImageData) : Prop :=
  forall quality names file,
    In quality validQualities ->
    Fs.readdirSync d (Path.join [labelDir; quality]) = Some names ->
    In file names ->
    Str.has_image_ext file = true ->
    hasRecord file label quality store = true.

(** Every image file lying flat in the label folder has its record, of
    quality perfect, in the list. *)
Definition flatFilesRecorded (d : Fs.node) (labelDir label : string)
           (flat : list string) (store : list ImageData) : Prop :=
  forall file stats,
    In file flat ->
    Fs.statSync d (Path.join [labelDir; file]) = Some stats ->
    Fs.isFile stats = true ->
    Str.has_image_ext file = true ->
    hasRecord file label "perfect" store = true.

(** Both, for a label whose folder can be listed. *)
Definition labelRecorded (process : Process) (d : Fs.node) (label : string)
           (store : list ImageData) : Prop :=
  forall folder flat,
    getFolderName label = JString folder ->
    let labelDir :=
      Path.join [Path.join [cwd process; "public"; "shapes"]; folder] in
    Fs.readdirSync d labelDir = Some flat ->
    qualityEntriesRecorded d labelDir label store
    /\ flatFilesRecorded d labelDir label flat store.

(** The regular files with an image extension in a directory. *)
Definition imageFilesIn (d : Fs.node) (dir : string) : list string :=
  match Fs.readdirSync d dir with
  | Some names =>
      filter (fun file =>
                Str.has_image_ext file
                && match Fs.statSync d (Path.join [dir; file]) with
                   | Some stats => Fs.isFile stats
                   | None => false
                   end) names
  | None => []
  end.

(** The image files of the directory tree: label, quality subdirectory
    (empty for a file lying flat in the label folder) and file name. *)
Definition imageFilesOnDisk (process : Process) (d : Fs.node)
  : list (string * string * string) :=
  flat_map
    (fun label =>
       let labelDir :=
         Path.join [Path.join [cwd process; "public"; "shapes"];
                    js_String (getFolderName label)] in
       (flat_map
          (fun quality =>
             map (fun file => (label, quality, file))
                 (imageFilesIn d (Path.join [labelDir; quality])))
          validQualities
        ++ map (fun file => (label, "", file)) (imageFilesIn d labelDir))%list)
    validLabels.

(** [m] keeps [I], whether it returns or throws. *)
Definition preserves {A} (I : World -> Prop) (m : M A) : Prop :=
  forall w, I w -> I (snd (m w)).

(** What the scan appends in a world [w]: a record for an entry met in a
    quality subdirectory, or for a file lying flat in a label directory,
    when the list holds no record with the same file name, label and
    quality. *)
Inductive scanned (process : Process) (w : World) : ImageData -> Prop :=
| scanned_quality label folder quality names file stats :
    In label validLabels ->
    getFolderName label = JString folder ->
    In quality validQualities ->
    let labelDir :=
      Path.join [Path.join [cwd process; "public"; "shapes"]; folder] in
    let qualityDir := Path.join [labelDir; quality] in
    Fs.readdirSync (disk w) qualityDir = Some names ->
    In file names ->
    Str.has_image_ext file = true ->
    Fs.statSync (disk w) (Path.join [qualityDir; file]) = Some stats ->
    existsb (fun img => (img.(Data.filename) =? file)%string
                        && (img.(Data.label) =? label)%string
                        && (img.(Data.quality) =? quality)%string)
            (imageStore w) = false ->
    scanned process w
      {| Data.filename := file;
         Data.label := label;
         Data.quality := quality;
         Data.image := "";
         Data.timestamp :=
           match Str.match_timestamp file with
           | Some t => t
           | None => Fs.mtimeMs stats
           end;
         Data.filePath := "/shapes/" ++ folder ++ "/" ++ quality ++ "/" ++ file |}
| scanned_legacy label folder names file stats :
    In label validLabels ->
    getFolderName label = JString folder ->
    let labelDir :=
      Path.join [Path.join [cwd process; "public"; "shapes"]; folder] in
    Fs.readdirSync (disk w) labelDir = Some names ->
    In file names ->
    Fs.statSync (disk w) (Path.join [labelDir; file]) = Some stats ->
    Fs.isFile stats = true ->
    Str.has_image_ext file = true ->
    existsb (fun img => (img.(Data.filename) =? file)%string
                        && (img.(Data.label) =? label)%string
                        && (img.(Data.quality) =? "perfect")%string)
            (imageStore w) = false ->
    scanned process w
      {| Data.filename := file;
         Data.label := label;
         Data.quality := "perfect";
         Data.image := "";
         Data.timestamp :=
           match Str.match_timestamp file with
           | Some t => t
           | None => Fs.mtimeMs stats
           end;
         Data.filePath := "/shapes/" ++ folder ++ "/" ++ file |}.

(** *** The removal strategy of [deleteImage], as the specification
    words it *)

(** The web-relative [storagePath] of a record, made absolute. *)
Definition storagePathOnDisk (process : Process) (img : ImageData) : string :=
  let relativePath :=
    if Str.startsWith "/" img.(Data.filePath)
    then substring 1 (String.length img.(Data.filePath)) img.(Data.filePath)
    else img.(Data.filePath) in
  Path.join [cwd process; "public"; relativePath].

(** [<root>/shapes/<folder>/<quality>/<filename>]. *)
Definition canonicalPath (process : Process) (folder quality filename : string)
  : string :=
  Path.join [Path.join [cwd process; "public"; "shapes"; folder; quality];
             filename].

(** [<root>/shapes/<folder>/<filename>]. *)
Definition legacyPath (process : Process) (folder filename : string) : string :=
  Path.join [Path.join [cwd process; "public"; "shapes"; folder]; filename].

(** The candidates in priority order: the stored path of the record found
    (if one was found and has a path), the canonical path, the legacy path. *)
Definition candidates (process : Process) (found : option ImageData)
           (folder quality filename : string) : list string :=
  (match found with
   | Some img =>
       if Str.truthy img.(Data.filePath)
       then [storagePathOnDisk process img] else []
   | None => []
   end
   ++ [canonicalPath process folder quality filename;
       legacyPath process folder filename])%list.

(** A candidate that exists and that [unlink] removes. *)
Definition removable (d : Fs.node) (p : string) : bool :=
  Fs.existsSync d p
  && match Fs.unlinkSync d p with Some _ => true | None => false end.

(** The disk once the first removable candidate, if any, is unlinked. *)
Definition unlinkFirst (d : Fs.node) (paths : list string) : Fs.node :=
  match find (removable d) paths with
  | Some p =>
      match Fs.unlinkSync d p with
      | Some d' => d'
      | None => d
      end
  | None => d
  end.

Definition isSome {A} (o : option A) : bool :=
  match o with Some _ => true | None => false end.

(** [selection P store res]: [res] holds exactly the records of [store]
    that satisfy [P], in the order of [store]. *)
Inductive selection (P : ImageData -> Prop)
  : list ImageData -> list ImageData -> Prop :=
| selection_nil : selection P [] []
| selection_keep img store res :
    P img -> selection P store res -> selection P (img :: store) (img :: res)
| selection_skip img store res :
    ~ P img -> selection P store res -> selection P (img :: store) res.

(** *** Arrays as objects

    A JavaScript array is an object on the heap and a variable holds a
    reference to it. [getAllImages] is given once more at that level, to
    tell the array it returns from the array of the store. *)

Module Heap.

Definition ref : Type := nat.

(** The contents of the array at each address. *)
Definition heap : Type := list (list ImageData).

Definition deref (h : heap) (r : ref) : option (list ImageData) :=
  nth_error h r.

(** A new array with the contents [a]. *)
Definition alloc (h : heap) (a : list ImageData) : ref * heap :=
  (List.length h, (h ++ [a])%list).

(** Any mutation of the array at [r]: its contents become [a]. *)
Fixpoint assign (h : heap) (r : ref) (a : list ImageData) : heap :=
  match h, r with
  | [], _ => []
  | _ :: h', O => a :: h'
  | x :: h', S r' => x :: assign h' r' a
  end.

(** [[...globalThis.imageStore].sort(cmp)]: the spread allocates a new
    array, [sort] reorders that array in place and returns it. *)
Definition getAllImages (h : heap) (imageStore : ref)
  : option (ref * heap) :=
  match deref h imageStore with
  | Some store =>
      let (copy, h1) := alloc h store in
      match deref h1 copy with
      | Some elements =>
          Some (copy, assign h1 copy (sort byTimestampDesc elements))
      | None => None
      end
  | None => None
  end.

End Heap.

(** Orders on records, by timestamp. *)
Definition notOlder (a b : ImageData) : Prop :=
  a.(Data.timestamp) >= b.(Data.timestamp).

Definition newer (a b : ImageData) : Prop :=
  a.(Data.timestamp) > b.(Data.timestamp).

Definition older (a b : ImageData) : Prop :=
  a.(Data.timestamp) < b.(Data.timestamp).

(** *** Worlds the properties are exercised on *)

Module Examples.

Definition proc : Process := {| cwd := "/app" |}.

Definition png (mtime : Z) : Fs.node := Fs.File mtime false "iVBORw0KGgo=".

(** [/app/public/shapes] with the entries [circles] and [squares]. *)
Definition shapesDisk (circles squares : list (string * Fs.node)) : Fs.node :=
  Fs.Dir 0 [("app", Fs.Dir 0 [("public", Fs.Dir 0 [("shapes", Fs.Dir 0
    [("circles", Fs.Dir 0 circles); ("squares", Fs.Dir 0 squares)])])])].

(** A populated tree: two quality subdirectories and one flat file. *)
Definition populated : Fs.node :=
  shapesDisk
    [("perfect", Fs.Dir 0 [("circle_12.png", png 7); ("notes.txt", png 7)]);
     ("b_5.JPG", png 8)]
    [("irregular", Fs.Dir 0 [("s_9.jpeg", png 9)])].

(** The same file name in [circles/perfect] and flat in [circles]. *)
Definition shadowed : Fs.node :=
  shapesDisk [("perfect", Fs.Dir 0 [("a.png", png 7)]); ("a.png", png 8)] [].

(** [circles/medium] is a regular file: listing it fails. *)
Definition broken : Fs.node :=
  shapesDisk
    [("perfect", Fs.Dir 0 [("circle_12.png", png 7)]);
     ("medium", png 1);
     ("b_5.JPG", png 8)]
    [("irregular", Fs.Dir 0 [("s_9.jpeg", png 9)])].

(** A disk without [/app/public/shapes]. *)
Definition bare : Fs.node := Fs.Dir 0 [("app", Fs.Dir 0 [])].

(** One image, in the [perfect] subdirectory of [circles]. *)
Definition onePerfect : Fs.node :=
  shapesDisk [("perfect", Fs.Dir 0 [("a.png", png 7)])] [].

(** The same tree once that image is unlinked. *)
Definition nonePerfect : Fs.node :=
  shapesDisk [("perfect", Fs.Dir 0 [])] [].

Definition start (d : Fs.node) : World := {| disk := d; imageStore := [] |}.

(** The world once the module is loaded on disk [d]. *)
Definition loaded (d : Fs.node) : World := snd (moduleInit proc (start d)).

(** Two submissions of a perfect circle within the same millisecond. *)
Definition twice : World :=
  snd (addImage proc 1000 "circle" "perfect" "data:image/png;base64,AA=="
         (snd (addImage proc 1000 "circle" "perfect"
                        "data:image/png;base64,AA==" (loaded bare)))).

(** Two submissions one millisecond apart. *)
Definition apart : World :=
  snd (addImage proc 1001 "circle" "perfect" "data:image/png;base64,AA=="
         (snd (addImage proc 1000 "circle" "perfect"
                        "data:image/png;base64,AA==" (loaded bare)))).

Definition aPerfect : ImageData :=
  {| Data.filename := "a.png";
     Data.label := "circle";
     Data.quality := "perfect";
     Data.image := "";
     Data.timestamp := 7;
     Data.filePath := "/shapes/circles/perfect/a.png" |}.

(** The recorded file cannot be unlinked; a flat file has its name. *)
Definition guarded : World :=
  {| disk := shapesDisk
               [("perfect", Fs.Dir 0 [("a.png", Fs.File 7 true "iVBORw0KGgo=")]);
                ("a.png", png 8)] [];
     imageStore := [aPerfect] |}.

Definition guardedAfter : World :=
  {| disk := shapesDisk
               [("perfect", Fs.Dir 0 [("a.png", Fs.File 7 true "iVBORw0KGgo=")])]
               [];
     imageStore := [] |}.

Definition circle12 : ImageData :=
  {| Data.filename := "circle_12.png";
     Data.label := "circle";
     Data.quality := "perfect";
     Data.image := "";
     Data.timestamp := 12;
     Data.filePath := "/shapes/circles/perfect/circle_12.png" |}.

End Examples.


(** * Further operations and notions *)

From Stdlib Require DecimalPos.

(** ** What [addImage] writes *)

(** The folder, the directory and the path of the file [addImage] writes
    for a label, a quality and a clock reading. *)
Definition addedFilename (now : Z) (label : string) : string :=
  label ++ "_" ++ Str.of_Z now ++ ".png".

Definition addedFilePath (process : Process) (now : Z) (label quality : string)
  : string :=
  Path.join [Path.join [cwd process; "public"; "shapes";
                        js_String (getFolderName label); quality];
             addedFilename now label].

(** The record [img] is the one the arguments of [deleteImage] name. *)
Definition named (filename label quality : string) (img : ImageData) : Prop :=
  img.(Data.filename) = filename
  /\ img.(Data.label) = label
  /\ Str.or_default img.(Data.quality) "perfect"
     = Str.or_default quality "perfect".

(** The directory [addImage] writes into. *)
Definition addedDir (process : Process) (label quality : string) : string :=
  Path.join [cwd process; "public"; "shapes";
             js_String (getFolderName label); quality].

(** ** Paths in normal form *)

(** A path segment proper: not empty, not [.] nor [..], without [/]. *)
Definition cleanSegment (s : string) : Prop :=
  s <> "" /\ s <> "." /\ s <> ".." /\ ~ In "/"%char (Str.chars s).

(** The absolute path made of the segments [segs]. *)
Definition absolutePath (segs : list string) : string :=
  "/" ++ Str.join "/" segs.

(** The segments of an absolute path, once normalised. *)
Definition rootSegments (p : string) : list string :=
  Path.normalizeSegments false [] (Str.split "/" p).

(** The segments of [<cwd>/public/shapes/<rest>]. *)
Definition shapesPath (process : Process) (rest : list string) : string :=
  absolutePath (rootSegments (cwd process) ++ "public" :: "shapes" :: rest).

(** The record the scan makes of the flat file of [Examples.populated]. *)
Definition flatB5 : ImageData :=
  {| Data.filename := "b_5.JPG";
     Data.label := "circle";
     Data.quality := "perfect";
     Data.image := "";
     Data.timestamp := 5;
     Data.filePath := "/shapes/circles/b_5.JPG" |}.

(** ** The HTTP handlers *)

(** A request as a handler reads it: [request.json()] gives the body or
    throws.  The handlers are modelled on bodies whose fields are strings,
    as the pages send them; a field is [None] when it is absent or
    [null]. *)
Inductive Request (body : Type) : Type :=
| Json (b : body)
| NotJson (e : exn).

Arguments Json {body} b.
Arguments NotJson {body} e.

Definition request_json {body} (request : Request body) : M body :=
  match request with
  | Json b => ret b
  | NotJson e => throw e
  end.

(** [!v], [v || d] and the string a field that is not missing holds. *)
Definition missing (v : option string) : bool :=
  match v with
  | Some s => negb (Str.truthy s)
  | None => true
  end.

Definition field_or (v : option string) (d : string) : string :=
  match v with
  | Some s => Str.or_default s d
  | None => d
  end.

Definition field (v : option string) : string :=
  match v with
  | Some s => s
  | None => ""
  end.

(** [NextResponse.json(payload, { status })]; the status is 200 when none
    is given. *)
Record Response (payload : Type) : Type :=
  { status : Z; payload_of : payload }.

Arguments status {payload} r.
Arguments payload_of {payload} r.

Definition NextResponse_json {payload} (p : payload) (status : Z)
  : Response payload :=
  {| status := status; payload_of := p |}.

(** [response.ok]. *)
Definition ok {payload} (r : Response payload) : bool :=
  (200 <=? status r) && (status r <=? 299).

(** [POST /api/submit]. *)
Module Submit.

Record Body : Type :=
  { image : option string; label : option string; quality : option string }.

(** [{ success: true, filename, path, label, quality, timestamp }],
    [{ error }] and [{ error, details: String(error) }]; [details] keeps
    the value thrown. *)
Inductive Payload : Type :=
| Success (filename path label quality : string) (timestamp : Z)
| Failure (error : string) (details : option exn).

Definition POST (process : Process) (now : Z) (request : Request Body)
  : M (Response Payload) :=
  try_catch
    (b <- request_json request ;;
     if missing (image b) || missing (label b) then
       ret (NextResponse_json (Failure "Missing image or label" None) 400)
     else
       let imageQuality := field_or (quality b) "perfect" in
       imageData <- addImage process now (field (label b)) imageQuality
                             (field (image b)) ;;
       ret (NextResponse_json
              (Success imageData.(Data.filename) imageData.(Data.filePath)
                       imageData.(Data.label) imageData.(Data.quality)
                       imageData.(Data.timestamp))
              200))
    (fun error =>
       ret (NextResponse_json (Failure "Failed to save image" (Some error))
                              500)).

End Submit.

(** [GET /api/gallery]. *)
Module Gallery.

(** [{ images }] and [{ error, details }]. *)
Inductive Payload : Type :=
| Images (images : list ImageData)
| Failure (error : string) (details : option exn).

Definition GET : M (Response Payload) :=
  try_catch
    (images <- getAllImages ;;
     ret (NextResponse_json (Images images) 200))
    (fun error =>
       ret (NextResponse_json (Failure "Failed to load gallery" (Some error))
                              500)).

End Gallery.

(** [DELETE /api/delete]. *)
Module Delete.

Record Body : Type :=
  { filename : option string; label : option string;
    quality : option string; filePath : option string }.

(** [{ success: true, message }], [{ error, warning: true }], [{ error }]
    and [{ error, details }]. *)
Inductive Payload : Type :=
| Success (message : string)
| Warning (error : string)
| Failure (error : string) (details : option exn).

(** [data.warning]. *)
Definition warning (p : Payload) : bool :=
  match p with
  | Warning _ => true
  | _ => false
  end.

Definition DELETE (process : Process) (request : Request Body)
  : M (Response Payload) :=
  try_catch
    (b <- request_json request ;;
     if missing (filename b) || missing (label b) then
       ret (NextResponse_json (Failure "Missing filename or label" None) 400)
     else
       let imageQuality := field_or (quality b) "perfect" in
       deleted <- deleteImage process (field (filename b)) (field (label b))
                              imageQuality ;;
       if deleted then
         ret (NextResponse_json (Success "Image deleted successfully") 200)
       else
         ret (NextResponse_json
                (Warning "Image file not found on filesystem, but removed from store")
                200))
    (fun error =>
       ret (NextResponse_json (Failure "Failed to delete image" (Some error))
                              500)).

End Delete.

(** ** The gallery page *)

Module GalleryPage.

Record ShapeImage : Type :=
  { filename : string;
    label : string;
    quality : option string;
    image : string;
    timestamp : Z;
    filePath : option string }.

(** A record of the server as the page reads it from the JSON of
    [GET /api/gallery]: every field is present. *)
Definition received (img : ImageData) : ShapeImage :=
  {| filename := img.(Data.filename);
     label := img.(Data.label);
     quality := Some img.(Data.quality);
     image := img.(Data.image);
     timestamp := img.(Data.timestamp);
     filePath := Some img.(Data.filePath) |}.

(** [fetchImages]: the state [images] after it; [fetch] runs the handler.
    An answer that is not [ok] throws, and the state is kept. *)
Definition fetchImages (images : list ShapeImage) : M (list ShapeImage) :=
  response <- Gallery.GET ;;
  if negb (ok response) then ret images
  else
    match payload_of response with
    | Gallery.Images l => ret (map received l)
    | Gallery.Failure _ _ => ret []
    end.

(** The test of the filter in [handleDelete]. *)
Definition sameShape (image img : ShapeImage) : bool :=
  (filename img =? filename image)%string
  && (label img =? label image)%string
  && (field_or (quality img) "perfect"
      =? field_or (quality image) "perfect")%string.

(** [handleDelete(image)]: the state [images] after it, [confirmed] being
    the answer to [confirm]. *)
Definition handleDelete (process : Process) (confirmed : bool)
           (image : ShapeImage) (images : list ShapeImage)
  : M (list ShapeImage) :=
  if negb confirmed then ret images
  else
    response <-
      Delete.DELETE process
        (Json {| Delete.filename := Some (filename image);
                 Delete.label := Some (label image);
                 Delete.quality := Some (field_or (quality image) "perfect");
                 Delete.filePath := filePath image |}) ;;
    if ok response || Delete.warning (payload_of response) then
      ret (filter (fun img => negb (sameShape image img)) images)
    else ret images.

(** [img.quality === qualityFilter]. *)
Definition qualityIs (v : option string) (q : string) : bool :=
  match v with
  | Some s => (s =? q)%string
  | None => false
  end.

(** [filteredImages]. *)
Definition filteredImages (shapeFilter qualityFilter : string)
           (images : list ShapeImage) : list ShapeImage :=
  filter (fun img =>
            let shapeMatch :=
              (shapeFilter =? "all")%string
              || (label img =? shapeFilter)%string in
            let qualityMatch :=
              (qualityFilter =? "all")%string
              || qualityIs (quality img) qualityFilter in
            shapeMatch && qualityMatch)
         images.

End GalleryPage.

(** ** The drawing page *)

Module DrawingPage.

(** [canvasRef.current], its 2D context, and the [data] of
    [getImageData]: four numbers a pixel. *)
Inductive Canvas : Type :=
| NoCanvas
| NoContext
| Pixels (data : list Z).

(** [data[i] !== 255]; an index past the end reads [undefined]. *)
Definition isNot255 (data : list Z) (i : nat) : bool :=
  match nth_error data i with
  | Some v => negb (v =? 255)
  | None => true
  end.

(** The loop of [isCanvasEmpty] from index [i], in at most [steps]
    rounds. *)
Fixpoint allWhiteFrom (steps : nat) (data : list Z) (i : nat) : bool :=
  match steps with
  | O => true
  | S steps' =>
      if (i <? List.length data)%nat then
        if isNot255 data i || isNot255 data (i + 1) || isNot255 data (i + 2)
        then false
        else allWhiteFrom steps' data (i + 4)
      else true
  end.

(** [isCanvasEmpty()]; the loop ends within [data.length] rounds. *)
Definition isCanvasEmpty (canvas : Canvas) : bool :=
  match canvas with
  | NoCanvas => true
  | NoContext => true
  | Pixels data => allWhiteFrom (List.length data) data 0
  end.

(** [canvas.toDataURL("image/png")], [png] being the PNG of the canvas in
    base 64. *)
Definition toDataURL (png : string) : string :=
  "data:image/png;base64," ++ png.

(** [submitDrawing()]: the answer of the server, or [None] when no request
    is sent; [fetch] runs the handler. *)
Definition submitDrawing (process : Process) (now : Z)
           (canvas : Canvas) (png : string)
           (selectedShape selectedQuality : string)
  : M (option (Response Submit.Payload)) :=
  match canvas with
  | NoCanvas => ret None
  | _ =>
      if isCanvasEmpty canvas then ret None
      else
        let imageData := toDataURL png in
        response <-
          Submit.POST process now
            (Json {| Submit.image := Some imageData;
                     Submit.label := Some selectedShape;
                     Submit.quality := Some selectedQuality |}) ;;
        ret (Some response)
  end.

End DrawingPage.

(** ** Reasoning about computations *)

Lemma preserves_ret A (I : World -> Prop) (a : A) : preserves I (ret a).
Proof. intros w Hw; exact Hw. Qed.

Lemma preserves_bind A B (I : World -> Prop) (m : M A) (k : A -> M B) :
  preserves I m -> (forall a, preserves I (k a)) -> preserves I (bind m k).
Proof.
  intros Hm Hk w Hw. unfold bind.
  specialize (Hm w Hw). destruct (m w) as [[a | e] w']; simpl in *.
  - apply Hk, Hm.
  - exact Hm.
Qed.

Lemma preserves_try_catch A (I : World -> Prop) (m : M A) h :
  preserves I m -> (forall e, preserves I (h e)) -> preserves I (try_catch m h).
Proof.
  intros Hm Hh w Hw. unfold try_catch.
  specialize (Hm w Hw). destruct (m w) as [[a | e] w']; simpl in *.
  - exact Hm.
  - apply Hh, Hm.
Qed.

Lemma preserves_forEach X (I : World -> Prop) (xs : list X) body :
  (forall x, In x xs -> preserves I (body x)) -> preserves I (forEach xs body).
Proof.
  induction xs as [| x xs IH]; intros Hb; simpl.
  - apply preserves_ret.
  - apply preserves_bind.
    + apply Hb; now left.
    + intros _. apply IH. intros y Hy. apply Hb; now right.
Qed.

(** Reads of a disk that is known: the continuation gets what was read. *)
Section KnownDisk.

Variable I : World -> Prop.
Variable d0 : Fs.node.
Hypothesis I_disk : forall w, I w -> disk w = d0.

Lemma preserves_existsSync_bind A p (k : bool -> M A) :
  preserves I (k (Fs.existsSync d0 p)) ->
  preserves I (bind (existsSync p) k).
Proof.
  intros Hk w Hw. unfold bind, existsSync.
  rewrite (I_disk Hw). apply Hk, Hw.
Qed.

Lemma preserves_statSync_bind A p (k : Fs.Stats -> M A) :
  (forall stats, Fs.statSync d0 p = Some stats -> preserves I (k stats)) ->
  preserves I (bind (statSync p) k).
Proof.
  intros Hk w Hw. unfold bind, statSync.
  rewrite (I_disk Hw). destruct (Fs.statSync d0 p) as [stats |] eqn:E.
  - apply (Hk stats eq_refl), Hw.
  - exact Hw.
Qed.

Lemma preserves_readdirSync_bind A p (k : list string -> M A) :
  (forall names, Fs.readdirSync d0 p = Some names -> preserves I (k names)) ->
  preserves I (bind (readdirSync p) k).
Proof.
  intros Hk w Hw. unfold bind, readdirSync.
  rewrite (I_disk Hw). destruct (Fs.readdirSync d0 p) as [names |] eqn:E.
  - apply (Hk names eq_refl), Hw.
  - exact Hw.
Qed.

Lemma preserves_getStore_bind A (k : list ImageData -> M A) :
  (forall w, I w -> I (snd (k (imageStore w) w))) ->
  preserves I (bind getStore k).
Proof. intros Hk w Hw. unfold bind, getStore. apply Hk, Hw. Qed.

End KnownDisk.

Lemma bind_ret A B (a : A) (k : A -> M B) : bind (ret a) k = k a.
Proof. reflexivity. Qed.

Lemma getFolderName_valid label :
  In label validLabels ->
  exists folder, getFolderName label = JString folder.
Proof.
  intros [<- | [<- | [<- | []]]]; eexists; reflexivity.
Qed.

(** The scan keeps every property that its appends keep. *)
Section ScanInvariant.

Variable process : Process.
Variable I : World -> Prop.
Variable d0 : Fs.node.
Hypothesis I_disk : forall w, I w -> disk w = d0.
Hypothesis I_push :
  forall w img, I w -> scanned process w img -> I (snd (push img w)).

Let publicShapesDir := Path.join [cwd process; "public"; "shapes"].

Lemma scanQualityFile_inv label folder quality names file :
  In label validLabels ->
  getFolderName label = JString folder ->
  In quality validQualities ->
  let qualityDir :=
    Path.join [Path.join [publicShapesDir; folder]; quality] in
  Fs.readdirSync d0 qualityDir = Some names ->
  In file names ->
  preserves I (scanQualityFile folder qualityDir label quality file).
Proof.
  intros Hl Hf Hq qualityDir Hnames Hfile. unfold scanQualityFile.
  destruct (Str.has_image_ext file) eqn:Hext; [| apply preserves_ret].
  apply (preserves_statSync_bind I_disk). intros stats Hstats.
  apply preserves_getStore_bind. intros w Hw.
  cbv zeta.
  match goal with
  | |- context [existsb ?f ?s] => destruct (existsb f s) eqn:Hex
  end; simpl; [exact Hw |].
  apply I_push; [exact Hw |].
  rewrite <- (I_disk Hw) in Hnames, Hstats.
  eapply scanned_quality; eassumption.
Qed.

Lemma scanLegacyFile_inv label folder names file :
  In label validLabels ->
  getFolderName label = JString folder ->
  let labelDir := Path.join [publicShapesDir; folder] in
  Fs.readdirSync d0 labelDir = Some names ->
  In file names ->
  preserves I (scanLegacyFile folder labelDir label file).
Proof.
  intros Hl Hf labelDir Hnames Hfile. unfold scanLegacyFile.
  apply (preserves_statSync_bind I_disk). intros stats Hstats.
  destruct (Fs.isFile stats) eqn:Hisfile; [| apply preserves_ret].
  destruct (Str.has_image_ext file) eqn:Hext; [| apply preserves_ret].
  apply preserves_getStore_bind. intros w Hw.
  cbv zeta.
  match goal with
  | |- context [existsb ?f ?s] => destruct (existsb f s) eqn:Hex
  end; simpl; [exact Hw |].
  apply I_push; [exact Hw |].
  rewrite <- (I_disk Hw) in Hnames, Hstats.
  eapply scanned_legacy; eassumption.
Qed.

Lemma scanQuality_inv label folder quality :
  In label validLabels ->
  getFolderName label = JString folder ->
  In quality validQualities ->
  preserves I (scanQuality folder (Path.join [publicShapesDir; folder])
                           label quality).
Proof.
  intros Hl Hf Hq. unfold scanQuality.
  apply (preserves_existsSync_bind I_disk).
  destruct (Fs.existsSync d0 _); [| apply preserves_ret].
  apply (preserves_readdirSync_bind I_disk). intros names Hnames.
  apply preserves_forEach. intros file Hfile.
  now apply scanQualityFile_inv with (names := names).
Qed.

Lemma scanLabel_inv label :
  In label validLabels ->
  preserves I (scanLabel publicShapesDir label).
Proof.
  intros Hl. destruct (getFolderName_valid Hl) as [folder Hf].
  unfold scanLabel. rewrite Hf. unfold pathJoin, strings. rewrite bind_ret.
  apply (preserves_existsSync_bind I_disk).
  destruct (Fs.existsSync d0 _); [| apply preserves_ret].
  apply (preserves_statSync_bind I_disk). intros stats _.
  destruct (Fs.isDirectory stats); [| apply preserves_ret].
  apply preserves_bind.
  - apply preserves_forEach. intros quality Hq.
    now apply scanQuality_inv.
  - intros _.
    apply (preserves_readdirSync_bind I_disk). intros names Hnames.
    apply preserves_forEach. intros file Hfile.
    now apply scanLegacyFile_inv with (names := names).
Qed.

Lemma loadImagesFromFilesystem_body_inv :
  preserves I (loadImagesFromFilesystem_body process).
Proof.
  unfold loadImagesFromFilesystem_body.
  apply (preserves_existsSync_bind I_disk).
  destruct (Fs.existsSync d0 _); cbn [negb]; [| apply preserves_ret].
  apply preserves_forEach. intros label Hl. now apply scanLabel_inv.
Qed.

Lemma loadImagesFromFilesystem_inv :
  preserves I (loadImagesFromFilesystem process).
Proof.
  apply preserves_try_catch.
  - apply loadImagesFromFilesystem_body_inv.
  - intros _. apply preserves_ret.
Qed.

End ScanInvariant.

(** ** What each operation does to the list *)

Lemma includes_In x arr : Str.includes x arr = true <-> In x arr.
Proof.
  unfold Str.includes. rewrite existsb_exists. split.
  - intros [y [Hy Heq]]. apply String.eqb_eq in Heq. now subst.
  - intros Hx. exists x. split; [exact Hx | apply String.eqb_refl].
Qed.

Lemma includes_not_In x arr : Str.includes x arr = false <-> ~ In x arr.
Proof.
  rewrite <- includes_In. destruct (Str.includes x arr); split; congruence.
Qed.

(** [addImage] appends the record it returns, and nothing when it throws. *)
Lemma addImage_store process now label quality image w :
  match addImage process now label quality image w with
  | (Ok img, w') =>
      In label validLabels /\ In quality validQualities
      /\ img = addedRecord now label quality image
      /\ imageStore w' = (imageStore w ++ [img])%list
  | (Throw _, w') => imageStore w' = imageStore w
  end.
Proof.
  unfold addImage.
  destruct (Str.includes label validLabels) eqn:Hl; [| reflexivity].
  destruct (Str.includes quality validQualities) eqn:Hq; [| reflexivity].
  apply includes_In in Hl, Hq. cbn [negb].
  destruct (getFolderName_valid Hl) as [folder Hf].
  unfold addedRecord. rewrite Hf. unfold pathJoin, strings. rewrite bind_ret.
  unfold bind, existsSync, mkdirSync_recursive, writeFileSync, push,
    getStore, putStore, ret.
  destruct (Fs.existsSync _ _); cbn [negb].
  - destruct (Fs.writeFileSync _ _ _ _); simpl; auto.
  - destruct (Fs.mkdirSync_recursive _ _ _); simpl; auto.
    destruct (Fs.writeFileSync _ _ _ _); simpl; auto.
Qed.

(** The loop removes the first candidate that exists and that [unlink]
    accepts, and touches nothing else. *)
Lemma tryPaths_run paths w :
  tryPaths paths w
  = (Ok (isSome (find (removable (disk w)) paths)),
     set_disk (unlinkFirst (disk w) paths) w).
Proof.
  destruct w as [d s]. unfold unlinkFirst. simpl disk.
  induction paths as [| p paths IH]; [reflexivity |].
  simpl tryPaths. unfold bind at 1. unfold existsSync at 1.
  cbn [find disk]. unfold removable at 1 3.
  destruct (Fs.existsSync d p); cbn [andb]; [| exact IH].
  unfold bind, try_catch, unlinkSync, ret. cbn [disk].
  destruct (Fs.unlinkSync d p) as [d' |] eqn:E; cbn [isSome];
    [rewrite E; reflexivity | exact IH].
Qed.

(** [deleteImage], run: an inherited member for a folder name makes
    [path.join] throw before anything is removed; otherwise the first
    removable candidate is unlinked and the list is filtered. *)
Lemma deleteImage_run process filename label quality w :
  deleteImage process filename label quality w
  = match getFolderName label with
    | JInherited _ => (Ok false, w)
    | JString folder =>
        let normalizedQuality := Str.or_default quality "perfect" in
        let found :=
          find (sameImage filename label normalizedQuality) (imageStore w) in
        let paths := candidates process found folder quality filename in
        let store' :=
          filter (fun img =>
                    negb (sameImage filename label normalizedQuality img))
                 (imageStore w) in
        (Ok (isSome (find (removable (disk w)) paths)
             || (List.length store' <? List.length (imageStore w))%nat),
         {| disk := unlinkFirst (disk w) paths; imageStore := store' |})
    end.
Proof.
  unfold deleteImage, deleteImage_body, try_catch, findImageInStore.
  unfold bind at 1 2. unfold getStore at 1. unfold ret at 1.
  unfold candidatePaths, pathJoin.
  destruct (getFolderName label) as [folder | r]; simpl strings;
    cbv beta iota.
  - rewrite !bind_ret. unfold bind at 1. unfold ret at 1.
    unfold bind at 1. rewrite tryPaths_run.
    reflexivity.
  - reflexivity.
Qed.

(** [deleteImage] filters the list, or leaves it alone when it fails
    before that. *)
Lemma deleteImage_store process filename label quality w :
  imageStore (snd (deleteImage process filename label quality w))
  = imageStore w
  \/ imageStore (snd (deleteImage process filename label quality w))
     = filter (fun img =>
                 negb (sameImage filename label
                                 (Str.or_default quality "perfect") img))
              (imageStore w).
Proof.
  rewrite deleteImage_run.
  destruct (getFolderName label); [now right | now left].
Qed.

(** ** Labels and qualities of the records *)

Lemma scanned_valid process w img : scanned process w img -> validRecord img.
Proof.
  intros H; destruct H; split; simpl; auto.
Qed.

Lemma validStore_app store img :
  validStore store -> validRecord img -> validStore (store ++ [img]).
Proof.
  intros Hs Hi. apply Forall_app. split; [exact Hs | now constructor].
Qed.

Lemma validStore_filter f store :
  validStore store -> validStore (filter f store).
Proof.
  unfold validStore. rewrite !Forall_forall. intros H img Hin.
  apply filter_In in Hin. now apply H.
Qed.

Lemma scan_valid process w :
  validStore (imageStore w) ->
  validStore (imageStore (snd (loadImagesFromFilesystem process w))).
Proof.
  intros Hw.
  apply (@loadImagesFromFilesystem_inv process
           (fun w' => disk w' = disk w /\ validStore (imageStore w'))
           (disk w)); [tauto | | tauto].
  intros w' img [Hd Hv] Hs. split; [exact Hd |].
  simpl. apply validStore_app; [exact Hv |].
  exact (scanned_valid Hs).
Qed.

Lemma addImage_valid process now label quality image w :
  validStore (imageStore w) ->
  validStore (imageStore (snd (addImage process now label quality image w))).
Proof.
  intros Hw. pose proof (addImage_store process now label quality image w) as H.
  destruct (addImage process now label quality image w) as [[img | e] w'];
    simpl.
  - destruct H as (Hl & Hq & -> & ->).
    apply validStore_app; [exact Hw | now split].
  - now rewrite H.
Qed.

Lemma deleteImage_valid process filename label quality w :
  validStore (imageStore w) ->
  validStore (imageStore (snd (deleteImage process filename label quality w))).
Proof.
  intros Hw.
  destruct (deleteImage_store process filename label quality w) as [-> | ->].
  - exact Hw.
  - now apply validStore_filter.
Qed.

Lemma moduleInit_eq process w :
  moduleInit process w = loadImagesFromFilesystem process (set_store [] w).
Proof. reflexivity. Qed.

Lemma reachable_valid process w :
  reachable process w -> validStore (imageStore w).
Proof.
  induction 1.
  - rewrite moduleInit_eq. apply scan_valid. constructor.
  - now apply scan_valid.
  - now apply addImage_valid.
  - now apply deleteImage_valid.
  - exact IHreachable.
Qed.

(** C10. In every state reachable from the empty list through the scan,
    [addImage] and [deleteImage], each record has its label among circle,
    square and triangle and its quality among perfect, medium and
    irregular. *)
Theorem reachable_labels_and_qualities process w img :
  reachable process w ->
  In img (imageStore w) ->
  In img.(Data.label) ["circle"; "square"; "triangle"]
  /\ In img.(Data.quality) ["perfect"; "medium"; "irregular"].
Proof.
  intros Hr Hin. apply reachable_valid in Hr.
  unfold validStore in Hr. rewrite Forall_forall in Hr.
  exact (Hr img Hin).
Qed.

Lemma reachable_labels_and_qualities_witness :
  reachable Examples.proc (Examples.loaded Examples.populated)
  /\ In Examples.circle12 (imageStore (Examples.loaded Examples.populated))
  /\ In "circle" ["circle"; "square"; "triangle"]
  /\ In "perfect" ["perfect"; "medium"; "irregular"].
Proof.
  assert (Hr : reachable Examples.proc (Examples.loaded Examples.populated))
    by apply reach_init.
  assert (Hin : In Examples.circle12
                   (imageStore (Examples.loaded Examples.populated)))
    by (vm_compute; left; reflexivity).
  split; [exact Hr |]. split; [exact Hin |].
  exact (@reachable_labels_and_qualities _ _ _ Hr Hin).
Defined.

(** ** Queries *)

Lemma filter_selection (f : ImageData -> bool) (P : ImageData -> Prop) store :
  (forall img, f img = true <-> P img) ->
  selection P store (filter f store).
Proof.
  intros Hf. induction store as [| img store IH]; simpl.
  - constructor.
  - destruct (f img) eqn:E.
    + apply selection_keep; [now apply Hf | exact IH].
    + apply selection_skip; [| exact IH].
      intros HP. apply Hf in HP. congruence.
Qed.

Lemma filter_none (f : ImageData -> bool) store :
  (forall img, In img store -> f img = false) -> filter f store = [].
Proof.
  induction store as [| img store IH]; intros H; simpl; [reflexivity |].
  rewrite (H img (or_introl eq_refl)). apply IH.
  intros x Hx. apply H. now right.
Qed.

(** C9. The three filtered queries return exactly the records that have
    the given label, the given quality, or both, in the order of the list;
    they accept any argument, and a label or quality outside the known
    sets selects nothing in a reachable state. *)
Theorem queries_select_in_order process w label quality :
  exists byLabel byQuality byBoth,
    getImagesByLabel label w = (Ok byLabel, w)
    /\ getImagesByQuality quality w = (Ok byQuality, w)
    /\ getImagesByLabelAndQuality label quality w = (Ok byBoth, w)
    /\ selection (fun img => img.(Data.label) = label)
                 (imageStore w) byLabel
    /\ selection (fun img => img.(Data.quality) = quality)
                 (imageStore w) byQuality
    /\ selection (fun img => img.(Data.label) = label
                             /\ img.(Data.quality) = quality)
                 (imageStore w) byBoth
    /\ (reachable process w ->
        ~ In label ["circle"; "square"; "triangle"] ->
        byLabel = [] /\ byBoth = [])
    /\ (reachable process w ->
        ~ In quality ["perfect"; "medium"; "irregular"] ->
        byQuality = [] /\ byBoth = []).
Proof.
  assert (Hknown : forall img,
             reachable process w -> In img (imageStore w) ->
             In img.(Data.label) validLabels
             /\ In img.(Data.quality) validQualities).
  { intros img Hr Hin. apply reachable_valid in Hr.
    unfold validStore in Hr. rewrite Forall_forall in Hr. exact (Hr img Hin). }
  do 3 eexists.
  split; [reflexivity |]. split; [reflexivity |]. split; [reflexivity |].
  split; [apply filter_selection; intros img; apply String.eqb_eq |].
  split; [apply filter_selection; intros img; apply String.eqb_eq |].
  split.
  { apply filter_selection. intros img.
    rewrite andb_true_iff, !String.eqb_eq. tauto. }
  split.
  - intros Hr Hunknown.
    assert (Hno : forall img, In img (imageStore w) ->
                              (img.(Data.label) =? label)%string = false).
    { intros img Hin. apply String.eqb_neq. intros Heq.
      apply Hunknown. rewrite <- Heq. exact (proj1 (Hknown img Hr Hin)). }
    split; apply filter_none; intros img Hin; rewrite (Hno img Hin);
      reflexivity.
  - intros Hr Hunknown.
    assert (Hno : forall img, In img (imageStore w) ->
                              (img.(Data.quality) =? quality)%string = false).
    { intros img Hin. apply String.eqb_neq. intros Heq.
      apply Hunknown. rewrite <- Heq. exact (proj2 (Hknown img Hr Hin)). }
    split; apply filter_none; intros img Hin; rewrite (Hno img Hin);
      [reflexivity | apply andb_false_r].
Qed.

Lemma queries_select_in_order_witness :
  getImagesByLabel "hexagon" (Examples.loaded Examples.populated)
  = (Ok [], Examples.loaded Examples.populated).
Proof.
  destruct (@queries_select_in_order Examples.proc
              (Examples.loaded Examples.populated) "hexagon" "perfect")
    as (byLabel & byQuality & byBoth & Hrun & _ & _ & _ & _ & _ & Hunknown & _).
  rewrite Hrun. f_equal. f_equal. apply Hunknown.
  - apply reach_init.
  - simpl. intuition discriminate.
Defined.

(** ** Rejected submissions *)

(** C5. [addImage] with a label outside circle, square, triangle, or a
    quality outside perfect, medium, irregular, throws an error that names
    the offending value (the label when the label is invalid, else the
    quality) and the allowed set, and leaves the disk and the list as they
    were. *)
Theorem addImage_rejects_invalid process now label quality image w :
  ~ In label ["circle"; "square"; "triangle"]
  \/ ~ In quality ["perfect"; "medium"; "irregular"] ->
  exists message,
    addImage process now label quality image w = (Throw (Error message), w)
    /\ (~ In label ["circle"; "square"; "triangle"] ->
        message = "Invalid label: " ++ label
                  ++ ". Must be one of: circle, square, triangle")
    /\ (In label ["circle"; "square"; "triangle"] ->
        message = "Invalid quality: " ++ quality
                  ++ ". Must be one of: perfect, medium, irregular").
Proof.
  intros Hbad. unfold addImage.
  destruct (Str.includes label validLabels) eqn:Hl; cbn [negb].
  - destruct (Str.includes quality validQualities) eqn:Hq; cbn [negb].
    + apply includes_In in Hl, Hq. tauto.
    + apply includes_In in Hl.
      eexists. split; [reflexivity |]. split; [tauto | reflexivity].
  - apply includes_not_In in Hl.
    eexists. split; [reflexivity |]. split; [reflexivity | tauto].
Qed.

Lemma addImage_rejects_invalid_witness :
  exists message,
    addImage Examples.proc 1000 "hexagon" "perfect" "data:image/png;base64,AA=="
             (Examples.loaded Examples.populated)
    = (Throw (Error message), Examples.loaded Examples.populated)
    /\ message
       = "Invalid label: hexagon. Must be one of: circle, square, triangle".
Proof.
  destruct (@addImage_rejects_invalid Examples.proc 1000 "hexagon" "perfect"
              "data:image/png;base64,AA=="
              (Examples.loaded Examples.populated))
    as (message & Hrun & Hlabel & _).
  - left. simpl. intuition discriminate.
  - exists message. split; [exact Hrun |].
    apply Hlabel. simpl. intuition discriminate.
Defined.

(** ** [getAllImages] *)

Lemma insertSorted_perm cmp x l : Permutation (insertSorted cmp x l) (x :: l).
Proof.
  induction l as [| y l IH]; simpl; [reflexivity |].
  destruct (cmp x y <=? 0); [reflexivity |].
  rewrite IH. apply perm_swap.
Qed.

Lemma sort_perm cmp l : Permutation (sort cmp l) l.
Proof.
  induction l as [| x l IH]; simpl; [reflexivity |].
  rewrite insertSorted_perm. now constructor.
Qed.

Lemma insertSorted_sorted x l :
  StronglySorted notOlder l ->
  StronglySorted notOlder (insertSorted byTimestampDesc x l).
Proof.
  induction l as [| y l IH]; intros Hs; simpl.
  - repeat constructor.
  - apply StronglySorted_inv in Hs. destruct Hs as [Hl Hy].
    unfold byTimestampDesc at 1.
    destruct (Z.leb_spec (y.(Data.timestamp) - x.(Data.timestamp)) 0) as [Hc | Hc].
    + constructor; [now constructor |].
      constructor; [unfold notOlder; lia |].
      rewrite Forall_forall in *. intros z Hz. specialize (Hy z Hz).
      unfold notOlder in *. lia.
    + constructor; [now apply IH |].
      apply (Permutation_Forall (Permutation_sym (insertSorted_perm _ x l))).
      constructor; [unfold notOlder; lia | exact Hy].
Qed.

Lemma sort_sorted l : StronglySorted notOlder (sort byTimestampDesc l).
Proof.
  induction l as [| x l IH]; simpl; [constructor |].
  now apply insertSorted_sorted.
Qed.

(** A record older than all of [l] goes last. *)
Lemma insertSorted_last x l :
  Forall (fun y => older x y) l ->
  insertSorted byTimestampDesc x l = (l ++ [x])%list.
Proof.
  induction 1 as [| y l Hy _ IH]; simpl; [reflexivity |].
  unfold byTimestampDesc at 1. unfold older in Hy.
  destruct (Z.leb_spec (y.(Data.timestamp) - x.(Data.timestamp)) 0); [lia |].
  now rewrite IH.
Qed.

Lemma sort_increasing l :
  StronglySorted older l -> sort byTimestampDesc l = rev l.
Proof.
  induction l as [| x l IH]; intros Hs; simpl; [reflexivity |].
  apply StronglySorted_inv in Hs. destruct Hs as [Hl Hx].
  rewrite (IH Hl). apply insertSorted_last.
  rewrite Forall_forall in *. intros y Hy. apply Hx. now apply in_rev.
Qed.

Lemma StronglySorted_snoc (R : ImageData -> ImageData -> Prop) l x :
  StronglySorted R l -> Forall (fun y => R y x) l ->
  StronglySorted R (l ++ [x]).
Proof.
  induction l as [| y l IH]; intros Hs Hx; simpl.
  - repeat constructor.
  - apply StronglySorted_inv in Hs. destruct Hs as [Hl Hy].
    inversion Hx; subst.
    constructor; [now apply IH |].
    apply Forall_app. split; [exact Hy | now constructor].
Qed.

Lemma rev_increasing l :
  StronglySorted older l -> StronglySorted newer (rev l).
Proof.
  induction l as [| x l IH]; intros Hs; simpl; [constructor |].
  apply StronglySorted_inv in Hs. destruct Hs as [Hl Hx].
  apply StronglySorted_snoc; [now apply IH |].
  rewrite Forall_forall in *. intros y Hy.
  apply in_rev in Hy. specialize (Hx y Hy). unfold newer, older in *. lia.
Qed.

Lemma deref_assign_other h r r' a :
  r <> r' -> Heap.deref (Heap.assign h r' a) r = Heap.deref h r.
Proof.
  unfold Heap.deref. revert r r'.
  induction h as [| x h IH]; intros r r' Hne; [now destruct r' |].
  destruct r' as [| r']; destruct r as [| r]; simpl; try congruence.
  apply IH. congruence.
Qed.

Lemma deref_assign_same h r a :
  (r < List.length h)%nat -> Heap.deref (Heap.assign h r a) r = Some a.
Proof.
  unfold Heap.deref. revert r.
  induction h as [| x h IH]; intros r Hlt; simpl in Hlt; [lia |].
  destruct r as [| r]; simpl; [reflexivity |].
  apply IH. lia.
Qed.

(** C6. [getAllImages] returns every record of the list, most recent
    first; when the list holds strictly increasing timestamps the result
    is strictly decreasing. The array returned is a new one: changing it
    in any way leaves the array of the store as it was. *)
Theorem getAllImages_sorted_fresh_copy w :
  exists all,
    getAllImages w = (Ok all, w)
    /\ Permutation all (imageStore w)
    /\ StronglySorted notOlder all
    /\ (StronglySorted older (imageStore w) ->
        all = rev (imageStore w) /\ StronglySorted newer all)
    /\ forall h store_ref,
        Heap.deref h store_ref = Some (imageStore w) ->
        exists copy h',
          Heap.getAllImages h store_ref = Some (copy, h')
          /\ copy <> store_ref
          /\ Heap.deref h' copy = Some all
          /\ Heap.deref h' store_ref = Some (imageStore w)
          /\ forall a,
              Heap.deref (Heap.assign h' copy a) store_ref
              = Some (imageStore w).
Proof.
  exists (sort byTimestampDesc (imageStore w)).
  split; [reflexivity |].
  split; [apply sort_perm |].
  split; [apply sort_sorted |].
  split.
  - intros Hinc. rewrite (sort_increasing Hinc).
    split; [reflexivity | now apply rev_increasing].
  - intros h store_ref Hstore.
    assert (Hlt : (store_ref < List.length h)%nat).
    { apply nth_error_Some. unfold Heap.deref in Hstore. congruence. }
    assert (Hne : store_ref <> List.length h) by lia.
    unfold Heap.getAllImages, Heap.alloc. rewrite Hstore.
    assert (Hcopy : Heap.deref (h ++ [imageStore w])%list (List.length h)
                    = Some (imageStore w)).
    { unfold Heap.deref. rewrite nth_error_app2 by lia.
      now rewrite Nat.sub_diag. }
    assert (Hkeep : Heap.deref (h ++ [imageStore w])%list store_ref
                    = Some (imageStore w)).
    { unfold Heap.deref. rewrite nth_error_app1 by exact Hlt. exact Hstore. }
    rewrite Hcopy. do 2 eexists. split; [reflexivity |].
    split; [lia |].
    split.
    { apply deref_assign_same. rewrite length_app. simpl. lia. }
    split.
    { rewrite deref_assign_other by exact Hne. exact Hkeep. }
    intros a. rewrite !deref_assign_other by exact Hne. exact Hkeep.
Qed.

Lemma getAllImages_sorted_fresh_copy_witness :
  let w := snd (addImage Examples.proc 2000 "square" "medium" "AA=="
                  (snd (addImage Examples.proc 1000 "circle" "perfect" "AA=="
                          (Examples.start Examples.bare)))) in
  StronglySorted older (imageStore w)
  /\ exists all,
       getAllImages w = (Ok all, w)
       /\ all = rev (imageStore w)
       /\ StronglySorted newer all.
Proof.
  intros w.
  assert (Hinc : StronglySorted older (imageStore w))
    by (vm_compute; repeat constructor).
  split; [exact Hinc |].
  destruct (getAllImages_sorted_fresh_copy w)
    as (all & Hrun & _ & _ & Hstrict & _).
  exists all. split; [exact Hrun |]. exact (Hstrict Hinc).
Defined.

(** ** Failures of the scan *)

Lemma scan_returns process w :
  fst (loadImagesFromFilesystem process w) = Ok tt.
Proof.
  unfold loadImagesFromFilesystem, try_catch.
  destruct (loadImagesFromFilesystem_body process w) as [[[] | e] w'];
    reflexivity.
Qed.

Lemma scan_world process w :
  snd (loadImagesFromFilesystem process w)
  = snd (loadImagesFromFilesystem_body process w).
Proof.
  unfold loadImagesFromFilesystem, try_catch.
  destruct (loadImagesFromFilesystem_body process w) as [[[] | e] w'];
    reflexivity.
Qed.

(** The scan leaves the disk alone and only appends to the list. *)
Lemma scan_extends process w :
  let w' := snd (loadImagesFromFilesystem process w) in
  disk w' = disk w
  /\ exists appended, imageStore w' = (imageStore w ++ appended)%list.
Proof.
  apply (@loadImagesFromFilesystem_inv process
           (fun w' => disk w' = disk w
                      /\ exists appended,
                          imageStore w' = (imageStore w ++ appended)%list)
           (disk w)); [tauto | |].
  - intros w1 img [Hd [appended Ha]] _. split; [exact Hd |].
    exists (appended ++ [img])%list. simpl. rewrite Ha.
    now rewrite app_assoc.
  - split; [reflexivity |]. exists []. now rewrite app_nil_r.
Qed.

(** C8. Without the directory [<cwd>/public/shapes] the scan does nothing
    and raises nothing, so that a store that was empty stays empty; and an
    exception raised inside the scan is caught: the scan returns normally
    with the list as it was when the exception was raised, which is the
    initial list followed by what had been appended. *)
Theorem scan_failure_handling process w :
  (Fs.existsSync (disk w) (Path.join [cwd process; "public"; "shapes"]) = false ->
   loadImagesFromFilesystem process w = (Ok tt, w)
   /\ moduleInit process w = (Ok tt, set_store [] w))
  /\ (forall e w1,
        loadImagesFromFilesystem_body process w = (Throw e, w1) ->
        loadImagesFromFilesystem process w = (Ok tt, w1))
  /\ exists w',
       loadImagesFromFilesystem process w = (Ok tt, w')
       /\ disk w' = disk w
       /\ exists appended, imageStore w' = (imageStore w ++ appended)%list.
Proof.
  split; [| split].
  - intros Hroot.
    unfold moduleInit, loadImagesFromFilesystem, try_catch,
      loadImagesFromFilesystem_body.
    unfold bind, existsSync, putStore. cbn [disk set_store].
    rewrite Hroot. split; reflexivity.
  - intros e w1 Hbody. unfold loadImagesFromFilesystem, try_catch.
    now rewrite Hbody.
  - exists (snd (loadImagesFromFilesystem process w)). split.
    + pose proof (scan_returns process w) as Hr.
      destruct (loadImagesFromFilesystem process w) as [r w'].
      simpl in *. now subst r.
    + apply scan_extends.
Qed.

Lemma scan_failure_handling_witness :
  (loadImagesFromFilesystem Examples.proc (Examples.start Examples.bare)
   = (Ok tt, Examples.start Examples.bare))
  /\ loadImagesFromFilesystem Examples.proc (Examples.start Examples.broken)
     = (Ok tt, {| disk := Examples.broken;
                  imageStore := [Examples.circle12] |}).
Proof.
  destruct (scan_failure_handling Examples.proc (Examples.start Examples.bare))
    as (Hmissing & _ & _).
  destruct (scan_failure_handling Examples.proc (Examples.start Examples.broken))
    as (_ & Hcaught & _).
  split.
  - apply Hmissing. vm_compute. reflexivity.
  - apply (Hcaught (SystemError "scandir" "/app/public/shapes/circles/medium")).
    vm_compute. reflexivity.
Defined.

(** ** [deleteImage] *)

(** *** What [unlink] does to the disk *)

Lemma assoc_remove c es : Fs.assoc c (Fs.remove c es) = None.
Proof.
  induction es as [| [n x] es IH]; simpl; [reflexivity |].
  destruct (n =? c)%string eqn:E; simpl; [exact IH |].
  now rewrite E.
Qed.

Lemma assoc_replace c x y es :
  Fs.assoc c es = Some y -> Fs.assoc c (Fs.replace c x es) = Some x.
Proof.
  induction es as [| [n z] es IH]; simpl; [discriminate |].
  destruct (n =? c)%string eqn:E; simpl.
  - now rewrite String.eqb_refl.
  - rewrite E. exact IH.
Qed.

Lemma update_step f m es c c' cs :
  Fs.update f (Fs.Dir m es) (c :: c' :: cs)
  = match Fs.assoc c es with
    | Some x =>
        match Fs.update f x (c' :: cs) with
        | Some x' => Some (Fs.Dir m (Fs.replace c x' es))
        | None => None
        end
    | None => None
    end.
Proof. reflexivity. Qed.

Lemma update_unlink_walk cs :
  forall n n',
    Fs.update Fs.unlinkEntry n cs = Some n' ->
    Fs.walk n' cs = None
    /\ exists m i data, Fs.walk n cs = Some (Fs.File m i data).
Proof.
  induction cs as [| c cs IH]; intros n n' Hu; [discriminate |].
  destruct n as [m i data | m es]; [destruct cs; simpl in Hu; discriminate |].
  destruct cs as [| c' cs].
  - simpl in Hu. unfold Fs.unlinkEntry in Hu. simpl.
    destruct (Fs.assoc c es) as [[m1 [|] data1 | m1 es1] |] eqn:Ha;
      try discriminate.
    injection Hu as <-. simpl. rewrite assoc_remove.
    split; [reflexivity | now eauto].
  - rewrite update_step in Hu. cbn [Fs.walk].
    destruct (Fs.assoc c es) as [x |] eqn:Ha; [| discriminate].
    destruct (Fs.update Fs.unlinkEntry x (c' :: cs)) as [x' |] eqn:Hx;
      [| discriminate].
    injection Hu as <-. cbn [Fs.walk].
    rewrite (@assoc_replace c x' x es Ha).
    exact (IH x x' Hx).
Qed.

(** A successful [unlink] removes a file that existed. *)
Lemma unlinkSync_removes d p d' :
  Fs.unlinkSync d p = Some d' ->
  Fs.existsSync d p = true /\ Fs.existsSync d' p = false.
Proof.
  unfold Fs.unlinkSync, Fs.existsSync, Fs.resolve.
  destruct (Path.hasTrailingSlash p); [discriminate |].
  intros Hu. apply update_unlink_walk in Hu.
  destruct Hu as [Hgone (m & i & data & Hfile)].
  rewrite Hgone, Hfile. split; reflexivity.
Qed.

(** *** The result of [deleteImage] *)

Lemma filter_shorter (f : ImageData -> bool) l :
  (List.length (filter f l) < List.length l)%nat
  <-> exists x, In x l /\ f x = false.
Proof.
  induction l as [| y l IH]; simpl.
  - split; [lia | intros [x [[] _]]].
  - pose proof (filter_length_le f l) as Hle.
    destruct (f y) eqn:E; simpl.
    + rewrite <- Nat.succ_lt_mono, IH. split.
      * intros [x [Hx Hf]]. exists x. auto.
      * intros [x [[<- | Hx] Hf]]; [congruence | now exists x].
    + split; [| lia]. intros _. exists y. auto.
Qed.

(** C2. [deleteImage] always returns a boolean. It is [true] exactly when
    a file that existed is gone from the disk, or a record matching the
    file name, the label and the normalised quality was in the list and is
    no longer in it. An exception raised inside is caught and turned into
    [false]. *)
Theorem deleteImage_result process filename label quality w :
  exists result w',
    deleteImage process filename label quality w = (Ok result, w')
    /\ (result = true <->
        (exists p, Fs.existsSync (disk w) p = true
                   /\ Fs.existsSync (disk w') p = false)
        \/ (exists img,
              In img (imageStore w)
              /\ sameImage filename label
                           (Str.or_default quality "perfect") img = true
              /\ ~ In img (imageStore w')))
    /\ (forall e w1,
          deleteImage_body process filename label quality w = (Throw e, w1) ->
          result = false /\ w' = w1).
Proof.
  pose proof (deleteImage_run process filename label quality w) as Hrun.
  destruct (deleteImage process filename label quality w) as [r w'] eqn:Hdel.
  assert (Hcatch : forall e w1,
             deleteImage_body process filename label quality w = (Throw e, w1) ->
             r = Ok false /\ w' = w1).
  { intros e w1 Hbody. unfold deleteImage, try_catch in Hdel.
    rewrite Hbody in Hdel. unfold ret in Hdel. split; congruence. }
  destruct (getFolderName label) as [folder | inherited].
  - cbv zeta in Hrun.
    set (nq := Str.or_default quality "perfect") in *.
    set (paths := candidates process
                    (find (sameImage filename label nq) (imageStore w))
                    folder quality filename) in *.
    set (keep := fun img => negb (sameImage filename label nq img)) in *.
    injection Hrun as -> ->. do 2 eexists. split; [reflexivity |].
    split; [| intros e w1 Hb; destruct (Hcatch e w1 Hb); split; congruence].
    cbn [disk imageStore]. rewrite orb_true_iff, Nat.ltb_lt, filter_shorter.
    split.
    + intros [Hfile | [img [Hin Hf]]].
      * left. unfold unlinkFirst.
        destruct (find (removable (disk w)) paths) as [p |] eqn:Hfind;
          [| discriminate].
        apply find_some in Hfind. destruct Hfind as [_ Hrem].
        unfold removable in Hrem. apply andb_true_iff in Hrem.
        destruct Hrem as [Hex Hun].
        destruct (Fs.unlinkSync (disk w) p) as [d' |] eqn:Hd; [| discriminate].
        exists p. split; [exact Hex |].
        exact (proj2 (unlinkSync_removes _ _ Hd)).
      * right. exists img. unfold keep in Hf. apply negb_false_iff in Hf.
        split; [exact Hin |]. split; [exact Hf |].
        intros Hin'. apply filter_In in Hin'. unfold keep in Hin'.
        destruct Hin' as [_ Hk]. rewrite Hf in Hk. discriminate.
    + intros [[p [Hex Hgone]] | [img [Hin [Hf _]]]].
      * left. unfold unlinkFirst in Hgone.
        destruct (find (removable (disk w)) paths); [reflexivity |].
        congruence.
      * right. exists img. split; [exact Hin |].
        unfold keep. now rewrite Hf.
  - injection Hrun as -> ->. do 2 eexists. split; [reflexivity |].
    split; [| intros e w1 Hb; destruct (Hcatch e w1 Hb); split; congruence].
    split; [discriminate |].
    intros [[p [Hex Hgone]] | [img [Hin [_ Hout]]]]; [congruence | tauto].
Qed.

(** An exception inside [deleteImage]: no folder name for the label. *)
Example deleteImage_catches :
  deleteImage_body Examples.proc "a.png" "constructor" "perfect"
                   (Examples.start Examples.onePerfect)
  = (Throw (TypeError "ERR_INVALID_ARG_TYPE"),
     Examples.start Examples.onePerfect)
  /\ deleteImage Examples.proc "a.png" "constructor" "perfect"
                 (Examples.start Examples.onePerfect)
     = (Ok false, Examples.start Examples.onePerfect).
Proof. split; reflexivity. Qed.

Lemma deleteImage_result_witness :
  exists w',
    deleteImage Examples.proc "a.png" "constructor" "perfect"
                (Examples.start Examples.onePerfect)
    = (Ok false, w').
Proof.
  destruct (@deleteImage_result Examples.proc "a.png" "constructor" "perfect"
              (Examples.start Examples.onePerfect))
    as (result & w' & Hrun & _ & Hcaught).
  exists w'. rewrite Hrun. f_equal. f_equal.
  apply (Hcaught (TypeError "ERR_INVALID_ARG_TYPE")
                 (Examples.start Examples.onePerfect)).
  reflexivity.
Defined.

(** C4. [deleteImage] goes through its candidate paths in order: the stored
    path of the record found, made absolute; the path under the quality
    subdirectory; the flat path of the older layout. The candidates before
    the one removed did not exist or could not be unlinked, the first one
    that exists and can be unlinked is removed, and nothing else on the
    disk changes. (For a label naming a member inherited from
    [Object.prototype] no folder name exists and no path is tried.) *)
Theorem deleteImage_candidate_order process filename label quality w :
  match getFolderName label with
  | JString folder =>
      let found :=
        find (sameImage filename label (Str.or_default quality "perfect"))
             (imageStore w) in
      let fromRecord :=
        match found with
        | Some img =>
            if Str.truthy img.(Data.filePath)
            then [storagePathOnDisk process img] else []
        | None => []
        end in
      let paths :=
        (fromRecord ++ [canonicalPath process folder quality filename;
                        legacyPath process folder filename])%list in
      let failed q :=
        Fs.existsSync (disk w) q = false \/ Fs.unlinkSync (disk w) q = None in
      let d' := disk (snd (deleteImage process filename label quality w)) in
      (exists tried p rest,
          paths = (tried ++ p :: rest)%list
          /\ Forall failed tried
          /\ Fs.existsSync (disk w) p = true
          /\ Fs.unlinkSync (disk w) p = Some d')
      \/ (Forall failed paths /\ d' = disk w)
  | JInherited _ =>
      deleteImage process filename label quality w = (Ok false, w)
  end.
Proof.
  rewrite deleteImage_run.
  destruct (getFolderName label) as [folder | inherited]; [| reflexivity].
  cbv zeta. cbn [snd disk].
  fold (candidates process
          (find (sameImage filename label (Str.or_default quality "perfect"))
                (imageStore w)) folder quality filename).
  generalize (candidates process
          (find (sameImage filename label (Str.or_default quality "perfect"))
                (imageStore w)) folder quality filename) as paths.
  intros paths. unfold unlinkFirst.
  induction paths as [| q paths IH]; cbn [find].
  - right. split; [constructor | reflexivity].
  - destruct (removable (disk w) q) eqn:Hrem.
    + unfold removable in Hrem. apply andb_true_iff in Hrem.
      destruct Hrem as [Hex Hun].
      destruct (Fs.unlinkSync (disk w) q) as [d1 |] eqn:Hd; [| discriminate].
      left. exists [], q, paths. repeat split; auto.
    + assert (Hq : Fs.existsSync (disk w) q = false
                   \/ Fs.unlinkSync (disk w) q = None).
      { unfold removable in Hrem. apply andb_false_iff in Hrem.
        destruct Hrem as [Hex | Hun]; [now left | right].
        now destruct (Fs.unlinkSync (disk w) q). }
      destruct IH as [(tried & p & rest & -> & Ht & Hp & Hd) | [Hall Hd]].
      * left. exists (q :: tried), p, rest. repeat split; auto.
      * right. split; [constructor; auto | exact Hd].
Qed.

(** C3. With the file in the [perfect] subdirectory and no record in the
    list (a state the process reaches when the file is put there after the
    module was loaded), [deleteImage] with an empty quality finds nothing
    and returns [false], while with quality perfect it removes the file
    and returns [true]: the empty quality is normalised for the list, not
    for the paths. *)
Theorem deleteImage_empty_quality_differs :
  reachable Examples.proc (Examples.start Examples.onePerfect)
  /\ deleteImage Examples.proc "a.png" "circle" ""
                 (Examples.start Examples.onePerfect)
     = (Ok false, Examples.start Examples.onePerfect)
  /\ deleteImage Examples.proc "a.png" "circle" "perfect"
                 (Examples.start Examples.onePerfect)
     = (Ok true, Examples.start Examples.nonePerfect).
Proof.
  split.
  - change (Examples.start Examples.onePerfect)
      with (set_disk Examples.onePerfect
                     (Examples.loaded Examples.nonePerfect)).
    apply reach_disk, reach_init.
  - split; vm_compute; reflexivity.
Qed.

(** The list, for its part, is filtered the same way by both calls. *)
Lemma deleteImage_empty_quality_same_store process filename label w :
  imageStore (snd (deleteImage process filename label "" w))
  = imageStore (snd (deleteImage process filename label "perfect" w)).
Proof.
  rewrite !deleteImage_run.
  destruct (getFolderName label); reflexivity.
Qed.

(** ** Identity of the records *)

Lemma valid_quality_normal img :
  validRecord img -> Str.or_default img.(Data.quality) "perfect" = img.(Data.quality).
Proof.
  intros [_ Hq]. unfold Str.or_default.
  destruct Hq as [<- | [<- | [<- | []]]]; reflexivity.
Qed.

Lemma NoDup_snoc A (l : list A) x : NoDup l -> ~ In x l -> NoDup (l ++ [x]).
Proof.
  intros Hl Hx. apply NoDup_app; [exact Hl | repeat constructor; auto |].
  intros y Hy [<- | []]. exact (Hx Hy).
Qed.

Lemma uniqueTriples_app store img :
  uniqueTriples store -> ~ In (triple img) (map triple store) ->
  uniqueTriples (store ++ [img]).
Proof.
  intros Hu Hn. unfold uniqueTriples. rewrite map_app. simpl.
  now apply NoDup_snoc.
Qed.

Lemma uniqueTriples_filter f store :
  uniqueTriples store -> uniqueTriples (filter f store).
Proof.
  unfold uniqueTriples. induction store as [| img store IH]; simpl; intros Hu.
  - constructor.
  - inversion Hu as [| t ts Hnot Hrest]; subst.
    destruct (f img); simpl; [| now apply IH].
    constructor; [| now apply IH].
    intros Hin. apply Hnot. apply in_map_iff in Hin.
    destruct Hin as [x [Hx Hin]]. apply filter_In in Hin.
    apply in_map_iff. exists x. tauto.
Qed.

(** What the scan appends is not in a list of valid records yet. *)
Lemma scanned_fresh process w img :
  validStore (imageStore w) -> scanned process w img ->
  ~ In (triple img) (map triple (imageStore w)).
Proof.
  intros Hv Hs Hin. apply in_map_iff in Hin. destruct Hin as [r [Hr Hin]].
  pose proof (scanned_valid Hs) as Hvi.
  unfold validStore in Hv. rewrite Forall_forall in Hv.
  pose proof (Hv r Hin) as Hvr.
  unfold triple in Hr.
  rewrite (valid_quality_normal Hvr), (valid_quality_normal Hvi) in Hr.
  injection Hr as Hf Hl Hq.
  assert (Hex : forall file label quality,
             img.(Data.filename) = file -> img.(Data.label) = label ->
             img.(Data.quality) = quality ->
             existsb (fun x => (x.(Data.filename) =? file)%string
                               && (x.(Data.label) =? label)%string
                               && (x.(Data.quality) =? quality)%string)
                     (imageStore w) = false -> False).
  { intros file label quality <- <- <- Hex.
    rewrite <- not_true_iff_false in Hex. apply Hex.
    apply existsb_exists. exists r. split; [exact Hin |].
    rewrite Hf, Hl, Hq, !String.eqb_refl. reflexivity. }
  destruct Hs; eapply Hex; eauto.
Qed.

Lemma scan_distinct process w :
  validStore (imageStore w) -> uniqueTriples (imageStore w) ->
  uniqueTriples (imageStore (snd (loadImagesFromFilesystem process w))).
Proof.
  intros Hv Hu.
  apply (@loadImagesFromFilesystem_inv process
           (fun w' => disk w' = disk w
                      /\ validStore (imageStore w')
                      /\ uniqueTriples (imageStore w'))
           (disk w)); [tauto | | tauto].
  intros w' img (Hd & Hv' & Hu') Hs. split; [exact Hd |]. simpl. split.
  - apply validStore_app; [exact Hv' | exact (scanned_valid Hs)].
  - apply uniqueTriples_app; [exact Hu' | exact (scanned_fresh Hv' Hs)].
Qed.

Lemma addImage_distinct process now label quality image w :
  uniqueTriples (imageStore w) ->
  ~ In (triple (addedRecord now label quality image))
       (map triple (imageStore w)) ->
  uniqueTriples (imageStore (snd (addImage process now label quality image w))).
Proof.
  intros Hu Hfresh.
  pose proof (addImage_store process now label quality image w) as H.
  destruct (addImage process now label quality image w) as [[img | e] w'];
    simpl.
  - destruct H as (_ & _ & -> & ->). now apply uniqueTriples_app.
  - now rewrite H.
Qed.

Lemma deleteImage_distinct process filename label quality w :
  uniqueTriples (imageStore w) ->
  uniqueTriples (imageStore (snd (deleteImage process filename label quality w))).
Proof.
  intros Hu.
  destruct (deleteImage_store process filename label quality w) as [-> | ->].
  - exact Hu.
  - now apply uniqueTriples_filter.
Qed.

Lemma reachableFresh_reachable process w :
  reachableFresh process w -> reachable process w.
Proof. induction 1; now constructor. Qed.

(** C1, as the code has it. In every state reached through the scan,
    [deleteImage], changes of the disk and [addImage] calls whose
    generated file name is not yet in the list under the same label and
    quality, no two records share their file name, label and normalised
    quality: the scan appends a record only when none has its triple, and
    [addImage], which appends without looking, keeps the list free of
    duplicates exactly because its file name is new. *)
Theorem reachableFresh_unique process w :
  reachableFresh process w -> uniqueTriples (imageStore w).
Proof.
  intros Hr. induction Hr as [d | w Hr IH | w now label quality image Hr IH Hf
                              | w filename label quality Hr IH | w d Hr IH].
  - rewrite moduleInit_eq. apply scan_distinct; constructor.
  - apply scan_distinct; [| exact IH].
    exact (reachable_valid (reachableFresh_reachable Hr)).
  - now apply addImage_distinct.
  - now apply deleteImage_distinct.
  - exact IH.
Qed.

Lemma reachableFresh_unique_witness :
  reachableFresh Examples.proc Examples.apart
  /\ uniqueTriples (imageStore Examples.apart).
Proof.
  assert (Hr : reachableFresh Examples.proc Examples.apart).
  { unfold Examples.apart. apply fresh_add; [apply fresh_add |].
    - apply fresh_init.
    - vm_compute. tauto.
    - vm_compute. intros [H | []]. discriminate H. }
  split; [exact Hr | exact (@reachableFresh_unique _ _ Hr)].
Defined.

(** C1, as stated, fails: two [addImage] calls with the same label and
    quality within one millisecond leave two records with one triple. *)
Lemma addImage_same_millisecond_duplicates :
  reachable Examples.proc Examples.twice
  /\ ~ uniqueTriples (imageStore Examples.twice).
Proof.
  split.
  - unfold Examples.twice. do 2 apply reach_add. apply reach_init.
  - intros Hu. vm_compute in Hu. inversion Hu as [| t ts Hnot _]; subst.
    apply Hnot. now left.
Qed.

(** ** The scan, run again *)

(** The scan reads the disk, never the list, to decide what to do next:
    it offers the same records in the same order whatever the list. *)
Section Offering.

Variable d : Fs.node.

Lemma offering_ret : offering d (ret tt).
Proof. exists [], (Ok tt). intros store. reflexivity. Qed.

Lemma offering_bind (m : M unit) (k : unit -> M unit) :
  offering d m -> offering d (k tt) -> offering d (bind m k).
Proof.
  intros (cs1 & o1 & H1) (cs2 & o2 & H2).
  destruct o1 as [[] | e].
  - exists (cs1 ++ cs2)%list, o2. intros store. unfold bind.
    rewrite H1, H2, fold_left_app. reflexivity.
  - exists cs1, (Throw e). intros store. unfold bind.
    rewrite H1. reflexivity.
Qed.

Lemma offering_forEach X (xs : list X) body :
  (forall x, In x xs -> offering d (body x)) ->
  offering d (forEach xs body).
Proof.
  induction xs as [| x xs IH]; intros Hb; simpl.
  - apply offering_ret.
  - apply offering_bind.
    + apply Hb. now left.
    + apply IH. intros y Hy. apply Hb. now right.
Qed.

Lemma offering_existsSync_bind p (k : bool -> M unit) :
  offering d (k (Fs.existsSync d p)) -> offering d (bind (existsSync p) k).
Proof.
  intros (cs & o & H). exists cs, o. intros store.
  unfold bind, existsSync. cbn [disk]. apply H.
Qed.

Lemma offering_statSync_bind p (k : Fs.Stats -> M unit) :
  (forall stats, Fs.statSync d p = Some stats -> offering d (k stats)) ->
  offering d (bind (statSync p) k).
Proof.
  intros Hk. destruct (Fs.statSync d p) as [stats |] eqn:E.
  - destruct (Hk stats eq_refl) as (cs & o & H). exists cs, o.
    intros store. unfold bind, statSync. cbn [disk]. rewrite E. apply H.
  - exists [], (Throw (SystemError "stat" p)). intros store.
    unfold bind, statSync. cbn [disk]. rewrite E. reflexivity.
Qed.

Lemma offering_readdirSync_bind p (k : list string -> M unit) :
  (forall names, Fs.readdirSync d p = Some names -> offering d (k names)) ->
  offering d (bind (readdirSync p) k).
Proof.
  intros Hk. destruct (Fs.readdirSync d p) as [names |] eqn:E.
  - destruct (Hk names eq_refl) as (cs & o & H). exists cs, o.
    intros store. unfold bind, readdirSync. cbn [disk]. rewrite E. apply H.
  - exists [], (Throw (SystemError "scandir" p)). intros store.
    unfold bind, readdirSync. cbn [disk]. rewrite E. reflexivity.
Qed.

(** The guarded append at the end of both callbacks. *)
Lemma offering_append img :
  offering d
    (store <- getStore ;;
     if negb (hasRecord img.(Data.filename) img.(Data.label)
                        img.(Data.quality) store)
     then push img else ret tt).
Proof.
  exists [img], (Ok tt). intros store.
  unfold bind, getStore, push, putStore, ret. cbn [imageStore fold_left].
  unfold pushNew.
  destruct (hasRecord _ _ _ store); reflexivity.
Qed.

Lemma scanQualityFile_offering folder qualityDir label quality file :
  offering d (scanQualityFile folder qualityDir label quality file).
Proof.
  unfold scanQualityFile.
  destruct (Str.has_image_ext file); [| apply offering_ret].
  apply offering_statSync_bind. intros stats _. cbv zeta.
  match goal with
  | |- offering d (bind getStore (fun store => if _ then push ?img else _)) =>
      exact (offering_append img)
  end.
Qed.

Lemma scanLegacyFile_offering folder labelDir label file :
  offering d (scanLegacyFile folder labelDir label file).
Proof.
  unfold scanLegacyFile.
  apply offering_statSync_bind. intros stats _.
  destruct (Fs.isFile stats && Str.has_image_ext file);
    [| apply offering_ret].
  cbv zeta.
  match goal with
  | |- offering d (bind getStore (fun store => if _ then push ?img else _)) =>
      exact (offering_append img)
  end.
Qed.

Lemma scanQuality_offering folder labelDir label quality :
  offering d (scanQuality folder labelDir label quality).
Proof.
  unfold scanQuality. apply offering_existsSync_bind.
  destruct (Fs.existsSync d _); [| apply offering_ret].
  apply offering_readdirSync_bind. intros names _.
  apply offering_forEach. intros file _. apply scanQualityFile_offering.
Qed.

Lemma scanLabel_offering publicShapesDir label :
  offering d (scanLabel publicShapesDir label).
Proof.
  unfold scanLabel, pathJoin.
  destruct (strings _) as [ss |].
  - rewrite bind_ret. apply offering_existsSync_bind.
    destruct (Fs.existsSync d _); [| apply offering_ret].
    apply offering_statSync_bind. intros stats _.
    destruct (Fs.isDirectory stats); [| apply offering_ret].
    apply offering_bind.
    + apply offering_forEach. intros quality _. apply scanQuality_offering.
    + apply offering_readdirSync_bind. intros names _.
      apply offering_forEach. intros file _. apply scanLegacyFile_offering.
  - exists [], (Throw (TypeError "ERR_INVALID_ARG_TYPE")).
    intros store. reflexivity.
Qed.

Lemma loadImagesFromFilesystem_body_offering process :
  offering d (loadImagesFromFilesystem_body process).
Proof.
  unfold loadImagesFromFilesystem_body. apply offering_existsSync_bind.
  destruct (Fs.existsSync d _); cbn [negb]; [| apply offering_ret].
  apply offering_forEach. intros label _. apply scanLabel_offering.
Qed.

End Offering.

Lemma hasRecord_app file label quality s1 s2 :
  hasRecord file label quality (s1 ++ s2)
  = hasRecord file label quality s1 || hasRecord file label quality s2.
Proof. unfold hasRecord. apply existsb_app. Qed.

Lemma hasRecord_pushNew file label quality store img :
  hasRecord file label quality store = true ->
  hasRecord file label quality (pushNew store img) = true.
Proof.
  intros H. unfold pushNew.
  destruct (hasRecord img.(Data.filename) img.(Data.label)
                      img.(Data.quality) store); [exact H |].
  rewrite hasRecord_app, H. reflexivity.
Qed.

Lemma hasRecord_fold file label quality offered store :
  hasRecord file label quality store = true ->
  hasRecord file label quality (fold_left pushNew offered store) = true.
Proof.
  revert store. induction offered as [| img offered IH]; intros store H;
    simpl; [exact H |].
  apply IH. now apply hasRecord_pushNew.
Qed.

Lemma hasRecord_self store img :
  hasRecord img.(Data.filename) img.(Data.label) img.(Data.quality)
            (pushNew store img) = true.
Proof.
  unfold pushNew.
  destruct (hasRecord _ _ _ store) eqn:E; [exact E |].
  rewrite hasRecord_app. apply orb_true_iff. right.
  unfold hasRecord. simpl. now rewrite !String.eqb_refl.
Qed.

(** Offering records that are all there changes nothing. *)
Lemma fold_pushNew_present offered store :
  (forall img, In img offered ->
     hasRecord img.(Data.filename) img.(Data.label) img.(Data.quality)
               store = true) ->
  fold_left pushNew offered store = store.
Proof.
  induction offered as [| img offered IH]; intros H; simpl; [reflexivity |].
  unfold pushNew at 2. rewrite (H img (or_introl eq_refl)).
  apply IH. intros x Hx. apply H. now right.
Qed.

Lemma fold_pushNew_all offered store img :
  In img offered ->
  hasRecord img.(Data.filename) img.(Data.label) img.(Data.quality)
            (fold_left pushNew offered store) = true.
Proof.
  revert store. induction offered as [| x offered IH]; intros store [];
    simpl.
  - subst x. apply hasRecord_fold, hasRecord_self.
  - now apply IH.
Qed.

Lemma fold_pushNew_idempotent offered store :
  fold_left pushNew offered (fold_left pushNew offered store)
  = fold_left pushNew offered store.
Proof.
  apply fold_pushNew_present. intros img Hin. now apply fold_pushNew_all.
Qed.

(** Running the scan on its own result appends nothing. *)
Lemma scan_idempotent process w :
  loadImagesFromFilesystem process
    (snd (loadImagesFromFilesystem process w))
  = (Ok tt, snd (loadImagesFromFilesystem process w)).
Proof.
  destruct w as [d store].
  destruct (loadImagesFromFilesystem_body_offering d process)
    as (offered & outcome & Hrun).
  unfold loadImagesFromFilesystem, try_catch. rewrite Hrun.
  assert (Hagain :
            loadImagesFromFilesystem_body process
              {| disk := d; imageStore := fold_left pushNew offered store |}
            = (outcome, {| disk := d;
                           imageStore := fold_left pushNew offered store |})).
  { rewrite Hrun, fold_pushNew_idempotent. reflexivity. }
  destruct outcome as [[] | e]; cbn [snd ret]; rewrite Hagain; reflexivity.
Qed.

(** ** The scan, when it completes *)

Lemma bind_Ok_inv A B (m : M A) (k : A -> M B) w b w' :
  bind m k w = (Ok b, w') ->
  exists a w1, m w = (Ok a, w1) /\ k a w1 = (Ok b, w').
Proof.
  unfold bind. destruct (m w) as [[a | e] w1]; [| discriminate].
  intros H. now exists a, w1.
Qed.

Lemma readdirSync_existsSync d p names :
  Fs.readdirSync d p = Some names -> Fs.existsSync d p = true.
Proof.
  unfold Fs.readdirSync, Fs.existsSync.
  destruct (Fs.resolve d p); [reflexivity | discriminate].
Qed.

Lemma readdirSync_statSync d p names :
  Fs.readdirSync d p = Some names ->
  exists stats, Fs.statSync d p = Some stats /\ Fs.isDirectory stats = true.
Proof.
  unfold Fs.readdirSync, Fs.statSync.
  destruct (Fs.resolve d p) as [[m i data | m es] |]; try discriminate.
  intros _. eexists. split; reflexivity.
Qed.

Lemma keeping_disk d R w : keeping d R w -> disk w = d.
Proof. now intros [H _]. Qed.

Lemma keeping_push process d R w img :
  monotone R ->
  keeping d R w -> scanned process w img -> keeping d R (snd (push img w)).
Proof.
  intros HR [Hd Hw] _. split; [exact Hd |]. simpl. now apply HR.
Qed.

Lemma monotone_hasRecord (P : Prop) file label quality :
  monotone (fun store => P -> hasRecord file label quality store = true).
Proof.
  intros store img H HP. rewrite hasRecord_app, (H HP). reflexivity.
Qed.

Lemma monotone_True : monotone (fun _ => True).
Proof. intros store img H. exact H. Qed.

(** [forEach] that completes did for each element what its body does, and
    what one iteration established the later ones kept. *)
Lemma forEach_complete X (xs : list X) (body : X -> M unit) d
      (Q : X -> list ImageData -> Prop) :
  (forall x w w',
      In x xs -> disk w = d -> body x w = (Ok tt, w') -> Q x (imageStore w')) ->
  (forall x y, In x xs -> In y xs -> preserves (keeping d (Q x)) (body y)) ->
  (forall y, In y xs -> preserves (keeping d (fun _ => True)) (body y)) ->
  forall w w',
    disk w = d -> forEach xs body w = (Ok tt, w') ->
    forall x, In x xs -> Q x (imageStore w').
Proof.
  induction xs as [| x0 xs IH]; intros Hleaf Hkeep Hdisk w w' Hd Hrun x Hx;
    [destruct Hx |].
  simpl in Hrun. apply bind_Ok_inv in Hrun.
  destruct Hrun as ([] & w1 & Hfirst & Hrest).
  assert (Hd1 : disk w1 = d).
  { pose proof (Hdisk x0 (or_introl eq_refl) w (conj Hd I)) as H.
    rewrite Hfirst in H. exact (proj1 H). }
  destruct Hx as [<- | Hx].
  - assert (Hq : keeping d (Q x0) w1).
    { split; [exact Hd1 |].
      exact (Hleaf x0 w w1 (or_introl eq_refl) Hd Hfirst). }
    assert (Hall : preserves (keeping d (Q x0)) (forEach xs body)).
    { apply preserves_forEach. intros y Hy.
      apply Hkeep; [now left | now right]. }
    specialize (Hall w1 Hq). rewrite Hrest in Hall. exact (proj2 Hall).
  - apply (IH (fun x w w' Hin => Hleaf x w w' (or_intror Hin))
              (fun x y Hx Hy => Hkeep x y (or_intror Hx) (or_intror Hy))
              (fun y Hy => Hdisk y (or_intror Hy))
              w1 w' Hd1 Hrest x Hx).
Qed.

(** The callbacks leave a record for the entry they are run on. *)
Lemma scanQualityFile_complete folder qualityDir label quality file w w' :
  scanQualityFile folder qualityDir label quality file w = (Ok tt, w') ->
  Str.has_image_ext file = true ->
  hasRecord file label quality (imageStore w') = true.
Proof.
  unfold scanQualityFile. intros Hrun Hext. rewrite Hext in Hrun.
  apply bind_Ok_inv in Hrun. destruct Hrun as (stats & w1 & Hstat & Hrun).
  unfold statSync in Hstat.
  destruct (Fs.statSync (disk w) _); [| discriminate].
  injection Hstat as _ <-.
  cbv zeta in Hrun. unfold bind, getStore, push, putStore, ret in Hrun.
  fold (hasRecord file label quality (imageStore w)) in Hrun.
  destruct (hasRecord file label quality (imageStore w)) eqn:E;
    cbn [negb] in Hrun; injection Hrun as <-.
  - exact E.
  - simpl. rewrite hasRecord_app. apply orb_true_iff. right.
    unfold hasRecord. simpl. now rewrite !String.eqb_refl.
Qed.

Lemma scanLegacyFile_complete folder labelDir label file stats w w' :
  scanLegacyFile folder labelDir label file w = (Ok tt, w') ->
  Fs.statSync (disk w) (Path.join [labelDir; file]) = Some stats ->
  Fs.isFile stats = true ->
  Str.has_image_ext file = true ->
  hasRecord file label "perfect" (imageStore w') = true.
Proof.
  unfold scanLegacyFile. intros Hrun Hstats Hfile Hext.
  apply bind_Ok_inv in Hrun. destruct Hrun as (stats' & w1 & Hstat & Hrun).
  unfold statSync in Hstat. rewrite Hstats in Hstat.
  injection Hstat as <- <-. rewrite Hfile, Hext in Hrun.
  cbv zeta in Hrun. cbn [andb] in Hrun.
  unfold bind, getStore, push, putStore, ret in Hrun.
  fold (hasRecord file label "perfect" (imageStore w)) in Hrun.
  destruct (hasRecord file label "perfect" (imageStore w)) eqn:E;
    cbn [negb] in Hrun; injection Hrun as <-.
  - exact E.
  - simpl. rewrite hasRecord_app. apply orb_true_iff. right.
    unfold hasRecord. simpl. now rewrite !String.eqb_refl.
Qed.

Section ScanCompletes.

Variable process : Process.
Variable d0 : Fs.node.

Let publicShapesDir := Path.join [cwd process; "public"; "shapes"].

Lemma monotone_qualityEntries labelDir label :
  monotone (qualityEntriesRecorded d0 labelDir label).
Proof.
  intros store img H quality names file Hq Hn Hf He.
  rewrite hasRecord_app, (H quality names file Hq Hn Hf He). reflexivity.
Qed.

Lemma monotone_flatFiles labelDir label flat :
  monotone (flatFilesRecorded d0 labelDir label flat).
Proof.
  intros store img H file stats Hf Hs Hi He.
  rewrite hasRecord_app, (H file stats Hf Hs Hi He). reflexivity.
Qed.

Lemma monotone_labelRecorded label :
  monotone (labelRecorded process d0 label).
Proof.
  intros store img H folder flat Hf labelDir Hflat.
  destruct (H folder flat Hf Hflat) as [Hq Hl]. split.
  - now apply monotone_qualityEntries.
  - now apply monotone_flatFiles.
Qed.

Section OneLabel.

Variables label folder : string.
Hypothesis label_valid : In label validLabels.
Hypothesis label_folder : getFolderName label = JString folder.

Let labelDir := Path.join [publicShapesDir; folder].

(** What the scan of one label keeps. *)
Lemma scanQuality_keeps R quality :
  monotone R -> In quality validQualities ->
  preserves (keeping d0 R) (scanQuality folder labelDir label quality).
Proof.
  intros HR Hq.
  apply (@scanQuality_inv process (keeping d0 R) d0
           (@keeping_disk d0 R)
           (fun w img => @keeping_push process d0 R w img HR)
           label folder quality label_valid label_folder Hq).
Qed.

Lemma scanLegacyFile_keeps R flat file :
  monotone R ->
  Fs.readdirSync d0 labelDir = Some flat -> In file flat ->
  preserves (keeping d0 R) (scanLegacyFile folder labelDir label file).
Proof.
  intros HR Hflat Hfile.
  apply (@scanLegacyFile_inv process (keeping d0 R) d0
           (@keeping_disk d0 R)
           (fun w img => @keeping_push process d0 R w img HR)
           label folder flat file label_valid label_folder Hflat Hfile).
Qed.

Lemma scanQualityFile_keeps R quality names file :
  monotone R -> In quality validQualities ->
  Fs.readdirSync d0 (Path.join [labelDir; quality]) = Some names ->
  In file names ->
  preserves (keeping d0 R)
    (scanQualityFile folder (Path.join [labelDir; quality])
                     label quality file).
Proof.
  intros HR Hq Hnames Hfile.
  apply (@scanQualityFile_inv process (keeping d0 R) d0
           (@keeping_disk d0 R)
           (fun w img => @keeping_push process d0 R w img HR)
           label folder quality names file
           label_valid label_folder Hq Hnames Hfile).
Qed.

Lemma scanQuality_complete quality names w w' :
  In quality validQualities ->
  Fs.readdirSync d0 (Path.join [labelDir; quality]) = Some names ->
  disk w = d0 ->
  scanQuality folder labelDir label quality w = (Ok tt, w') ->
  forall file,
    In file names -> Str.has_image_ext file = true ->
    hasRecord file label quality (imageStore w') = true.
Proof.
  intros Hq Hnames Hd Hrun. unfold scanQuality in Hrun.
  apply bind_Ok_inv in Hrun. destruct Hrun as (e & w1 & He & Hrun).
  unfold existsSync in He. injection He as <- <-.
  rewrite Hd, (readdirSync_existsSync _ _ Hnames) in Hrun.
  apply bind_Ok_inv in Hrun. destruct Hrun as (names' & w1 & Hr & Hrun).
  unfold readdirSync in Hr. rewrite Hd, Hnames in Hr.
  injection Hr as <- <-.
  intros file Hfile.
  apply (@forEach_complete _ names
           (scanQualityFile folder (Path.join [labelDir; quality])
                            label quality)
           d0
           (fun file store =>
              Str.has_image_ext file = true ->
              hasRecord file label quality store = true)) with (w := w);
    auto.
  - intros x w0 w0' _ _ Hx. now apply scanQualityFile_complete with (1 := Hx).
  - intros x y _ Hy.
    apply scanQualityFile_keeps with (names := names); auto.
    apply monotone_hasRecord.
  - intros y Hy.
    apply scanQualityFile_keeps with (names := names); auto.
    apply monotone_True.
Qed.

Lemma scanLabel_complete flat w w' :
  Fs.readdirSync d0 labelDir = Some flat ->
  disk w = d0 ->
  scanLabel publicShapesDir label w = (Ok tt, w') ->
  qualityEntriesRecorded d0 labelDir label (imageStore w')
  /\ flatFilesRecorded d0 labelDir label flat (imageStore w').
Proof.
  intros Hflat Hd Hrun. unfold scanLabel in Hrun.
  rewrite label_folder in Hrun. unfold pathJoin, strings in Hrun.
  rewrite bind_ret in Hrun. fold publicShapesDir labelDir in Hrun.
  apply bind_Ok_inv in Hrun. destruct Hrun as (e & w1 & He & Hrun).
  unfold existsSync in He. injection He as <- <-.
  rewrite Hd, (readdirSync_existsSync _ _ Hflat) in Hrun.
  apply bind_Ok_inv in Hrun. destruct Hrun as (stats & w1 & Hs & Hrun).
  unfold statSync in Hs. rewrite Hd in Hs.
  destruct (readdirSync_statSync _ _ Hflat) as (stats' & Hs' & Hdir).
  rewrite Hs' in Hs. injection Hs as <- <-. rewrite Hdir in Hrun.
  apply bind_Ok_inv in Hrun. destruct Hrun as ([] & w1 & Hqs & Hrun).
  apply bind_Ok_inv in Hrun. destruct Hrun as (flat' & w2 & Hr & Hrun).
  assert (Hd1 : disk w1 = d0).
  { assert (H : preserves (keeping d0 (fun _ => True))
                  (forEach validQualities
                     (scanQuality (js_String (JString folder)) labelDir label))).
    { apply preserves_forEach. intros q Hq.
      apply scanQuality_keeps; [apply monotone_True | exact Hq]. }
    specialize (H w (conj Hd I)). rewrite Hqs in H. exact (proj1 H). }
  unfold readdirSync in Hr. rewrite Hd1, Hflat in Hr.
  injection Hr as <- <-.
  split.
  - assert (Hq1 : qualityEntriesRecorded d0 labelDir label (imageStore w1)).
    { intros quality names file Hq Hnames Hfile Hext.
      apply (@forEach_complete _ validQualities
               (scanQuality (js_String (JString folder)) labelDir label)
               d0
               (fun quality store =>
                  forall names file,
                    Fs.readdirSync d0 (Path.join [labelDir; quality])
                    = Some names ->
                    In file names -> Str.has_image_ext file = true ->
                    hasRecord file label quality store = true))
        with (w := w) (x := quality) (names := names); auto.
      - intros q w0 w0' Hq0 Hd0 Hrun0 names0 file0 Hn0 Hf0 He0.
        now apply (@scanQuality_complete q names0 w0 w0').
      - intros q y _ Hy. apply scanQuality_keeps; [| exact Hy].
        intros store img H names0 file0 Hn0 Hf0 He0.
        rewrite hasRecord_app, (H names0 file0 Hn0 Hf0 He0). reflexivity.
      - intros y Hy. apply scanQuality_keeps; [apply monotone_True | exact Hy]. }
    assert (Hall : preserves
                     (keeping d0 (qualityEntriesRecorded d0 labelDir label))
                     (forEach flat
                        (scanLegacyFile (js_String (JString folder))
                                        labelDir label))).
    { apply preserves_forEach. intros file Hfile.
      apply scanLegacyFile_keeps with (flat := flat); auto.
      apply monotone_qualityEntries. }
    specialize (Hall w1 (conj Hd1 Hq1)). rewrite Hrun in Hall.
    exact (proj2 Hall).
  - intros file stats Hfile Hstats Hisfile Hext.
    apply (@forEach_complete _ flat
             (scanLegacyFile (js_String (JString folder)) labelDir label)
             d0
             (fun file store =>
                forall stats,
                  Fs.statSync d0 (Path.join [labelDir; file]) = Some stats ->
                  Fs.isFile stats = true ->
                  Str.has_image_ext file = true ->
                  hasRecord file label "perfect" store = true))
      with (w := w1) (x := file) (stats := stats); auto.
    + intros x w0 w0' _ Hd0 Hrun0 stats0 Hs0 Hi0 He0.
      apply (@scanLegacyFile_complete (js_String (JString folder)) labelDir
               label x stats0 w0 w0'); auto.
      now rewrite Hd0.
    + intros x y _ Hy.
      apply scanLegacyFile_keeps with (flat := flat); auto.
      intros store img H stats0 Hs0 Hi0 He0.
      rewrite hasRecord_app, (H stats0 Hs0 Hi0 He0). reflexivity.
    + intros y Hy.
      apply scanLegacyFile_keeps with (flat := flat); auto.
      apply monotone_True.
Qed.

End OneLabel.

End ScanCompletes.

Lemma loadImagesFromFilesystem_body_complete process w w' :
  loadImagesFromFilesystem_body process w = (Ok tt, w') ->
  Fs.existsSync (disk w) (Path.join [cwd process; "public"; "shapes"]) = true ->
  forall label,
    In label validLabels ->
    labelRecorded process (disk w) label (imageStore w').
Proof.
  intros Hrun Hroot. unfold loadImagesFromFilesystem_body in Hrun.
  apply bind_Ok_inv in Hrun. destruct Hrun as (e & w1 & He & Hrun).
  unfold existsSync in He. injection He as <- <-.
  rewrite Hroot in Hrun. cbn [negb] in Hrun.
  apply (@forEach_complete _ validLabels
           (scanLabel (Path.join [cwd process; "public"; "shapes"]))
           (disk w) (labelRecorded process (disk w))) with (w := w);
    auto.
  - intros label w0 w0' Hl Hd0 Hrun0 folder flat Hf labelDir Hflat.
    exact (@scanLabel_complete process (disk w) label folder Hl Hf
             flat w0 w0' Hflat Hd0 Hrun0).
  - intros x y _ Hy.
    apply (@scanLabel_inv process (keeping (disk w) (labelRecorded process (disk w) x))
             (disk w) (@keeping_disk _ _)
             (fun w0 img => @keeping_push process _ _ w0 img
                              (@monotone_labelRecorded process (disk w) x))
             y Hy).
  - intros y Hy.
    apply (@scanLabel_inv process (keeping (disk w) (fun _ => True))
             (disk w) (@keeping_disk _ _)
             (fun w0 img => @keeping_push process _ _ w0 img monotone_True)
             y Hy).
Qed.

Lemma hasRecord_In file label quality store :
  hasRecord file label quality store = true ->
  exists r,
    In r store /\ r.(Data.filename) = file /\ r.(Data.label) = label
    /\ r.(Data.quality) = quality.
Proof.
  unfold hasRecord. rewrite existsb_exists. intros [r [Hin Hr]].
  rewrite !andb_true_iff, !String.eqb_eq in Hr. exists r. tauto.
Qed.

(** Every record the scan appends comes from an entry of the disk. *)
Lemma scan_appends_scanned process w :
  exists appended,
    imageStore (snd (loadImagesFromFilesystem process w))
    = (imageStore w ++ appended)%list
    /\ Forall (fun r => exists w0, disk w0 = disk w /\ scanned process w0 r)
              appended.
Proof.
  apply (@loadImagesFromFilesystem_inv process
           (fun w' =>
              disk w' = disk w
              /\ exists appended,
                  imageStore w' = (imageStore w ++ appended)%list
                  /\ Forall (fun r => exists w0,
                                 disk w0 = disk w /\ scanned process w0 r)
                            appended)
           (disk w)); [tauto | |].
  - intros w1 img [Hd (appended & Ha & Hall)] Hs. split; [exact Hd |].
    exists (appended ++ [img])%list. simpl. rewrite Ha, app_assoc.
    split; [reflexivity |].
    apply Forall_app. split; [exact Hall |].
    constructor; [| constructor]. now exists w1.
  - split; [reflexivity |]. exists []. rewrite app_nil_r. now split.
Qed.

(** C7, as the code has it. Run on a list of valid records with distinct
    triples, the scan leaves a list with distinct triples, made of the
    initial list followed by records built from entries of the disk (the
    quality being the name of the subdirectory, or perfect for a file
    lying flat in the label folder). When the scan completes, each regular
    image file has a record with its file name, label and quality, so that
    there is exactly one record per triple: a flat file whose name also
    lies in the perfect subdirectory of its label shares the record of
    that file. Running the scan again changes nothing. *)
Theorem scan_records_each_triple_once process w :
  validStore (imageStore w) ->
  uniqueTriples (imageStore w) ->
  let d := disk w in
  let publicShapesDir := Path.join [cwd process; "public"; "shapes"] in
  let w' := snd (loadImagesFromFilesystem process w) in
  let recorded file label quality :=
    exists r,
      In r (imageStore w') /\ r.(Data.filename) = file
      /\ r.(Data.label) = label /\ r.(Data.quality) = quality in
  uniqueTriples (imageStore w')
  /\ (exists appended,
        imageStore w' = (imageStore w ++ appended)%list
        /\ Forall (fun r => exists w0, disk w0 = d /\ scanned process w0 r)
                  appended)
  /\ (fst (loadImagesFromFilesystem_body process w) = Ok tt ->
      Fs.existsSync d publicShapesDir = true ->
      forall label folder flat,
        In label ["circle"; "square"; "triangle"] ->
        getFolderName label = JString folder ->
        let labelDir := Path.join [publicShapesDir; folder] in
        Fs.readdirSync d labelDir = Some flat ->
        (forall quality names file stats,
            In quality ["perfect"; "medium"; "irregular"] ->
            Fs.readdirSync d (Path.join [labelDir; quality]) = Some names ->
            In file names ->
            Fs.statSync d (Path.join [Path.join [labelDir; quality]; file])
            = Some stats ->
            Fs.isFile stats = true ->
            Str.has_image_ext file = true ->
            recorded file label quality)
        /\ (forall file stats,
               In file flat ->
               Fs.statSync d (Path.join [labelDir; file]) = Some stats ->
               Fs.isFile stats = true ->
               Str.has_image_ext file = true ->
               recorded file label "perfect"))
  /\ loadImagesFromFilesystem process w' = (Ok tt, w').
Proof.
  intros Hv Hu d publicShapesDir w' recorded.
  split; [now apply scan_distinct |].
  split; [apply scan_appends_scanned |].
  split; [| apply scan_idempotent].
  intros Hok Hroot label folder flat Hl Hf labelDir Hflat.
  assert (Hrun : loadImagesFromFilesystem_body process w = (Ok tt, w')).
  { unfold w'. rewrite scan_world.
    destruct (loadImagesFromFilesystem_body process w) as [r w1].
    simpl in *. now subst r. }
  destruct (@loadImagesFromFilesystem_body_complete process w w' Hrun Hroot
              label Hl folder flat Hf Hflat) as [Hq Hlegacy].
  split.
  - intros quality names file stats Hquality Hnames Hfile _ _ Hext.
    apply hasRecord_In. exact (Hq quality names file Hquality Hnames Hfile Hext).
  - intros file stats Hfile Hstats Hisfile Hext.
    apply hasRecord_In. exact (Hlegacy file stats Hfile Hstats Hisfile Hext).
Qed.

Lemma scan_records_each_triple_once_witness :
  validStore (imageStore (Examples.start Examples.shadowed))
  /\ uniqueTriples (imageStore (Examples.start Examples.shadowed))
  /\ uniqueTriples (imageStore (Examples.loaded Examples.shadowed))
  /\ (exists r,
        In r (imageStore (Examples.loaded Examples.shadowed))
        /\ r.(Data.filename) = "a.png" /\ r.(Data.label) = "circle"
        /\ r.(Data.quality) = "perfect")
  /\ loadImagesFromFilesystem Examples.proc (Examples.loaded Examples.shadowed)
     = (Ok tt, Examples.loaded Examples.shadowed).
Proof.
  assert (Hv : validStore (imageStore (Examples.start Examples.shadowed)))
    by constructor.
  assert (Hu : uniqueTriples (imageStore (Examples.start Examples.shadowed)))
    by constructor.
  destruct (@scan_records_each_triple_once Examples.proc
              (Examples.start Examples.shadowed) Hv Hu)
    as (Hunique & _ & Hrecorded & Hagain).
  split; [exact Hv |]. split; [exact Hu |]. split; [exact Hunique |].
  split; [| exact Hagain].
  assert (Hok : fst (loadImagesFromFilesystem_body Examples.proc
                       (Examples.start Examples.shadowed)) = Ok tt)
    by (vm_compute; reflexivity).
  assert (Hroot : Fs.existsSync (disk (Examples.start Examples.shadowed))
                    (Path.join [cwd Examples.proc; "public"; "shapes"]) = true)
    by (vm_compute; reflexivity).
  destruct (Hrecorded Hok Hroot "circle" "circles" ["perfect"; "a.png"])
    as [_ Hflat].
  - simpl. tauto.
  - reflexivity.
  - vm_compute. reflexivity.
  - apply (Hflat "a.png"
             {| Fs.isDirectory := false; Fs.isFile := true; Fs.mtimeMs := 8 |}).
    + simpl. tauto.
    + vm_compute. reflexivity.
    + reflexivity.
    + vm_compute. reflexivity.
Defined.

(** C7, as stated, fails: with [a.png] both in [circles/perfect] and flat
    in [circles] the disk holds two image files and the scan makes one
    record. *)
Lemma scan_shadowed_flat_file :
  imageFilesOnDisk Examples.proc Examples.shadowed
  = [("circle", "perfect", "a.png"); ("circle", "", "a.png")]
  /\ imageStore (Examples.loaded Examples.shadowed) = [Examples.aPerfect]
  /\ List.length (imageStore (Examples.loaded Examples.shadowed))
     <> List.length (imageFilesOnDisk Examples.proc Examples.shadowed).
Proof.
  split; [vm_compute; reflexivity |].
  split; [vm_compute; reflexivity |].
  vm_compute. discriminate.
Qed.

(** A candidate that cannot be unlinked is passed over: the stored path
    and the path under the quality subdirectory name the same immutable
    file, and the flat file is removed. *)
Example deleteImage_passes_over_failure :
  deleteImage Examples.proc "a.png" "circle" "perfect" Examples.guarded
  = (Ok true, Examples.guardedAfter).
Proof. vm_compute. reflexivity. Qed.

(** * Further properties *)

Unset Implicit Arguments.

(** ** Files written and read back *)

Lemma assoc_app_new c x es :
  Fs.assoc c es = None -> Fs.assoc c (es ++ [(c, x)]) = Some x.
Proof.
  induction es as [| [n y] es IH]; simpl; intros H.
  - now rewrite String.eqb_refl.
  - destruct (n =? c)%string; [discriminate | now apply IH].
Qed.

Lemma update_write_walk data now cs :
  forall n n',
    Fs.update (Fs.writeEntry data now) n cs = Some n' ->
    Fs.walk n' cs = Some (Fs.File now false data).
Proof.
  induction cs as [| c cs IH]; intros n n' Hu; [discriminate |].
  destruct n as [m i old | m es]; [destruct cs; simpl in Hu; discriminate |].
  destruct cs as [| c' cs].
  - simpl in Hu. unfold Fs.writeEntry in Hu. simpl.
    destruct (Fs.assoc c es) as [[m1 [|] data1 | m1 es1] |] eqn:Ha;
      try discriminate; injection Hu as <-; simpl.
    + now rewrite (@assoc_replace c _ _ es Ha).
    + now rewrite (assoc_app_new c _ es Ha).
  - rewrite update_step in Hu. cbn [Fs.walk].
    destruct (Fs.assoc c es) as [x |] eqn:Ha; [| discriminate].
    destruct (Fs.update (Fs.writeEntry data now) x (c' :: cs)) as [x' |] eqn:Hx;
      [| discriminate].
    injection Hu as <-. cbn [Fs.walk].
    rewrite (@assoc_replace c x' x es Ha).
    exact (IH x x' Hx).
Qed.

(** A file written is there, with its contents and its time. *)
Lemma writeFileSync_resolve d p data now d' :
  Fs.writeFileSync d p data now = Some d' ->
  Fs.resolve d' p = Some (Fs.File now false data).
Proof.
  unfold Fs.writeFileSync, Fs.resolve.
  destruct (Path.hasTrailingSlash p); [discriminate |].
  intros Hu. now rewrite (update_write_walk data now _ _ _ Hu).
Qed.

(** ** [addImage], run *)

Lemma addedFilePath_eq process now label quality :
  addedFilePath process now label quality
  = Path.join [addedDir process label quality; addedFilename now label].
Proof. reflexivity. Qed.

(** [addImage] on valid arguments: the directory is made when missing,
    the file is written, the record is appended; the first step that
    fails ends the call. *)
Lemma addImage_run process now label quality image w :
  In label validLabels ->
  In quality validQualities ->
  let publicDir := addedDir process label quality in
  let filePath := addedFilePath process now label quality in
  let made :=
    if Fs.existsSync (disk w) publicDir then Some (disk w)
    else Fs.mkdirSync_recursive (disk w) publicDir now in
  addImage process now label quality image w
  = match made with
    | None => (Throw (SystemError "mkdir" publicDir), w)
    | Some d1 =>
        match Fs.writeFileSync d1 filePath (Str.strip_data_url image) now with
        | None => (Throw (SystemError "open" filePath), set_disk d1 w)
        | Some d2 =>
            (Ok (addedRecord now label quality image),
             {| disk := d2;
                imageStore :=
                  (imageStore w ++ [addedRecord now label quality image])%list |})
        end
    end.
Proof.
  intros Hl Hq publicDir filePath made. unfold addImage.
  rewrite (proj2 (includes_In label validLabels) Hl).
  rewrite (proj2 (includes_In quality validQualities) Hq). cbn [negb].
  destruct (getFolderName_valid Hl) as [folder Hf].
  unfold made, filePath, publicDir, addedFilePath, addedDir, addedRecord,
    addedFilename.
  rewrite Hf. unfold pathJoin, strings. rewrite bind_ret. cbn [js_String].
  destruct w as [d store].
  cbv beta iota zeta
      delta [bind existsSync mkdirSync_recursive writeFileSync push getStore
             putStore ret set_disk set_store disk imageStore].
  destruct (Fs.existsSync d _); cbv beta iota delta [negb].
  - destruct (Fs.writeFileSync _ _ _ _); reflexivity.
  - destruct (Fs.mkdirSync_recursive d _ _); cbv beta iota; [| reflexivity].
    destruct (Fs.writeFileSync _ _ _ _); reflexivity.
Qed.

(** What a returning [addImage] has done. *)
Lemma addImage_returns_written_facts process now label quality image w img w' :
  addImage process now label quality image w = (Ok img, w') ->
  In label validLabels
  /\ In quality validQualities
  /\ img = addedRecord now label quality image
  /\ imageStore w' = (imageStore w ++ [img])%list
  /\ Fs.resolve (disk w') (addedFilePath process now label quality)
     = Some (Fs.File now false (Str.strip_data_url image)).
Proof.
  intros Hrun.
  pose proof (addImage_store process now label quality image w) as Hs.
  rewrite Hrun in Hs. destruct Hs as (Hl & Hq & Himg & Hstore).
  rewrite (addImage_run process now label quality image w Hl Hq) in Hrun.
  cbv zeta in Hrun.
  destruct (if Fs.existsSync (disk w) (addedDir process label quality)
            then Some (disk w)
            else Fs.mkdirSync_recursive (disk w)
                   (addedDir process label quality) now) as [d1 |];
    [| discriminate].
  destruct (Fs.writeFileSync d1 _ _ now) as [d2 |] eqn:Hw; [| discriminate].
  injection Hrun as _ <-. cbn [disk].
  pose proof (writeFileSync_resolve _ _ _ _ _ Hw) as Hr.
  repeat split; auto.
Qed.



(** X2. When [addImage] throws, the list is as before: no record is left
    without its file. The disk is as before too, unless the directory was
    made and the write failed; nothing is cleaned up then. *)
Theorem addImage_throws_keeps_list process now label quality image w e w' :
  addImage process now label quality image w = (Throw e, w') ->
  imageStore w' = imageStore w
  /\ (disk w' = disk w
      \/ Fs.mkdirSync_recursive (disk w) (addedDir process label quality) now
         = Some (disk w')).
Proof.
  intros Hrun.
  pose proof (addImage_store process now label quality image w) as Hs.
  rewrite Hrun in Hs. split; [exact Hs |].
  pose proof Hrun as Hagain. unfold addImage in Hrun.
  destruct (Str.includes label validLabels) eqn:Hl; cbn [negb] in Hrun;
    [| injection Hrun as _ <-; now left].
  destruct (Str.includes quality validQualities) eqn:Hq; cbn [negb] in Hrun;
    [| injection Hrun as _ <-; now left].
  apply includes_In in Hl, Hq. clear Hrun.
  pose proof (addImage_run process now label quality image w Hl Hq) as Hrun.
  cbv zeta in Hrun. rewrite Hrun in Hagain. clear Hrun.
  destruct (Fs.existsSync (disk w) (addedDir process label quality)).
  - destruct (Fs.writeFileSync (disk w) _ _ now); [discriminate |].
    injection Hagain as _ <-. now left.
  - destruct (Fs.mkdirSync_recursive (disk w) _ now) as [d1 |];
      [| injection Hagain as _ <-; now left].
    destruct (Fs.writeFileSync d1 _ _ now); [discriminate |].
    injection Hagain as _ <-. now right.
Qed.

Lemma addImage_throws_keeps_list_witness :
  exists e w',
    addImage Examples.proc 1000 "circle" "medium" "AA=="
             (Examples.loaded Examples.broken)
    = (Throw e, w')
    /\ imageStore w' = imageStore (Examples.loaded Examples.broken).
Proof.
  destruct (addImage Examples.proc 1000 "circle" "medium" "AA=="
              (Examples.loaded Examples.broken))
    as [[img | e] w'] eqn:Hrun; [vm_compute in Hrun; discriminate |].
  exists e, w'. split; [reflexivity |].
  exact (proj1 (addImage_throws_keeps_list _ _ _ _ _ _ _ _ Hrun)).
Defined.

(** ** [deleteImage] and the list *)

Lemma sameImage_named filename label quality img :
  sameImage filename label (Str.or_default quality "perfect") img = true
  <-> named filename label quality img.
Proof.
  unfold sameImage, named. rewrite !andb_true_iff, !String.eqb_eq. tauto.
Qed.

Lemma sameImage_not_named filename label quality img :
  sameImage filename label (Str.or_default quality "perfect") img = false
  <-> ~ named filename label quality img.
Proof.
  rewrite <- sameImage_named.
  destruct (sameImage _ _ _ img); split; congruence.
Qed.

Lemma filter_all (f : ImageData -> bool) l :
  (forall x, In x l -> f x = true) -> filter f l = l.
Proof.
  induction l as [| y l IH]; intros H; simpl; [reflexivity |].
  rewrite (H y (or_introl eq_refl)). f_equal. apply IH.
  intros x Hx. apply H. now right.
Qed.

Lemma find_none_iff (f : ImageData -> bool) l :
  (forall x, In x l -> f x = false) -> find f l = None.
Proof.
  induction l as [| y l IH]; intros H; simpl; [reflexivity |].
  rewrite (H y (or_introl eq_refl)). apply IH.
  intros x Hx. apply H. now right.
Qed.

(** X3. With no record named by the arguments in the list and no file at
    the path under the quality subdirectory nor at the flat path,
    [deleteImage] returns [false] and changes nothing. *)
Theorem deleteImage_nothing_to_delete process filename label quality w :
  (forall img, In img (imageStore w) -> ~ named filename label quality img) ->
  (forall folder,
      getFolderName label = JString folder ->
      Fs.existsSync (disk w) (canonicalPath process folder quality filename)
      = false
      /\ Fs.existsSync (disk w) (legacyPath process folder filename) = false) ->
  deleteImage process filename label quality w = (Ok false, w).
Proof.
  intros Hnone Hfiles. rewrite deleteImage_run.
  destruct (getFolderName label) as [folder | inherited]; [| reflexivity].
  destruct (Hfiles folder eq_refl) as [Hc Hl]. cbv zeta.
  assert (Hsame : forall img, In img (imageStore w) ->
                    sameImage filename label
                              (Str.or_default quality "perfect") img = false).
  { intros img Hin. apply sameImage_not_named. now apply Hnone. }
  rewrite (find_none_iff _ _ Hsame).
  rewrite (filter_all _ (imageStore w))
    by (intros img Hin; rewrite (Hsame img Hin); reflexivity).
  unfold candidates, unlinkFirst. cbn [app find].
  unfold removable. rewrite Hc, Hl. cbn [andb isSome orb].
  rewrite Nat.ltb_irrefl. now destruct w.
Qed.

Lemma deleteImage_nothing_to_delete_witness :
  deleteImage Examples.proc "a.png" "square" "medium"
              (Examples.loaded Examples.populated)
  = (Ok false, Examples.loaded Examples.populated).
Proof.
  apply deleteImage_nothing_to_delete.
  - intros img Hin (Hf & _). vm_compute in Hin.
    destruct Hin as [<- | [<- | [<- | []]]]; discriminate Hf.
  - intros folder Hf. injection Hf as <-. split; vm_compute; reflexivity.
Defined.

(** X4. For a label that has a folder name, [deleteImage] leaves in the
    list exactly the records its arguments do not name, in their order,
    whatever happened to the files; calling it again leaves the list as
    it is. *)
Theorem deleteImage_list process filename label quality w folder :
  getFolderName label = JString folder ->
  let w' := snd (deleteImage process filename label quality w) in
  selection (fun img => ~ named filename label quality img)
            (imageStore w) (imageStore w')
  /\ imageStore (snd (deleteImage process filename label quality w'))
     = imageStore w'.
Proof.
  intros Hf w'. unfold w'. rewrite !deleteImage_run, Hf. cbv zeta.
  cbn [snd imageStore]. split.
  - apply filter_selection. intros img.
    rewrite negb_true_iff. apply sameImage_not_named.
  - apply filter_all. intros img Hin. apply filter_In in Hin. tauto.
Qed.

Lemma deleteImage_list_witness :
  getFolderName "circle" = JString "circles"
  /\ selection (fun img => ~ named "circle_12.png" "circle" "perfect" img)
       (imageStore (Examples.loaded Examples.populated))
       (imageStore
          (snd (deleteImage Examples.proc "circle_12.png" "circle" "perfect"
                            (Examples.loaded Examples.populated)))).
Proof.
  split; [reflexivity |].
  exact (proj1 (deleteImage_list Examples.proc "circle_12.png" "circle"
                  "perfect" (Examples.loaded Examples.populated) "circles"
                  eq_refl)).
Defined.

(** ** File names and timestamps *)

Lemma chars_app a b : Str.chars (a ++ b) = (Str.chars a ++ Str.chars b)%list.
Proof.
  unfold Str.chars. induction a as [| c a IH]; simpl; [reflexivity |].
  now rewrite IH.
Qed.

Lemma digits_of_uint d :
  Forall (fun c => Str.is_digit c = true)
         (Str.chars (NilEmpty.string_of_uint d)).
Proof.
  induction d; simpl; constructor; (reflexivity || assumption).
Qed.

Lemma parseInt_acc d acc :
  fold_left (fun a c => 10 * a + (Z.of_N (Str.code c) - 48))
            (Str.chars (NilEmpty.string_of_uint d)) (Z.pos acc)
  = Z.pos (Pos.of_uint_acc d acc).
Proof.
  revert acc. induction d; intros acc;
    cbn [NilEmpty.string_of_uint Str.chars list_ascii_of_string fold_left
         Pos.of_uint_acc]; [reflexivity | ..].
  all: unfold Str.chars in IHd; rewrite <- IHd; f_equal.
  all: match goal with
       | |- context [Z.of_N (Str.code ?c)] =>
           let v := eval vm_compute in (Z.of_N (Str.code c)) in
           change (Z.of_N (Str.code c)) with v
       end; lia.
Qed.

Lemma parseInt_uint d :
  Str.parseInt (Str.chars (NilEmpty.string_of_uint d))
  = Z.of_N (Pos.of_uint d).
Proof.
  unfold Str.parseInt.
  induction d;
    cbn [NilEmpty.string_of_uint Str.chars list_ascii_of_string fold_left
         Pos.of_uint]; try reflexivity; try exact IHd;
    exact (parseInt_acc d _).
Qed.

(** The decimal rendering of a non-negative integer: digits that read
    back as the integer. *)
Lemma of_Z_digits now :
  0 <= now ->
  Forall (fun c => Str.is_digit c = true) (Str.chars (Str.of_Z now))
  /\ Str.chars (Str.of_Z now) <> []
  /\ Str.parseInt (Str.chars (Str.of_Z now)) = now.
Proof.
  intros Hnow. unfold Str.of_Z.
  destruct now as [| p | p]; [| | lia].
  - split; [repeat constructor |]. split; [discriminate | reflexivity].
  - cbn [Z.to_int NilZero.string_of_int].
    pose proof (DecimalPos.Unsigned.of_to p) as Hp.
    pose proof (DecimalPos.Unsigned.to_uint_nonnil p) as Hnil.
    assert (Hs : NilZero.string_of_uint (Pos.to_uint p)
                 = NilEmpty.string_of_uint (Pos.to_uint p)).
    { destruct (Pos.to_uint p); [now destruct Hnil | reflexivity ..]. }
    rewrite Hs. split; [apply digits_of_uint |]. split.
    + destruct (Pos.to_uint p); [now destruct Hnil | discriminate ..].
    + now rewrite parseInt_uint, Hp.
Qed.

Lemma span_run (p : ascii -> bool) l1 c l2 :
  Forall (fun x => p x = true) l1 -> p c = false ->
  Str.span p (l1 ++ c :: l2) = (l1, c :: l2).
Proof.
  intros Hl Hc. induction Hl as [| x l1 Hx _ IH]; simpl.
  - now rewrite Hc.
  - now rewrite Hx, IH.
Qed.

Lemma existsb_rev_false (f : ascii -> bool) l :
  (forall c, In c l -> f c = false) -> existsb f (rev l) = false.
Proof.
  intros H. apply not_true_iff_false. intros Hex.
  apply existsb_exists in Hex. destruct Hex as [c [Hin Hc]].
  apply in_rev in Hin. rewrite (H c Hin) in Hc. discriminate.
Qed.

Lemma rev_chars_added now label :
  rev (Str.chars (addedFilename now label))
  = (["g"; "n"; "p"; "."]%char
     ++ rev (Str.chars (Str.of_Z now))
     ++ "_"%char :: rev (Str.chars label))%list.
Proof.
  unfold addedFilename. rewrite !chars_app, !rev_app_distr.
  simpl. rewrite <- !app_assoc. reflexivity.
Qed.

Lemma addedFilename_has_image_ext now label :
  Str.has_image_ext (addedFilename now label) = true.
Proof.
  unfold Str.has_image_ext. now rewrite rev_chars_added.
Qed.

Lemma addedFilename_match_timestamp now label :
  0 <= now ->
  label <> "" ->
  (forall c, In c (Str.chars label) -> Str.is_line_terminator c = false) ->
  Str.match_timestamp (addedFilename now label) = Some now.
Proof.
  unfold Str.match_timestamp.
  rewrite rev_chars_added.
  intros Hnow Hlabel Hline.
  destruct (of_Z_digits now Hnow) as (Hdigits & Hnonempty & Hparse).
  assert (Hstrip : forall rest,
    Str.strip_ext Str.image_exts (["g"; "n"; "p"; "."]%char ++ rest)%list = Some rest) by reflexivity.
  rewrite Hstrip.
  rewrite (span_run Str.is_digit _ "_"%char _ (Forall_rev Hdigits) eq_refl).
  destruct (rev (Str.chars (Str.of_Z now))) as [| c0 rdigits] eqn:Hrev.
  { apply (f_equal (@rev ascii)) in Hrev. rewrite rev_involutive in Hrev.
    now destruct Hnonempty. }
  rewrite <- Hrev, rev_involutive, Hparse.
  rewrite (existsb_rev_false _ _ Hline).
  destruct (rev (Str.chars label)) as [| c1 rlabel] eqn:Hl.
  { apply (f_equal (@rev ascii)) in Hl. rewrite rev_involutive in Hl.
    destruct label; [now destruct Hlabel | discriminate Hl]. }
  reflexivity.
Qed.

(** X5. The name [addImage] gives a file passes the extension filter of
    the scan, and when the clock reading is not negative the scan reads the
    same reading back from the name (for a label that is not empty and has
    no line break), whatever the modification time of the file. *)
Theorem addedFilename_round_trip now label :
  Str.has_image_ext (addedFilename now label) = true
  /\ (0 <= now ->
      label <> "" ->
      (forall c, In c (Str.chars label) -> Str.is_line_terminator c = false) ->
      Str.match_timestamp (addedFilename now label) = Some now).
Proof.
  split.
  - apply addedFilename_has_image_ext.
  - intros Hnow Hlabel Hline.
    now apply addedFilename_match_timestamp.
Qed.

Lemma addedFilename_round_trip_witness :
  Str.match_timestamp (addedFilename 1737312625123 "circle")
  = Some 1737312625123.
Proof.
  apply (proj2 (addedFilename_round_trip 1737312625123 "circle")).
  - lia.
  - discriminate.
  - intros c Hin. simpl in Hin.
    repeat (destruct Hin as [<- | Hin]; [reflexivity |]). destruct Hin.
Defined.



(** ** [path.join] on an absolute working directory *)

Lemma split_nonempty sep s : Str.split sep s <> [].
Proof.
  destruct s as [| c s]; simpl; [discriminate |].
  destruct (Ascii.eqb c sep); [discriminate |].
  destruct (Str.split sep s); discriminate.
Qed.

Lemma split_app sep a b :
  Str.split sep (a ++ String sep b)
  = (Str.split sep a ++ Str.split sep b)%list.
Proof.
  induction a as [| c a IH]; simpl.
  - now rewrite Ascii.eqb_refl.
  - destruct (Ascii.eqb c sep); [now rewrite IH |].
    rewrite IH. pose proof (split_nonempty sep a) as Hne.
    destruct (Str.split sep a); [now destruct Hne | reflexivity].
Qed.

Lemma split_segment sep s :
  ~ In sep (Str.chars s) -> Str.split sep s = [s].
Proof.
  induction s as [| c s IH]; intros Hno; simpl; [reflexivity |].
  destruct (Ascii.eqb_spec c sep) as [-> | Hne].
  - destruct Hno. now left.
  - rewrite IH; [reflexivity |]. intros Hin. apply Hno. now right.
Qed.

Lemma split_no_sep sep s seg :
  In seg (Str.split sep s) -> ~ In sep (Str.chars seg).
Proof.
  revert seg. induction s as [| c s IH]; simpl; intros seg Hin.
  - destruct Hin as [<- | []]. intros [].
  - destruct (Ascii.eqb_spec c sep) as [-> | Hne].
    + destruct Hin as [<- | Hin]; [intros [] | now apply IH].
    + pose proof (split_nonempty sep s) as Hnil.
      destruct (Str.split sep s) as [| w ws]; [now destruct Hnil |].
      destruct Hin as [<- | Hin].
      * intros [Heq | Hin]; [now destruct Hne |].
        exact (IH w (or_introl eq_refl) Hin).
      * apply IH. now right.
Qed.

Lemma join_cons sep x y l :
  Str.join sep (x :: y :: l) = x ++ sep ++ Str.join sep (y :: l).
Proof. reflexivity. Qed.

Lemma split_join segs :
  segs <> [] ->
  Forall (fun seg => ~ In "/"%char (Str.chars seg)) segs ->
  Str.split "/" (Str.join "/" segs) = segs.
Proof.
  induction segs as [| x segs IH]; intros Hne Hall; [now destruct Hne |].
  inversion Hall as [| ? ? Hx Hrest]; subst.
  destruct segs as [| y segs].
  - simpl. now apply split_segment.
  - rewrite join_cons.
    change (x ++ "/" ++ Str.join "/" (y :: segs))
      with (x ++ String "/" (Str.join "/" (y :: segs))).
    rewrite split_app, (split_segment _ _ Hx), IH; [reflexivity | | exact Hrest].
    discriminate.
Qed.

Lemma normalizeSegments_app allow l1 :
  forall acc l2,
    Path.normalizeSegments allow acc (l1 ++ l2)
    = Path.normalizeSegments allow
        (rev (Path.normalizeSegments allow acc l1)) l2.
Proof.
  induction l1 as [| seg l1 IH]; intros acc l2.
  - simpl. now rewrite rev_involutive.
  - cbn [app Path.normalizeSegments].
    destruct ((seg =? "") || (seg =? "."))%string; [apply IH |].
    destruct (seg =? "..")%string; [| apply IH].
    destruct acc as [| top acc]; [apply IH |].
    destruct (top =? "..")%string; apply IH.
Qed.

Lemma normalizeSegments_clean allow segs :
  forall acc,
    Forall cleanSegment segs ->
    Path.normalizeSegments allow acc segs = (rev acc ++ segs)%list.
Proof.
  induction segs as [| seg segs IH]; intros acc Hall.
  - simpl. now rewrite app_nil_r.
  - inversion Hall as [| ? ? (Hne & Hdot & Hdots & _) Hrest]; subst.
    cbn [Path.normalizeSegments].
    apply String.eqb_neq in Hne, Hdot, Hdots.
    rewrite Hne, Hdot, Hdots. cbn [orb].
    rewrite (IH _ Hrest). simpl. now rewrite <- app_assoc.
Qed.

(** Normalising the segments of an absolute path leaves proper ones. *)
Lemma normalizeSegments_proper segs :
  forall acc,
    Forall cleanSegment acc ->
    Forall (fun seg => ~ In "/"%char (Str.chars seg)) segs ->
    Forall cleanSegment (Path.normalizeSegments false acc segs).
Proof.
  induction segs as [| seg segs IH]; intros acc Hacc Hall.
  - simpl. now apply Forall_rev.
  - inversion Hall as [| ? ? Hseg Hrest]; subst.
    cbn [Path.normalizeSegments].
    destruct (String.eqb_spec seg "") as [-> | Hne]; cbn [orb];
      [now apply IH |].
    destruct (String.eqb_spec seg ".") as [-> | Hdot]; [now apply IH |].
    destruct (String.eqb_spec seg "..") as [-> | Hdots].
    + destruct acc as [| top acc]; [now apply IH |].
      inversion Hacc; subst.
      destruct (top =? "..")%string; now apply IH.
    + apply IH; [| exact Hrest]. constructor; [| exact Hacc]. now repeat split.
Qed.

Lemma rootSegments_proper p : Forall cleanSegment (rootSegments p).
Proof.
  apply normalizeSegments_proper; [constructor |].
  apply Forall_forall. intros seg Hin. exact (split_no_sep _ _ _ Hin).
Qed.

Lemma hasTrailingSlash_app a b :
  b <> "" -> Path.hasTrailingSlash (a ++ b) = Path.hasTrailingSlash b.
Proof.
  intros Hb. unfold Path.hasTrailingSlash. rewrite chars_app, rev_app_distr.
  destruct (rev (Str.chars b)) as [| c l] eqn:E; [| reflexivity].
  apply (f_equal (@rev ascii)) in E. rewrite rev_involutive in E.
  destruct b; [now destruct Hb | discriminate E].
Qed.

Lemma hasTrailingSlash_segment s :
  cleanSegment s -> Path.hasTrailingSlash s = false.
Proof.
  intros (Hne & _ & _ & Hno). unfold Path.hasTrailingSlash.
  destruct (rev (Str.chars s)) as [| c l] eqn:E; [reflexivity |].
  destruct (Ascii.eqb_spec c "/") as [-> | Hc]; [| reflexivity].
  destruct Hno. apply in_rev. rewrite E. now left.
Qed.

Lemma join_segments_nonempty x segs :
  x <> "" -> Str.join "/" (x :: segs) <> "".
Proof.
  intros Hx. destruct segs as [| y segs]; [exact Hx |].
  rewrite join_cons. destruct x; [now destruct Hx | discriminate].
Qed.

Lemma hasTrailingSlash_join segs :
  segs <> [] -> Forall cleanSegment segs ->
  Path.hasTrailingSlash (Str.join "/" segs) = false.
Proof.
  induction segs as [| x segs IH]; intros Hne Hall; [now destruct Hne |].
  inversion Hall as [| ? ? Hx Hrest]; subst.
  destruct segs as [| y segs]; [now apply hasTrailingSlash_segment |].
  rewrite join_cons.
  rewrite (hasTrailingSlash_app x ("/" ++ Str.join "/" (y :: segs)))
    by discriminate.
  rewrite (hasTrailingSlash_app "/" (Str.join "/" (y :: segs))).
  - apply IH; [discriminate | exact Hrest].
  - apply join_segments_nonempty. inversion Hrest as [| ? ? (Hy & _) _].
    exact Hy.
Qed.

Lemma join_app_nonempty l ps :
  ps <> [] -> Forall cleanSegment ps -> Str.join "/" (l ++ ps) <> "".
Proof.
  intros Hne Hall. induction l as [| x l IH]; simpl app.
  - destruct ps as [| p ps]; [now destruct Hne |].
    apply join_segments_nonempty. inversion Hall as [| ? ? (Hp & _) _].
    exact Hp.
  - destruct (l ++ ps)%list as [| y rest] eqn:E.
    + destruct l; [simpl in E; now destruct Hne | discriminate E].
    + rewrite join_cons. intros Habs.
      destruct x; discriminate Habs.
Qed.

Lemma filter_truthy_clean ps :
  Forall cleanSegment ps -> filter Str.truthy ps = ps.
Proof.
  induction 1 as [| p ps (Hp & _) _ IH]; simpl; [reflexivity |].
  unfold Str.truthy at 1. apply String.eqb_neq in Hp. rewrite Hp.
  simpl. now rewrite IH.
Qed.

Lemma isAbsolute_cons p :
  Path.isAbsolute p = true -> exists rest, p = String "/" rest.
Proof.
  unfold Path.isAbsolute, Str.startsWith.
  destruct p as [| c p]; cbn [String.prefix]; [discriminate |].
  destruct (ascii_dec "/" c) as [<- | Hne]; intros H; [| discriminate H].
  now exists p.
Qed.

(** Joining proper segments to an absolute path appends them to its
    normalised segments. *)
Lemma join_absolute c ps :
  Path.isAbsolute c = true ->
  ps <> [] -> Forall cleanSegment ps ->
  Path.join (c :: ps) = absolutePath (rootSegments c ++ ps).
Proof.
  intros Habs Hne Hall. destruct (isAbsolute_cons c Habs) as [rest ->].
  unfold Path.join. cbn [filter]. unfold Str.truthy at 1. cbn [String.eqb negb].
  rewrite (filter_truthy_clean ps Hall).
  destruct ps as [| p ps]; [now destruct Hne |].
  rewrite join_cons. unfold Path.normalize.
  set (tail := Str.join "/" (p :: ps)).
  assert (Htail : tail <> "").
  { apply join_segments_nonempty. inversion Hall as [| ? ? (Hp & _) _].
    exact Hp. }
  cbn [append String.eqb].
  set (s := String "/" (rest ++ String "/" tail)).
  assert (Habs' : Path.isAbsolute s = true).
  { unfold s, Path.isAbsolute, Str.startsWith. cbn [String.prefix].
    destruct (ascii_dec "/" "/"); [| congruence].
    now destruct (rest ++ String "/" tail). }
  assert (Htrail : Path.hasTrailingSlash s = false).
  { unfold s.
    change (String "/" (rest ++ String "/" tail))
      with (String "/" rest ++ ("/" ++ tail)).
    rewrite (hasTrailingSlash_app (String "/" rest) ("/" ++ tail))
      by discriminate.
    rewrite (hasTrailingSlash_app "/" tail) by exact Htail.
    apply hasTrailingSlash_join; [discriminate | exact Hall]. }
  assert (Hsplit : Str.split "/" s
                   = (Str.split "/" (String "/" rest) ++ p :: ps)%list).
  { unfold s.
    change (String "/" (rest ++ String "/" tail))
      with (String "/" rest ++ String "/" tail).
    rewrite split_app. unfold tail. rewrite split_join; [reflexivity | discriminate |].
    apply Forall_forall. intros seg Hin. rewrite Forall_forall in Hall.
    exact (proj2 (proj2 (proj2 (Hall seg Hin)))). }
  rewrite Habs', Htrail, Hsplit. cbn [negb].
  rewrite normalizeSegments_app.
  rewrite (normalizeSegments_clean false (p :: ps) _ Hall).
  rewrite rev_involutive. fold (rootSegments (String "/" rest)).
  pose proof (join_app_nonempty (rootSegments (String "/" rest)) (p :: ps)
                Hne Hall) as Hbody.
  apply String.eqb_neq in Hbody. rewrite Hbody. reflexivity.
Qed.

Lemma no_slash_of_clean segs :
  Forall cleanSegment segs ->
  Forall (fun seg => ~ In "/"%char (Str.chars seg)) segs.
Proof.
  intros H. apply Forall_forall. intros seg Hin.
  rewrite Forall_forall in H. exact (proj2 (proj2 (proj2 (H seg Hin)))).
Qed.

Lemma split_absolutePath segs :
  segs <> [] -> Forall cleanSegment segs ->
  Str.split "/" (absolutePath segs) = "" :: segs.
Proof.
  intros Hne Hall. unfold absolutePath.
  change ("/" ++ Str.join "/" segs) with ("" ++ String "/" (Str.join "/" segs)).
  rewrite split_app, split_join; [reflexivity | exact Hne |].
  now apply no_slash_of_clean.
Qed.

Lemma rootSegments_absolutePath segs :
  Forall cleanSegment segs -> rootSegments (absolutePath segs) = segs.
Proof.
  intros Hall. unfold rootSegments. destruct segs as [| x segs].
  - reflexivity.
  - rewrite split_absolutePath; [| discriminate | exact Hall].
    change (Path.normalizeSegments false [] ("" :: x :: segs))
      with (Path.normalizeSegments false [] (x :: segs)).
    now rewrite (normalizeSegments_clean false (x :: segs) [] Hall).
Qed.

Lemma isAbsolute_slash rest : Path.isAbsolute (String "/" rest) = true.
Proof.
  unfold Path.isAbsolute, Str.startsWith. cbn [String.prefix].
  destruct (ascii_dec "/" "/"); [| congruence]. now destruct rest.
Qed.

Lemma join_absolutePath segs ps :
  Forall cleanSegment segs ->
  ps <> [] -> Forall cleanSegment ps ->
  Path.join (absolutePath segs :: ps) = absolutePath (segs ++ ps).
Proof.
  intros Hsegs Hne Hps.
  rewrite (join_absolute (absolutePath segs) ps
             (isAbsolute_slash _) Hne Hps).
  now rewrite rootSegments_absolutePath.
Qed.

Lemma components_absolutePath segs :
  Forall cleanSegment segs -> Fs.components (absolutePath segs) = segs.
Proof.
  intros Hall. unfold Fs.components. destruct segs as [| x segs].
  - reflexivity.
  - rewrite split_absolutePath; [| discriminate | exact Hall].
    change (filter Str.truthy ("" :: x :: segs))
      with (filter Str.truthy (x :: segs)).
    now apply filter_truthy_clean.
Qed.

Lemma hasTrailingSlash_absolutePath segs :
  segs <> [] -> Forall cleanSegment segs ->
  Path.hasTrailingSlash (absolutePath segs) = false.
Proof.
  intros Hne Hall. unfold absolutePath.
  rewrite hasTrailingSlash_app.
  - now apply hasTrailingSlash_join.
  - destruct segs as [| x segs]; [now destruct Hne |].
    apply join_segments_nonempty. inversion Hall as [| ? ? (Hx & _) _].
    exact Hx.
Qed.

(** ** The filesystem along a path in normal form *)

Lemma walk_app n l1 l2 :
  Fs.walk n (l1 ++ l2)
  = match Fs.walk n l1 with
    | Some x => Fs.walk x l2
    | None => None
    end.
Proof.
  revert n. induction l1 as [| c l1 IH]; intros n; [reflexivity |].
  cbn [app Fs.walk]. destruct n as [m i data | m es]; [reflexivity |].
  destruct (Fs.assoc c es); [apply IH | reflexivity].
Qed.

Lemma resolve_absolutePath d segs :
  segs <> [] -> Forall cleanSegment segs ->
  Fs.resolve d (absolutePath segs) = Fs.walk d segs.
Proof.
  intros Hne Hall. unfold Fs.resolve.
  rewrite components_absolutePath, hasTrailingSlash_absolutePath by assumption.
  now destruct (Fs.walk d segs) as [[] |].
Qed.

Lemma assoc_In c es x :
  Fs.assoc c es = Some x -> In c (map fst es).
Proof.
  induction es as [| [n y] es IH]; simpl; [discriminate |].
  destruct (String.eqb_spec n c) as [-> | Hne]; [now left |].
  intros H. right. now apply IH.
Qed.

(** The directory that holds a file lists it. *)
Lemma walk_parent_lists d segs f x :
  Fs.walk d (segs ++ [f]) = Some x ->
  exists m es,
    Fs.walk d segs = Some (Fs.Dir m es) /\ In f (map fst es).
Proof.
  rewrite walk_app. destruct (Fs.walk d segs) as [[m i data | m es] |];
    try discriminate.
  cbn [Fs.walk]. destruct (Fs.assoc f es) eqn:Ha; [| discriminate].
  intros _. exists m, es. split; [reflexivity |].
  exact (assoc_In _ _ _ Ha).
Qed.

(** What can be walked into is a directory. *)
Lemma walk_prefix_dir d l1 c l2 x :
  Fs.walk d (l1 ++ c :: l2) = Some x ->
  exists m es, Fs.walk d l1 = Some (Fs.Dir m es).
Proof.
  rewrite walk_app. destruct (Fs.walk d l1) as [[m i data | m es] |];
    try discriminate.
  intros _. now exists m, es.
Qed.

(** A file that is not immutable can be unlinked. *)
Lemma update_unlink_file cs :
  forall n m data,
    Fs.walk n cs = Some (Fs.File m false data) ->
    cs <> [] ->
    exists n', Fs.update Fs.unlinkEntry n cs = Some n'.
Proof.
  induction cs as [| c cs IH]; intros n m data Hw Hne; [now destruct Hne |].
  destruct n as [m0 i0 data0 | m0 es]; [discriminate |].
  cbn [Fs.walk] in Hw. destruct (Fs.assoc c es) as [x |] eqn:Ha;
    [| discriminate].
  destruct cs as [| c' cs].
  - cbn [Fs.walk] in Hw. injection Hw as ->.
    simpl. unfold Fs.unlinkEntry. rewrite Ha. eauto.
  - rewrite update_step, Ha.
    destruct (IH x m data Hw) as [x' Hx]; [discriminate |].
    rewrite Hx. eauto.
Qed.

(** ** The layout under [<cwd>/public/shapes] *)

Lemma clean_literal s :
  (s =? "")%string = false -> (s =? ".")%string = false ->
  (s =? "..")%string = false ->
  existsb (Ascii.eqb "/") (Str.chars s) = false ->
  cleanSegment s.
Proof.
  intros H1 H2 H3 H4. apply String.eqb_neq in H1, H2, H3.
  repeat split; auto. intros Hin.
  apply not_true_iff_false in H4. apply H4.
  apply existsb_exists. exists "/"%char. split; [exact Hin | reflexivity].
Qed.

Lemma clean_folder label folder :
  In label validLabels -> getFolderName label = JString folder ->
  cleanSegment folder.
Proof.
  intros [<- | [<- | [<- | []]]] Hf; injection Hf as <-;
    now apply clean_literal.
Qed.

Lemma clean_quality quality :
  In quality validQualities -> cleanSegment quality.
Proof.
  intros [<- | [<- | [<- | []]]]; now apply clean_literal.
Qed.

Lemma of_Z_no_slash now : ~ In "/"%char (Str.chars (Str.of_Z now)).
Proof.
  assert (Huint : forall d, ~ In "/"%char
                              (Str.chars (NilZero.string_of_uint d))).
  { intros d Hin.
    assert (Hd : Str.is_digit "/" = true).
    { destruct d; simpl in Hin;
        try (destruct Hin as [Heq | []]; discriminate Heq);
        pose proof (digits_of_uint d) as Hall;
        rewrite Forall_forall in Hall;
        destruct Hin as [Heq | Hin]; try discriminate Heq;
        exact (Hall _ Hin). }
    discriminate Hd. }
  unfold Str.of_Z. destruct (Z.to_int now) as [d | d]; simpl.
  - apply Huint.
  - intros [Heq | Hin]; [discriminate Heq | exact (Huint d Hin)].
Qed.

Lemma clean_addedFilename now label :
  In label validLabels -> cleanSegment (addedFilename now label).
Proof.
  intros Hl. unfold addedFilename.
  assert (Hno : ~ In "/"%char (Str.chars label)).
  { destruct Hl as [<- | [<- | [<- | []]]]; simpl; intuition discriminate. }
  repeat split.
  - destruct Hl as [<- | [<- | [<- | []]]]; discriminate.
  - destruct Hl as [<- | [<- | [<- | []]]]; discriminate.
  - destruct Hl as [<- | [<- | [<- | []]]]; discriminate.
  - rewrite !chars_app. intros Hin.
    apply in_app_or in Hin. destruct Hin as [Hin | Hin]; [exact (Hno Hin) |].
    apply in_app_or in Hin. destruct Hin as [Hin | Hin].
    { simpl in Hin. destruct Hin as [Heq | []]. discriminate Heq. }
    apply in_app_or in Hin. destruct Hin as [Hin | Hin].
    { exact (of_Z_no_slash now Hin). }
    simpl in Hin. intuition discriminate.
Qed.

Section Layout.

Variable process : Process.
Hypothesis cwd_absolute : Path.isAbsolute (cwd process) = true.

Lemma shapes_clean rest :
  Forall cleanSegment rest ->
  Forall cleanSegment
         (rootSegments (cwd process) ++ "public" :: "shapes" :: rest).
Proof.
  intros Hrest. apply Forall_app. split; [apply rootSegments_proper |].
  constructor; [now apply clean_literal |].
  constructor; [now apply clean_literal | exact Hrest].
Qed.

Lemma shapes_nonempty rest :
  (rootSegments (cwd process) ++ "public" :: "shapes" :: rest)%list <> [].
Proof. destruct (rootSegments (cwd process)); discriminate. Qed.

(** [path.join(process.cwd(), "public", "shapes", ...rest)]. *)
Lemma join_cwd_shapes rest :
  Forall cleanSegment rest ->
  Path.join (cwd process :: "public" :: "shapes" :: rest)
  = shapesPath process rest.
Proof.
  intros Hrest. unfold shapesPath.
  apply join_absolute; [exact cwd_absolute | discriminate |].
  constructor; [now apply clean_literal |].
  constructor; [now apply clean_literal | exact Hrest].
Qed.

(** [path.join(dir, name)] for a directory under [shapes]. *)
Lemma join_shapesPath rest more :
  Forall cleanSegment rest -> more <> [] -> Forall cleanSegment more ->
  Path.join (shapesPath process rest :: more)
  = shapesPath process (rest ++ more).
Proof.
  intros Hrest Hne Hmore. unfold shapesPath.
  rewrite join_absolutePath; [| now apply shapes_clean | exact Hne | exact Hmore].
  now rewrite <- app_assoc.
Qed.

Lemma resolve_shapesPath d rest :
  Forall cleanSegment rest ->
  Fs.resolve d (shapesPath process rest)
  = Fs.walk d (rootSegments (cwd process) ++ "public" :: "shapes" :: rest).
Proof.
  intros Hrest. apply resolve_absolutePath;
    [apply shapes_nonempty | now apply shapes_clean].
Qed.

End Layout.

Lemma substring_all s n :
  (String.length s <= n)%nat -> substring 0 n s = s.
Proof.
  revert n. induction s as [| c s IH]; intros n Hn.
  - now destruct n.
  - destruct n as [| n]; [simpl in Hn; lia |].
    simpl. f_equal. apply IH. simpl in Hn. lia.
Qed.

Lemma substring_tail c s :
  substring 1 (String.length (String c s)) (String c s) = s.
Proof. simpl. apply substring_all. lia. Qed.

(** Lists of proper segments found in the context. *)
Ltac clean_list :=
  repeat (apply Forall_cons; [assumption |]); apply Forall_nil.

Section LayoutPaths.

Variable process : Process.
Hypothesis cwd_absolute : Path.isAbsolute (cwd process) = true.

Lemma cwd_truthy : Str.truthy (cwd process) = true.
Proof.
  destruct (isAbsolute_cons _ cwd_absolute) as [rest ->]. reflexivity.
Qed.

(** A stored path [/shapes/...], made absolute. *)
Lemma storagePath_shapes img rest :
  img.(Data.filePath) = "/" ++ Str.join "/" ("shapes" :: rest) ->
  rest <> [] -> Forall cleanSegment rest ->
  storagePathOnDisk process img = shapesPath process rest.
Proof.
  intros Hpath Hne Hrest. unfold storagePathOnDisk. rewrite Hpath.
  change ("/" ++ Str.join "/" ("shapes" :: rest))
    with (String "/" (Str.join "/" ("shapes" :: rest))).
  rewrite substring_tail.
  replace (Str.startsWith "/" (String "/" (Str.join "/" ("shapes" :: rest))))
    with true by (symmetry; apply isAbsolute_slash).
  rewrite <- (join_cwd_shapes process cwd_absolute rest Hrest).
  unfold Path.join. cbn [filter]. rewrite cwd_truthy.
  assert (Hj : Str.truthy (Str.join "/" ("shapes" :: rest)) = true).
  { destruct rest as [| r rest]; [now destruct Hne | reflexivity]. }
  rewrite Hj. cbn [Str.truthy String.eqb negb].
  rewrite (filter_truthy_clean rest Hrest).
  destruct rest as [| r rest]; [now destruct Hne | reflexivity].
Qed.

Lemma canonicalPath_shapes folder quality file :
  cleanSegment folder -> cleanSegment quality -> cleanSegment file ->
  canonicalPath process folder quality file
  = shapesPath process [folder; quality; file].
Proof.
  intros Hf Hq Hfile. unfold canonicalPath.
  rewrite (join_cwd_shapes process cwd_absolute [folder; quality])
    by clean_list.
  rewrite (join_shapesPath process [folder; quality] [file])
    by (first [discriminate | clean_list]).
  reflexivity.
Qed.

Lemma legacyPath_shapes folder file :
  cleanSegment folder -> cleanSegment file ->
  legacyPath process folder file = shapesPath process [folder; file].
Proof.
  intros Hf Hfile. unfold legacyPath.
  rewrite (join_cwd_shapes process cwd_absolute [folder])
    by clean_list.
  rewrite (join_shapesPath process [folder] [file])
    by (first [discriminate | clean_list]).
  reflexivity.
Qed.

Lemma addedFilePath_shapes now label folder quality :
  In label validLabels -> getFolderName label = JString folder ->
  In quality validQualities ->
  addedFilePath process now label quality
  = shapesPath process [folder; quality; addedFilename now label].
Proof.
  intros Hl Hf Hq. unfold addedFilePath. rewrite Hf. cbn [js_String].
  exact (canonicalPath_shapes folder quality (addedFilename now label)
           (clean_folder label folder Hl Hf) (clean_quality quality Hq)
           (clean_addedFilename now label Hl)).
Qed.

(** The scan's paths: root, label folder, quality subdirectory, file. *)
Lemma scan_paths folder quality file :
  cleanSegment folder -> cleanSegment quality -> cleanSegment file ->
  let publicShapesDir := Path.join [cwd process; "public"; "shapes"] in
  let labelDir := Path.join [publicShapesDir; folder] in
  let qualityDir := Path.join [labelDir; quality] in
  publicShapesDir = shapesPath process []
  /\ labelDir = shapesPath process [folder]
  /\ qualityDir = shapesPath process [folder; quality]
  /\ Path.join [qualityDir; file] = shapesPath process [folder; quality; file]
  /\ Path.join [labelDir; file] = shapesPath process [folder; file].
Proof.
  intros Hf Hq Hfile. cbv zeta.
  rewrite (join_cwd_shapes process cwd_absolute []) by clean_list.
  rewrite (join_shapesPath process [] [folder])
    by (first [discriminate | clean_list]).
  cbn [app].
  rewrite (join_shapesPath process [folder] [quality])
    by (first [discriminate | clean_list]).
  rewrite (join_shapesPath process [folder] [file])
    by (first [discriminate | clean_list]).
  cbn [app].
  rewrite (join_shapesPath process [folder; quality] [file])
    by (first [discriminate | clean_list]).
  repeat split; reflexivity.
Qed.

End LayoutPaths.

(** ** Adding, then deleting *)

Lemma find_last (f : ImageData -> bool) l x :
  (forall y, In y l -> f y = false) -> f x = true ->
  find f (l ++ [x]) = Some x.
Proof.
  intros Hl Hx. induction l as [| y l IH]; simpl.
  - now rewrite Hx.
  - rewrite (Hl y (or_introl eq_refl)). apply IH.
    intros z Hz. apply Hl. now right.
Qed.

Lemma filter_last (f : ImageData -> bool) l x :
  (forall y, In y l -> f y = true) -> f x = false ->
  filter f (l ++ [x]) = l.
Proof.
  intros Hl Hx. rewrite filter_app. simpl. rewrite Hx, app_nil_r.
  now apply filter_all.
Qed.

Lemma addedRecord_path now label folder quality image :
  getFolderName label = JString folder ->
  (addedRecord now label quality image).(Data.filePath)
  = "/" ++ Str.join "/" ["shapes"; folder; quality; addedFilename now label].
Proof. intros Hf. unfold addedRecord. rewrite Hf. reflexivity. Qed.

(** X6. With an absolute working directory, deleting the record that
    [addImage] has just returned (its file name being new in the list for
    that label and quality) returns [true], unlinks the file [addImage]
    wrote and nothing else, and leaves the list as it was before the
    addition. *)
Theorem addImage_then_deleteImage process now label quality image w img w1 :
  Path.isAbsolute (cwd process) = true ->
  (forall r, In r (imageStore w) ->
             ~ named (addedFilename now label) label quality r) ->
  addImage process now label quality image w = (Ok img, w1) ->
  exists w2,
    deleteImage process img.(Data.filename) img.(Data.label)
                img.(Data.quality) w1
    = (Ok true, w2)
    /\ imageStore w2 = imageStore w
    /\ Fs.unlinkSync (disk w1) (addedFilePath process now label quality)
       = Some (disk w2)
    /\ Fs.existsSync (disk w2) (addedFilePath process now label quality)
       = false.
Proof.
  intros Habs Hfresh Hadd.
  destruct (addImage_returns_written_facts process now label quality image
              w img w1 Hadd)
    as (Hl & Hq & -> & Hstore & Hfile).
  destruct (getFolderName_valid Hl) as [folder Hf].
  pose proof (clean_folder label folder Hl Hf) as Cf.
  pose proof (clean_quality quality Hq) as Cq.
  pose proof (clean_addedFilename now label Hl) as Cn.
  set (file := addedFilename now label) in *.
  set (img := addedRecord now label quality image) in *.
  assert (Hpath : addedFilePath process now label quality
                  = shapesPath process [folder; quality; file])
    by exact (addedFilePath_shapes process Habs now label folder quality
                Hl Hf Hq).
  rewrite Hpath in *.
  assert (Hwalk : Fs.walk (disk w1)
                    (rootSegments (cwd process)
                     ++ ["public"; "shapes"; folder; quality; file])
                  = Some (Fs.File now false (Str.strip_data_url image))).
  { rewrite <- Hfile. symmetry. apply resolve_shapesPath. clean_list. }
  assert (Hunlink : exists d2,
             Fs.unlinkSync (disk w1) (shapesPath process [folder; quality; file])
             = Some d2).
  { unfold Fs.unlinkSync, shapesPath.
    rewrite hasTrailingSlash_absolutePath, components_absolutePath;
      try (apply shapes_clean; clean_list); try apply shapes_nonempty.
    apply (update_unlink_file _ _ _ _ Hwalk). apply shapes_nonempty. }
  destruct Hunlink as [d2 Hd2].
  assert (Hnamed : sameImage file label (Str.or_default quality "perfect") img
                   = true).
  { apply sameImage_named. unfold named, img, addedRecord. now repeat split. }
  assert (Hothers : forall r, In r (imageStore w) ->
                      sameImage file label (Str.or_default quality "perfect") r
                      = false).
  { intros r Hr. apply sameImage_not_named. now apply Hfresh. }
  exists {| disk := d2; imageStore := imageStore w |}.
  rewrite deleteImage_run.
  change (Data.filename img) with file. change (Data.label img) with label.
  change (Data.quality img) with quality.
  rewrite Hf. cbv zeta. rewrite Hstore.
  rewrite (find_last _ _ _ Hothers Hnamed).
  rewrite (filter_last _ (imageStore w) img)
    by (try (intros r Hr; rewrite (Hothers r Hr); reflexivity);
        rewrite Hnamed; reflexivity).
  unfold candidates.
  replace (Str.truthy (Data.filePath img)) with true
    by (unfold img;
        rewrite (addedRecord_path now label folder quality image Hf);
        reflexivity).
  rewrite (storagePath_shapes process Habs img [folder; quality; file])
    by (first [ exact (addedRecord_path now label folder quality image Hf)
              | discriminate | clean_list ]).
  assert (Hrem : removable (disk w1)
                   (shapesPath process [folder; quality; file]) = true).
  { unfold removable, Fs.existsSync. rewrite Hfile, Hd2. reflexivity. }
  unfold unlinkFirst. cbn [app find]. rewrite Hrem, Hd2. cbn [isSome orb].
  split; [reflexivity |]. split; [reflexivity |]. split; [reflexivity |].
  exact (proj2 (@unlinkSync_removes _ _ _ Hd2)).
Qed.

Lemma addImage_then_deleteImage_witness :
  exists img w1 w2,
    addImage Examples.proc 1000 "circle" "perfect" "AA=="
             (Examples.loaded Examples.populated) = (Ok img, w1)
    /\ deleteImage Examples.proc img.(Data.filename) img.(Data.label)
                   img.(Data.quality) w1 = (Ok true, w2)
    /\ imageStore w2 = imageStore (Examples.loaded Examples.populated).
Proof.
  destruct (addImage Examples.proc 1000 "circle" "perfect" "AA=="
              (Examples.loaded Examples.populated))
    as [[img | e] w1] eqn:Hadd; [| vm_compute in Hadd; discriminate].
  destruct (addImage_then_deleteImage Examples.proc 1000 "circle" "perfect"
              "AA==" (Examples.loaded Examples.populated) img w1)
    as (w2 & Hdel & Hstore & _).
  - reflexivity.
  - intros r Hin (Hname & _). vm_compute in Hin.
    destruct Hin as [<- | [<- | [<- | []]]]; vm_compute in Hname;
      discriminate Hname.
  - exact Hadd.
  - exists img, w1, w2. split; [reflexivity |]. split; assumption.
Defined.

(** ** Adding, then restarting *)

Lemma valid_label_plain label :
  In label validLabels ->
  label <> ""
  /\ forall c, In c (Str.chars label) -> Str.is_line_terminator c = false.
Proof.
  intros [<- | [<- | [<- | []]]]; (split; [discriminate |]);
    intros c Hin; simpl in Hin;
    repeat (destruct Hin as [<- | Hin]; [reflexivity |]); destruct Hin.
Qed.

Lemma scanned_fields process w0 r :
  scanned process w0 r ->
  r.(Data.image) = ""
  /\ forall t,
       Str.match_timestamp r.(Data.filename) = Some t ->
       r.(Data.timestamp) = t.
Proof.
  intros Hs.
  destruct Hs; cbn [Data.image Data.timestamp Data.filename];
    (split; [reflexivity |]); intros t Ht; now rewrite Ht.
Qed.

Lemma NoDup_map_same (l : list ImageData) a b :
  NoDup (map triple l) -> In a l -> In b l -> triple a = triple b -> a = b.
Proof.
  induction l as [| x l IH]; intros Hnd Ha Hb Hab; [destruct Ha |].
  inversion Hnd as [| ? ? Hnot Hrest]; subst.
  destruct Ha as [<- | Ha]; destruct Hb as [<- | Hb]; auto.
  - destruct Hnot. rewrite Hab. now apply in_map.
  - destruct Hnot. rewrite <- Hab. now apply in_map.
Qed.

(** X7. With an absolute working directory and a clock reading that is
    not negative: when the module is loaded again on the disk [addImage]
    left, and the scan completes, the list holds exactly one record with
    the file name, label and quality of the record [addImage] returned;
    it has the same timestamp and an empty payload. *)
Theorem addImage_then_restart process now label quality image w img w1 :
  Path.isAbsolute (cwd process) = true ->
  0 <= now ->
  addImage process now label quality image w = (Ok img, w1) ->
  fst (loadImagesFromFilesystem_body process (set_store [] w1)) = Ok tt ->
  exists r,
    In r (imageStore (snd (moduleInit process w1)))
    /\ r.(Data.filename) = img.(Data.filename)
    /\ r.(Data.label) = img.(Data.label)
    /\ r.(Data.quality) = img.(Data.quality)
    /\ r.(Data.timestamp) = img.(Data.timestamp)
    /\ r.(Data.image) = ""
    /\ forall r',
        In r' (imageStore (snd (moduleInit process w1))) ->
        r'.(Data.filename) = img.(Data.filename) ->
        r'.(Data.label) = img.(Data.label) ->
        r'.(Data.quality) = img.(Data.quality) ->
        r' = r.
Proof.
  intros Habs Hnow Hadd Hok.
  destruct (addImage_returns_written_facts process now label quality image
              w img w1 Hadd)
    as (Hl & Hq & -> & _ & Hfile).
  destruct (getFolderName_valid Hl) as [folder Hf].
  pose proof (clean_folder label folder Hl Hf) as Cf.
  pose proof (clean_quality quality Hq) as Cq.
  pose proof (clean_addedFilename now label Hl) as Cn.
  set (file := addedFilename now label) in *.
  rewrite (addedFilePath_shapes process Habs now label folder quality Hl Hf Hq)
    in Hfile.
  fold file in Hfile.
  rewrite resolve_shapesPath in Hfile by clean_list.
  destruct (scan_paths process Habs folder quality file Cf Cq Cn)
    as (Proot & Plabel & Pquality & Pfile & _).
  set (w0 := set_store [] w1) in *.
  set (d := disk w1) in *.
  rewrite moduleInit_eq. fold w0.
  set (w' := snd (loadImagesFromFilesystem process w0)).
  assert (Hrun : loadImagesFromFilesystem_body process w0 = (Ok tt, w')).
  { unfold w'. rewrite scan_world.
    destruct (loadImagesFromFilesystem_body process w0) as [res w2].
    simpl in *. now subst res. }
  (* the directories on the way to the file *)
  assert (Hroot : Fs.existsSync (disk w0)
                    (Path.join [cwd process; "public"; "shapes"]) = true).
  { rewrite Proot. unfold Fs.existsSync.
    rewrite resolve_shapesPath by clean_list.
    destruct (walk_prefix_dir d
                (rootSegments (cwd process) ++ ["public"; "shapes"])
                folder [quality; file]
                (Fs.File now false (Str.strip_data_url image)))
      as (m & es & Hw).
    { rewrite <- app_assoc. exact Hfile. }
    change (disk w0) with d. now rewrite Hw. }
  assert (Hflat : exists flat,
             Fs.readdirSync (disk w0)
               (Path.join [Path.join [cwd process; "public"; "shapes"]; folder])
             = Some flat).
  { rewrite Plabel. unfold Fs.readdirSync.
    rewrite resolve_shapesPath by clean_list.
    destruct (walk_prefix_dir d
                (rootSegments (cwd process) ++ ["public"; "shapes"; folder])
                quality [file]
                (Fs.File now false (Str.strip_data_url image)))
      as (m & es & Hw).
    { rewrite <- app_assoc. exact Hfile. }
    change (disk w0) with d. rewrite Hw. eauto. }
  destruct Hflat as [flat Hflat].
  assert (Hnames : exists names,
             Fs.readdirSync (disk w0)
               (Path.join
                  [Path.join [Path.join [cwd process; "public"; "shapes"];
                              folder]; quality])
             = Some names
             /\ In file names).
  { rewrite Pquality. unfold Fs.readdirSync.
    rewrite resolve_shapesPath by clean_list.
    destruct (walk_parent_lists d
                (rootSegments (cwd process)
                 ++ ["public"; "shapes"; folder; quality])
                file (Fs.File now false (Str.strip_data_url image)))
      as (m & es & Hw & Hin).
    { rewrite <- app_assoc. exact Hfile. }
    change (disk w0) with d. rewrite Hw. eauto. }
  destruct Hnames as (names & Hnames & Hin).
  (* the record of the file *)
  destruct (@loadImagesFromFilesystem_body_complete process w0 w' Hrun Hroot
              label Hl folder flat Hf Hflat) as [Hrecorded _].
  pose proof (Hrecorded quality names file Hq Hnames Hin
                (addedFilename_has_image_ext now label)) as Hhas.
  apply hasRecord_In in Hhas. destruct Hhas as (r & Hr & Hname & Hlabel & Hquality).
  destruct (scan_appends_scanned process w0) as (appended & Happ & Hall).
  fold w' in Happ. change (imageStore w0) with (@nil ImageData) in Happ.
  cbn [app] in Happ.
  assert (Hscanned : exists w2, scanned process w2 r).
  { rewrite Forall_forall in Hall. rewrite Happ in Hr.
    destruct (Hall r Hr) as (w2 & _ & Hs). now exists w2. }
  destruct Hscanned as [w2 Hs].
  destruct (valid_label_plain label Hl) as [Hne Hline].
  pose proof (addedFilename_match_timestamp now label Hnow Hne Hline)
    as Hstamp.
  fold file in Hstamp.
  exists r. split; [exact Hr |].
  split; [exact Hname |]. split; [exact Hlabel |]. split; [exact Hquality |].
  destruct (scanned_fields process w2 r Hs) as [Himage Htime].
  split; [apply Htime; now rewrite Hname |].
  split; [exact Himage |].
  intros r' Hr' Hn' Hl' Hq'.
  assert (Hunique : uniqueTriples (imageStore w')).
  { apply scan_distinct; constructor. }
  apply (NoDup_map_same (imageStore w') r' r Hunique Hr' Hr).
  unfold triple. cbn [Data.filename Data.label Data.quality addedRecord] in *.
  now rewrite Hn', Hl', Hq', Hname, Hlabel, Hquality.
Qed.

Lemma addImage_then_restart_witness :
  exists img w1 r,
    addImage Examples.proc 1000 "circle" "perfect" "AA=="
             (Examples.loaded Examples.bare) = (Ok img, w1)
    /\ In r (imageStore (snd (moduleInit Examples.proc w1)))
    /\ r.(Data.filename) = "circle_1000.png"
    /\ r.(Data.timestamp) = 1000.
Proof.
  destruct (addImage Examples.proc 1000 "circle" "perfect" "AA=="
              (Examples.loaded Examples.bare))
    as [[img | e] w1] eqn:Hadd; [| vm_compute in Hadd; discriminate].
  destruct (addImage_then_restart Examples.proc 1000 "circle" "perfect"
              "AA==" (Examples.loaded Examples.bare) img w1)
    as (r & Hin & Hname & _ & _ & Htime & _).
  - reflexivity.
  - lia.
  - exact Hadd.
  - vm_compute in Hadd. injection Hadd as _ <-. vm_compute. reflexivity.
  - exists img, w1, r. split; [reflexivity |]. split; [exact Hin |].
    vm_compute in Hadd. injection Hadd as <- _.
    split; [exact Hname | exact Htime].
Defined.

(** ** More on [deleteImage], [addImage] and [getAllImages] *)

Lemma deleteImage_false_world process filename label quality w w' :
  deleteImage process filename label quality w = (Ok false, w') -> w' = w.
Proof.
  rewrite deleteImage_run.
  destruct (getFolderName label) as [folder | inherited];
    [| now intros [= <-]].
  cbv zeta. intros H. injection H as Hres <-.
  apply orb_false_iff in Hres. destruct Hres as [Hfile Hlist].
  unfold unlinkFirst.
  destruct (find (removable (disk w)) _); [discriminate Hfile |].
  rewrite filter_all; [now destruct w |].
  intros img Hin.
  destruct (negb (sameImage filename label (Str.or_default quality "perfect")
                            img)) eqn:E; [reflexivity |].
  apply Nat.ltb_ge in Hlist. exfalso.
  assert (Hlt : (List.length
                   (filter (fun img0 =>
                              negb (sameImage filename label
                                      (Str.or_default quality "perfect") img0))
                           (imageStore w))
                 < List.length (imageStore w))%nat).
  { apply filter_shorter. now exists img. }
  lia.
Qed.


(** X8. When [deleteImage] returns [false] it has changed nothing:
    neither the disk nor the list. *)
Theorem deleteImage_false_unchanged process filename label quality w w' :
  deleteImage process filename label quality w = (Ok false, w') -> w' = w.
Proof. exact (deleteImage_false_world process filename label quality w w'). Qed.

Lemma deleteImage_false_unchanged_witness :
  snd (deleteImage Examples.proc "a.png" "circle" ""
                   (Examples.start Examples.onePerfect))
  = Examples.start Examples.onePerfect.
Proof.
  destruct (deleteImage Examples.proc "a.png" "circle" ""
              (Examples.start Examples.onePerfect)) as [res w'] eqn:Hrun.
  apply (deleteImage_false_unchanged Examples.proc "a.png" "circle" "").
  rewrite Hrun. vm_compute in Hrun. injection Hrun as <- _. reflexivity.
Defined.

(** X9. Two [addImage] calls with the same label, quality and clock
    reading that both return leave two records with the same file name,
    label, quality and stored path, and one file: it holds the payload of
    the second call, that of the first being overwritten. *)
Theorem addImage_twice_same_reading process now label quality
        image1 image2 w img1 w1 img2 w2 :
  addImage process now label quality image1 w = (Ok img1, w1) ->
  addImage process now label quality image2 w1 = (Ok img2, w2) ->
  imageStore w2 = (imageStore w ++ [img1; img2])%list
  /\ triple img1 = triple img2
  /\ img1.(Data.filePath) = img2.(Data.filePath)
  /\ Fs.resolve (disk w1) (addedFilePath process now label quality)
     = Some (Fs.File now false (Str.strip_data_url image1))
  /\ Fs.resolve (disk w2) (addedFilePath process now label quality)
     = Some (Fs.File now false (Str.strip_data_url image2)).
Proof.
  intros H1 H2.
  destruct (addImage_returns_written_facts _ _ _ _ _ _ _ _ H1)
    as (_ & _ & -> & Hs1 & Hf1).
  destruct (addImage_returns_written_facts _ _ _ _ _ _ _ _ H2)
    as (_ & _ & -> & Hs2 & Hf2).
  rewrite Hs2, Hs1, <- app_assoc. repeat split; assumption.
Qed.

Lemma addImage_twice_same_reading_witness :
  exists img1 w1 img2 w2,
    addImage Examples.proc 1000 "circle" "perfect" "AAAA"
             (Examples.loaded Examples.bare) = (Ok img1, w1)
    /\ addImage Examples.proc 1000 "circle" "perfect" "BBBB" w1 = (Ok img2, w2)
    /\ imageStore w2 = [img1; img2]
    /\ Fs.resolve (disk w2)
                  "/app/public/shapes/circles/perfect/circle_1000.png"
       = Some (Fs.File 1000 false "BBBB").
Proof.
  destruct (addImage Examples.proc 1000 "circle" "perfect" "AAAA"
              (Examples.loaded Examples.bare))
    as [[img1 | e] w1] eqn:H1; [| vm_compute in H1; discriminate].
  destruct (addImage Examples.proc 1000 "circle" "perfect" "BBBB" w1)
    as [[img2 | e] w2] eqn:H2;
    [| vm_compute in H1; injection H1 as _ <-; vm_compute in H2; discriminate].
  destruct (addImage_twice_same_reading _ _ _ _ _ _ _ _ _ _ _ H1 H2)
    as (Hstore & _ & _ & _ & Hfile).
  exists img1, w1, img2, w2. repeat split; assumption.
Defined.

Lemma sort_snoc_newest l x :
  Forall (fun y => older y x) l ->
  sort byTimestampDesc (l ++ [x]) = x :: sort byTimestampDesc l.
Proof.
  intros Hall. unfold sort. rewrite fold_right_app. simpl.
  induction Hall as [| y l Hy _ IH]; simpl; [reflexivity |].
  rewrite IH. simpl. unfold byTimestampDesc at 1. unfold older in Hy.
  destruct (Z.leb_spec (x.(Data.timestamp) - y.(Data.timestamp)) 0);
    [lia | reflexivity].
Qed.

(** X10. After an [addImage] whose clock reading is above the timestamp
    of every record of the list, [getAllImages] returns the new record
    first, followed by what it returned before. *)
Theorem getAllImages_newest_first process now label quality image w img w' :
  (forall r, In r (imageStore w) -> r.(Data.timestamp) < now) ->
  addImage process now label quality image w = (Ok img, w') ->
  exists before,
    getAllImages w = (Ok before, w)
    /\ getAllImages w' = (Ok (img :: before), w').
Proof.
  intros Hnew Hadd.
  destruct (addImage_returns_written_facts _ _ _ _ _ _ _ _ Hadd)
    as (_ & _ & Himg & Hstore & _).
  exists (sort byTimestampDesc (imageStore w)). split; [reflexivity |].
  unfold getAllImages, bind, getStore, ret. rewrite Hstore.
  rewrite sort_snoc_newest; [reflexivity |].
  apply Forall_forall. intros r Hr. unfold older.
  rewrite Himg. cbn [Data.timestamp addedRecord]. now apply Hnew.
Qed.

Lemma getAllImages_newest_first_witness :
  exists img w' rest,
    addImage Examples.proc 1000 "square" "medium" "AA=="
             (Examples.loaded Examples.populated) = (Ok img, w')
    /\ getAllImages w' = (Ok (img :: rest), w').
Proof.
  destruct (addImage Examples.proc 1000 "square" "medium" "AA=="
              (Examples.loaded Examples.populated))
    as [[img | e] w'] eqn:Hadd; [| vm_compute in Hadd; discriminate].
  destruct (getAllImages_newest_first Examples.proc 1000 "square" "medium"
              "AA==" (Examples.loaded Examples.populated) img w')
    as (before & _ & Hafter).
  - intros r Hin. vm_compute in Hin.
    destruct Hin as [<- | [<- | [<- | []]]]; reflexivity.
  - exact Hadd.
  - exists img, w', before. split; [reflexivity | exact Hafter].
Defined.

(** ** Scanning, then deleting *)

Lemma named_triple filename label quality r x :
  named filename label quality r ->
  (named filename label quality x <-> triple x = triple r).
Proof.
  unfold named, triple. intros (Hf & Hl & Hq). split.
  - intros (Hf' & Hl' & Hq'). congruence.
  - intros [= Hf' Hl' Hq']. repeat split; congruence.
Qed.

Lemma find_unique filename label quality store r :
  uniqueTriples store -> In r store ->
  named filename label quality r ->
  find (sameImage filename label (Str.or_default quality "perfect")) store
  = Some r.
Proof.
  intros Hu Hin Hr.
  destruct (find (sameImage filename label (Str.or_default quality "perfect"))
                 store) as [x |] eqn:E.
  - apply find_some in E. destruct E as [Hx Hsame].
    apply sameImage_named in Hsame.
    f_equal. apply (NoDup_map_same store x r Hu Hx Hin).
    now apply (named_triple filename label quality r x Hr).
  - apply (find_none _ _ E) in Hin.
    apply sameImage_not_named in Hin. now destruct Hin.
Qed.

Lemma scanned_path process w r :
  scanned process w r ->
  exists folder rest,
    getFolderName r.(Data.label) = JString folder
    /\ cleanSegment folder
    /\ Forall cleanSegment rest
    /\ r.(Data.filePath)
       = "/" ++ Str.join "/" ("shapes" :: folder :: rest ++ [r.(Data.filename)]).
Proof.
  intros Hs. destruct Hs as [label folder quality names file stats Hl Hf Hq
                            | label folder names file stats Hl Hf];
    exists folder.
  - exists [quality]. cbn [Data.label Data.filePath Data.filename].
    split; [exact Hf |]. split; [exact (clean_folder label folder Hl Hf) |].
    split; [| reflexivity].
    apply Forall_cons; [exact (clean_quality quality Hq) | apply Forall_nil].
  - exists []. cbn [Data.label Data.filePath Data.filename].
    split; [exact Hf |]. split; [exact (clean_folder label folder Hl Hf) |].
    split; [apply Forall_nil | reflexivity].
Qed.

(** X11. A record the scan has appended, whose file is a regular file
    that can be unlinked, is deleted together with that file: in the
    quality layout and in the legacy flat layout alike, [deleteImage]
    called with the record's fields returns [true], unlinks the file at
    the record's stored path, and takes exactly that record off the
    list. *)
Theorem scan_then_deleteImage process w r m data :
  Path.isAbsolute (cwd process) = true ->
  validStore (imageStore w) -> uniqueTriples (imageStore w) ->
  let w1 := snd (loadImagesFromFilesystem process w) in
  In r (imageStore w1) -> ~ In r (imageStore w) ->
  cleanSegment r.(Data.filename) ->
  Fs.resolve (disk w) (storagePathOnDisk process r)
  = Some (Fs.File m false data) ->
  exists w2,
    deleteImage process r.(Data.filename) r.(Data.label) r.(Data.quality) w1
    = (Ok true, w2)
    /\ Fs.unlinkSync (disk w) (storagePathOnDisk process r) = Some (disk w2)
    /\ Fs.existsSync (disk w2) (storagePathOnDisk process r) = false
    /\ forall x, In x (imageStore w2) <-> In x (imageStore w1) /\ x <> r.
Proof.
  intros Habs Hv Hu w1 Hin Hnew Cfile Hfile.
  assert (Hd : disk w1 = disk w) by exact (proj1 (scan_extends process w)).
  assert (Hu1 : uniqueTriples (imageStore w1))
    by exact (@scan_distinct process w Hv Hu).
  destruct (scan_appends_scanned process w) as (appended & Happ & Hall).
  fold w1 in Happ.
  assert (Hs : exists w0, disk w0 = disk w /\ scanned process w0 r).
  { rewrite Forall_forall in Hall. apply Hall.
    rewrite Happ in Hin. apply in_app_or in Hin.
    destruct Hin as [Hin | Hin]; [now destruct Hnew | exact Hin]. }
  destruct Hs as (w0 & _ & Hs).
  destruct (scanned_path process w0 r Hs)
    as (folder & rest & Hf & Cf & Crest & Hpath).
  set (segs := (folder :: rest ++ [Data.filename r])%list) in *.
  assert (Csegs : Forall cleanSegment segs).
  { apply Forall_cons; [exact Cf |]. apply Forall_app. split; [exact Crest |].
    apply Forall_cons; [exact Cfile | apply Forall_nil]. }
  assert (Hsp : storagePathOnDisk process r = shapesPath process segs).
  { apply (storagePath_shapes process Habs r segs Hpath);
      [discriminate | exact Csegs]. }
  rewrite Hsp in *.
  assert (Hwalk : Fs.walk (disk w)
                    (rootSegments (cwd process)
                     ++ "public" :: "shapes" :: segs)
                  = Some (Fs.File m false data)).
  { rewrite <- Hfile. symmetry. now apply resolve_shapesPath. }
  assert (Hunlink : exists d2,
             Fs.unlinkSync (disk w) (shapesPath process segs) = Some d2).
  { unfold Fs.unlinkSync, shapesPath.
    rewrite hasTrailingSlash_absolutePath, components_absolutePath;
      try (now apply shapes_clean); try apply shapes_nonempty.
    apply (update_unlink_file _ _ _ _ Hwalk). apply shapes_nonempty. }
  destruct Hunlink as [d2 Hd2].
  assert (Hr : named (Data.filename r) (Data.label r) (Data.quality r) r)
    by (unfold named; now repeat split).
  exists {| disk := d2;
            imageStore :=
              filter (fun img =>
                        negb (sameImage (Data.filename r) (Data.label r)
                                (Str.or_default (Data.quality r) "perfect")
                                img))
                     (imageStore w1) |}.
  rewrite deleteImage_run, Hf. cbv zeta.
  rewrite (find_unique _ _ _ _ r Hu1 Hin Hr).
  unfold candidates.
  replace (Str.truthy (Data.filePath r)) with true
    by (rewrite Hpath; reflexivity).
  rewrite Hsp, Hd.
  assert (Hrem : removable (disk w) (shapesPath process segs) = true).
  { unfold removable, Fs.existsSync. rewrite Hfile, Hd2. reflexivity. }
  unfold unlinkFirst. cbn [app find]. rewrite Hrem, Hd2. cbn [isSome orb].
  split; [reflexivity |]. split; [reflexivity |].
  split; [exact (proj2 (@unlinkSync_removes _ _ _ Hd2)) |].
  intros x. cbn [imageStore]. rewrite filter_In.
  rewrite negb_true_iff, sameImage_not_named.
  rewrite (named_triple _ _ _ r x Hr). split.
  - intros [Hx Hne]. split; [exact Hx |]. intros ->. now apply Hne.
  - intros [Hx Hne]. split; [exact Hx |]. intros Ht. apply Hne.
    exact (NoDup_map_same (imageStore w1) x r Hu1 Hx Hin Ht).
Qed.

Lemma scan_then_deleteImage_witness :
  exists w2,
    deleteImage Examples.proc "b_5.JPG" "circle" "perfect"
                (snd (loadImagesFromFilesystem Examples.proc
                        (Examples.start Examples.populated)))
    = (Ok true, w2)
    /\ Fs.unlinkSync Examples.populated "/app/public/shapes/circles/b_5.JPG"
       = Some (disk w2).
Proof.
  destruct (scan_then_deleteImage Examples.proc
              (Examples.start Examples.populated) flatB5 8 "iVBORw0KGgo=")
    as (w2 & Hdel & Hunlink & _).
  - reflexivity.
  - apply Forall_nil.
  - apply NoDup_nil.
  - vm_compute. tauto.
  - intros [].
  - now apply clean_literal.
  - reflexivity.
  - exists w2. split; [exact Hdel | exact Hunlink].
Defined.

(** ** The HTTP handlers *)

(** X12. [POST /api/submit] always answers, with status 200, 400 or 500.
    With 200 exactly one record has been appended to the list, the answer
    carries its fields, and the file it names holds the payload; the
    quality is [perfect] when the body gives none.  With any other status
    the list is as before, and with 400 the disk as well. *)
Theorem POST_answers process now request w :
  exists response w',
    Submit.POST process now request w = (Ok response, w')
    /\ (status response = 200 \/ status response = 400
        \/ status response = 500)
    /\ (status response = 200 ->
        exists b,
          request = Json b
          /\ let label := field (Submit.label b) in
             let quality := field_or (Submit.quality b) "perfect" in
             let image := field (Submit.image b) in
             payload_of response
             = Submit.Success (addedFilename now label)
                 (addedRecord now label quality image).(Data.filePath)
                 label quality now
             /\ imageStore w'
                = (imageStore w ++ [addedRecord now label quality image])%list
             /\ Fs.resolve (disk w') (addedFilePath process now label quality)
                = Some (Fs.File now false (Str.strip_data_url image)))
    /\ (status response <> 200 -> imageStore w' = imageStore w)
    /\ (status response = 400 -> w' = w).
Proof.
  unfold Submit.POST, try_catch, bind, request_json.
  destruct request as [b | e]; cbn [throw ret].
  2:{ eexists _, _. split; [reflexivity |]. cbn [status NextResponse_json].
      split; [tauto |]. split; [discriminate |]. split; [reflexivity |].
      discriminate. }
  destruct (missing (Submit.image b) || missing (Submit.label b)).
  { eexists _, _. split; [reflexivity |]. cbn [status NextResponse_json].
    split; [tauto |]. split; [discriminate |]. split; reflexivity. }
  destruct (addImage process now (field (Submit.label b))
              (field_or (Submit.quality b) "perfect")
              (field (Submit.image b)) w) as [[img | e] w1] eqn:Hadd.
  - destruct (addImage_returns_written_facts _ _ _ _ _ _ _ _ Hadd)
      as (_ & _ & -> & Hstore & Hfile).
    eexists _, _. split; [reflexivity |]. cbn [status NextResponse_json].
    split; [tauto |]. split; [| split; [congruence | discriminate]].
    intros _. exists b. split; [reflexivity |]. cbv zeta.
    split; [reflexivity |]. split; [exact Hstore | exact Hfile].
  - pose proof (addImage_store process now (field (Submit.label b))
                  (field_or (Submit.quality b) "perfect")
                  (field (Submit.image b)) w) as Hs.
    rewrite Hadd in Hs.
    eexists _, _. split; [reflexivity |]. cbn [status NextResponse_json].
    split; [tauto |]. split; [discriminate |]. split; [intros _; exact Hs |].
    discriminate.
Qed.

Lemma POST_answers_witness :
  exists response w',
    Submit.POST Examples.proc 1000
      (Json {| Submit.image := Some "data:image/png;base64,AA==";
               Submit.label := Some "circle";
               Submit.quality := None |})
      (Examples.loaded Examples.bare)
    = (Ok response, w')
    /\ Fs.resolve (disk w')
                  "/app/public/shapes/circles/perfect/circle_1000.png"
       = Some (Fs.File 1000 false "AA==").
Proof.
  destruct (POST_answers Examples.proc 1000
              (Json {| Submit.image := Some "data:image/png;base64,AA==";
                       Submit.label := Some "circle";
                       Submit.quality := None |})
              (Examples.loaded Examples.bare))
    as (response & w' & Hrun & _ & Hsaved & _).
  exists response, w'. split; [exact Hrun |].
  destruct Hsaved as (b & Hb & _ & _ & Hfile).
  - vm_compute in Hrun. injection Hrun as <- _. reflexivity.
  - injection Hb as <-. exact Hfile.
Defined.

(** X13. A submission whose label is not a valid label, or whose quality
    is not a valid quality, is answered with status 500, not 400: the
    answer carries the validation error of [addImage], and nothing is
    changed. *)
Theorem POST_invalid_is_500 process now b w :
  missing (Submit.image b) = false -> missing (Submit.label b) = false ->
  ~ In (field (Submit.label b)) validLabels
  \/ ~ In (field_or (Submit.quality b) "perfect") validQualities ->
  exists message,
    Submit.POST process now (Json b) w
    = (Ok (NextResponse_json
             (Submit.Failure "Failed to save image" (Some (Error message)))
             500), w).
Proof.
  intros Hi Hl Hbad.
  unfold Submit.POST, try_catch, bind, request_json. cbn [ret].
  rewrite Hi, Hl. cbn [orb]. unfold addImage.
  destruct (Str.includes (field (Submit.label b)) validLabels) eqn:El;
    cbn [negb]; [| eexists; reflexivity].
  destruct (Str.includes (field_or (Submit.quality b) "perfect")
                         validQualities) eqn:Eq;
    cbn [negb]; [| eexists; reflexivity].
  apply includes_In in El, Eq. tauto.
Qed.

Lemma POST_invalid_is_500_witness :
  exists message,
    Submit.POST Examples.proc 1000
      (Json {| Submit.image := Some "AA=="; Submit.label := Some "hexagon";
               Submit.quality := Some "perfect" |})
      (Examples.loaded Examples.populated)
    = (Ok (NextResponse_json
             (Submit.Failure "Failed to save image" (Some (Error message)))
             500), Examples.loaded Examples.populated).
Proof.
  apply (POST_invalid_is_500 Examples.proc 1000
           {| Submit.image := Some "AA=="; Submit.label := Some "hexagon";
              Submit.quality := Some "perfect" |}).
  - reflexivity.
  - reflexivity.
  - left. cbn. intuition discriminate.
Defined.



(** ** The gallery page *)

Lemma insertSorted_front x l :
  Forall (fun z => notOlder x z) l ->
  insertSorted byTimestampDesc x l = x :: l.
Proof.
  intros Hall. destruct Hall as [| z l Hz _]; [reflexivity |].
  cbn [insertSorted]. unfold byTimestampDesc, notOlder in *.
  destruct (Z.leb_spec (z.(Data.timestamp) - x.(Data.timestamp)) 0);
    [reflexivity | lia].
Qed.

Lemma insertSorted_filter (p : ImageData -> bool) x l :
  StronglySorted notOlder l ->
  filter p (insertSorted byTimestampDesc x l)
  = if p x then insertSorted byTimestampDesc x (filter p l) else filter p l.
Proof.
  induction l as [| y l IH]; intros Hs.
  - cbn [insertSorted filter]. now destruct (p x).
  - apply StronglySorted_inv in Hs. destruct Hs as [Hl Hy].
    cbn [insertSorted].
    destruct (Z.leb_spec (byTimestampDesc x y) 0) as [Hle | Hgt].
    + change (filter p (x :: y :: l))
        with (if p x then x :: filter p (y :: l) else filter p (y :: l)).
      destruct (p x); [| reflexivity].
      symmetry. apply insertSorted_front.
      apply Forall_forall. intros z Hz. apply filter_In in Hz.
      destruct Hz as [Hz _]. unfold byTimestampDesc in Hle.
      unfold notOlder in *. destruct Hz as [<- | Hz]; [lia |].
      rewrite Forall_forall in Hy. specialize (Hy z Hz). lia.
    + cbn [filter]. rewrite (IH Hl).
      destruct (p y) eqn:Ey, (p x) eqn:Ex; try reflexivity.
      cbn [insertSorted].
      destruct (Z.leb_spec (byTimestampDesc x y) 0); [lia | reflexivity].
Qed.

Lemma sort_filter (p : ImageData -> bool) l :
  sort byTimestampDesc (filter p l) = filter p (sort byTimestampDesc l).
Proof.
  induction l as [| x l IH]; [reflexivity |].
  change (sort byTimestampDesc (x :: l))
    with (insertSorted byTimestampDesc x (sort byTimestampDesc l)).
  rewrite (insertSorted_filter p x _ (sort_sorted l)).
  cbn [filter]. destruct (p x); [| exact IH].
  change (sort byTimestampDesc (x :: filter p l))
    with (insertSorted byTimestampDesc x (sort byTimestampDesc (filter p l))).
  now rewrite IH.
Qed.

Lemma filter_received (p : GalleryPage.ShapeImage -> bool) l :
  filter p (map GalleryPage.received l)
  = map GalleryPage.received
        (filter (fun r => p (GalleryPage.received r)) l).
Proof.
  induction l as [| r l IH]; [reflexivity |].
  cbn [map filter]. rewrite IH. now destruct (p (GalleryPage.received r)).
Qed.

Lemma filter_ext_all (p q : ImageData -> bool) l :
  (forall x, p x = q x) -> filter p l = filter q l.
Proof. intros H. apply filter_ext. exact H. Qed.

Lemma or_default_twice q d :
  d <> "" -> Str.or_default (Str.or_default q d) d = Str.or_default q d.
Proof.
  intros Hd. unfold Str.or_default.
  destruct (q =? "")%string eqn:E; [| now rewrite E].
  apply String.eqb_neq in Hd. now rewrite Hd.
Qed.

Lemma fetchImages_run stale w :
  GalleryPage.fetchImages stale w
  = (Ok (map GalleryPage.received (sort byTimestampDesc (imageStore w))), w).
Proof. reflexivity. Qed.

(** X15. The gallery page stays in step with the server. When the page
    shows what [GET /api/gallery] returned, and the records of the server
    have valid labels, then after [handleDelete] on one of the images
    shown the page shows exactly what a new [fetchImages] would show:
    the local filter removes the records the server has removed. *)
Theorem handleDelete_in_step process confirmed image images stale w :
  validStore (imageStore w) ->
  GalleryPage.fetchImages stale w = (Ok images, w) ->
  In image images ->
  exists images' w',
    GalleryPage.handleDelete process confirmed image images w
    = (Ok images', w')
    /\ forall stale',
        GalleryPage.fetchImages stale' w' = (Ok images', w').
Proof.
  intros Hv Hfetch Hin. rewrite fetchImages_run in Hfetch.
  injection Hfetch as <-.
  unfold GalleryPage.handleDelete.
  destruct confirmed; cbn [negb];
    [| exists (map GalleryPage.received
                   (sort byTimestampDesc (imageStore w))), w;
       split; [reflexivity | intros; apply fetchImages_run]].
  apply in_map_iff in Hin. destruct Hin as (r & <- & Hr).
  apply (Permutation_in _ (sort_perm byTimestampDesc (imageStore w))) in Hr.
  unfold validStore in Hv. rewrite Forall_forall in Hv.
  destruct (Hv r Hr) as [Hl _].
  destruct (getFolderName_valid Hl) as [folder Hf].
  unfold Delete.DELETE, try_catch, bind, request_json.
  cbn [ret Delete.filename Delete.label Delete.quality GalleryPage.filename
       GalleryPage.label GalleryPage.quality GalleryPage.received
       missing field field_or].
  assert (Hlabel : Str.truthy (Data.label r) = true).
  { destruct Hl as [<- | [<- | [<- | []]]]; reflexivity. }
  rewrite Hlabel. cbn [negb].
  destruct (Str.truthy (Data.filename r)) eqn:Hname; cbn [negb orb].
  2:{ eexists _, w. split; [reflexivity |]. intros. apply fetchImages_run. }
  rewrite deleteImage_run, Hf. cbv zeta.
  rewrite !or_default_twice by discriminate.
  set (file_gone := isSome _).
  set (store' := filter _ (imageStore w)).
  assert (Hshown :
            filter (fun img =>
                      negb (GalleryPage.sameShape (GalleryPage.received r) img))
                   (map GalleryPage.received
                        (sort byTimestampDesc (imageStore w)))
            = map GalleryPage.received (sort byTimestampDesc store')).
  { rewrite filter_received. f_equal. unfold store'.
    rewrite sort_filter. apply filter_ext_all. intros x. reflexivity. }
  destruct (file_gone || (List.length store' <? List.length (imageStore w))%nat);
    cbn [ok status NextResponse_json payload_of Delete.warning orb andb
         Z.leb Z.compare Pos.compare Pos.compare_cont];
    eexists _, _; (split; [reflexivity |]);
    intros stale'; rewrite fetchImages_run; cbn [imageStore];
    now rewrite Hshown.
Qed.

Lemma handleDelete_in_step_witness :
  exists images' w',
    GalleryPage.handleDelete Examples.proc true
      (GalleryPage.received Examples.circle12)
      (map GalleryPage.received
           (sort byTimestampDesc
                 (imageStore (Examples.loaded Examples.populated))))
      (Examples.loaded Examples.populated)
    = (Ok images', w')
    /\ GalleryPage.fetchImages [] w' = (Ok images', w').
Proof.
  destruct (handleDelete_in_step Examples.proc true
              (GalleryPage.received Examples.circle12)
              (map GalleryPage.received
                   (sort byTimestampDesc
                         (imageStore (Examples.loaded Examples.populated))))
              [] (Examples.loaded Examples.populated))
    as (images' & w' & Hrun & Hfetch).
  - unfold Examples.loaded. rewrite moduleInit_eq. apply scan_valid.
    apply Forall_nil.
  - reflexivity.
  - vm_compute. tauto.
  - exists images', w'. split; [exact Hrun | exact (Hfetch [])].
Defined.

(** X16. The filters of the gallery page show what the queries of the
    storage module select, newest first: by label, by quality, or by
    both; with both filters on [all] every image is shown. *)
Theorem filteredImages_queries shape quality stale images w :
  GalleryPage.fetchImages stale w = (Ok images, w) ->
  shape <> "all" -> quality <> "all" ->
  GalleryPage.filteredImages "all" "all" images = images
  /\ (exists selected,
         getImagesByLabel shape w = (Ok selected, w)
         /\ GalleryPage.filteredImages shape "all" images
            = map GalleryPage.received (sort byTimestampDesc selected))
  /\ (exists selected,
         getImagesByQuality quality w = (Ok selected, w)
         /\ GalleryPage.filteredImages "all" quality images
            = map GalleryPage.received (sort byTimestampDesc selected))
  /\ (exists selected,
         getImagesByLabelAndQuality shape quality w = (Ok selected, w)
         /\ GalleryPage.filteredImages shape quality images
            = map GalleryPage.received (sort byTimestampDesc selected)).
Proof.
  intros Hfetch Hs Hq. rewrite fetchImages_run in Hfetch.
  injection Hfetch as <-.
  apply String.eqb_neq in Hs, Hq.
  unfold GalleryPage.filteredImages.
  split; [| split; [| split]].
  - rewrite filter_received. f_equal. apply filter_all. reflexivity.
  - eexists. split; [reflexivity |].
    rewrite filter_received, sort_filter. f_equal.
    apply filter_ext_all. intros x. cbv zeta. rewrite Hs.
    cbn [orb GalleryPage.label GalleryPage.received String.eqb].
    apply andb_true_r.
  - eexists. split; [reflexivity |].
    rewrite filter_received, sort_filter. f_equal.
    apply filter_ext_all. intros x. cbv zeta. rewrite Hq.
    reflexivity.
  - eexists. split; [reflexivity |].
    rewrite filter_received, sort_filter. f_equal.
    apply filter_ext_all. intros x. cbv zeta. rewrite Hs, Hq.
    reflexivity.
Qed.

Lemma filteredImages_queries_witness :
  exists selected,
    getImagesByLabelAndQuality "circle" "perfect"
                               (Examples.loaded Examples.populated)
    = (Ok selected, Examples.loaded Examples.populated)
    /\ GalleryPage.filteredImages "circle" "perfect"
         (map GalleryPage.received
              (sort byTimestampDesc
                    (imageStore (Examples.loaded Examples.populated))))
       = map GalleryPage.received (sort byTimestampDesc selected).
Proof.
  apply (filteredImages_queries "circle" "perfect" []
           (map GalleryPage.received
                (sort byTimestampDesc
                      (imageStore (Examples.loaded Examples.populated))))
           (Examples.loaded Examples.populated)).
  - reflexivity.
  - discriminate.
  - discriminate.
Defined.

(** ** The drawing page *)

Lemma isNot255_false data i :
  DrawingPage.isNot255 data i = false <-> nth_error data i = Some 255.
Proof.
  unfold DrawingPage.isNot255.
  destruct (nth_error data i) as [v |]; [| split; discriminate].
  rewrite negb_false_iff, Z.eqb_eq. split; [now intros -> | now intros [= ->]].
Qed.

Lemma allWhiteFrom_white data :
  forall steps i,
    (List.length data <= i + 4 * steps)%nat ->
    DrawingPage.allWhiteFrom steps data i = true
    <-> forall k, (i + 4 * k < List.length data)%nat ->
                  nth_error data (i + 4 * k) = Some 255
                  /\ nth_error data (i + 4 * k + 1) = Some 255
                  /\ nth_error data (i + 4 * k + 2) = Some 255.
Proof.
  induction steps as [| steps IH]; intros i Hb; cbn [DrawingPage.allWhiteFrom].
  - split; [intros _ k Hk; lia | reflexivity].
  - destruct (Nat.ltb_spec i (List.length data)) as [Hi | Hi];
      [| split; [intros _ k Hk; lia | reflexivity]].
    destruct (DrawingPage.isNot255 data i
              || DrawingPage.isNot255 data (i + 1)
              || DrawingPage.isNot255 data (i + 2)) eqn:E.
    + split; [discriminate |]. intros Hall. exfalso.
      specialize (Hall 0%nat). rewrite Nat.mul_0_r, Nat.add_0_r in Hall.
      destruct (Hall Hi) as (H0 & H1 & H2).
      apply isNot255_false in H0, H1, H2.
      rewrite H0, H1, H2 in E. discriminate E.
    + apply orb_false_iff in E. destruct E as [E E2].
      apply orb_false_iff in E. destruct E as [E0 E1].
      apply isNot255_false in E0, E1, E2.
      rewrite (IH (i + 4)%nat) by lia. split.
      * intros Hall k Hk. destruct k as [| k].
        -- rewrite Nat.mul_0_r, Nat.add_0_r. tauto.
        -- replace (i + 4 * S k)%nat with (i + 4 + 4 * k)%nat in * by lia.
           now apply Hall.
      * intros Hall k Hk.
        replace (i + 4 + 4 * k)%nat with (i + 4 * S k)%nat in * by lia.
        now apply Hall.
Qed.

(** X17. [isCanvasEmpty] is true exactly when every pixel has red,
    green and blue at 255: the loop ends, the fourth number of a pixel
    (alpha) is not looked at, and a missing canvas or context counts as
    empty. *)
Theorem isCanvasEmpty_white canvas :
  DrawingPage.isCanvasEmpty canvas = true
  <-> match canvas with
      | DrawingPage.Pixels data =>
          forall k, (4 * k < List.length data)%nat ->
                    nth_error data (4 * k) = Some 255
                    /\ nth_error data (4 * k + 1) = Some 255
                    /\ nth_error data (4 * k + 2) = Some 255
      | _ => True
      end.
Proof.
  destruct canvas as [| | data]; cbn [DrawingPage.isCanvasEmpty];
    [tauto | tauto |].
  rewrite (allWhiteFrom_white data (List.length data) 0%nat) by lia.
  reflexivity.
Qed.

(** ** Submitting from the drawing page *)

Lemma startsWith_app p s : Str.startsWith p (p ++ s) = true.
Proof.
  unfold Str.startsWith. induction p as [| c p IH]; cbn [append String.prefix].
  - now destruct s.
  - destruct (ascii_dec c c) as [_ | Hc]; [exact IH | now destruct Hc].
Qed.

Lemma length_app a b :
  String.length (a ++ b) = (String.length a + String.length b)%nat.
Proof. induction a as [| c a IH]; simpl; [reflexivity | now rewrite IH]. Qed.

Lemma substring_skip a b n :
  substring (String.length a) n (a ++ b) = substring 0 n b.
Proof. induction a as [| c a IH]; simpl; [reflexivity | exact IH]. Qed.

Lemma substring_drop a b :
  substring (String.length a) (String.length (a ++ b)) (a ++ b) = b.
Proof.
  rewrite substring_skip. apply substring_all. rewrite length_app. lia.
Qed.

Lemma of_chars_chars s : Str.of_chars (Str.chars s) = s.
Proof. apply string_of_list_ascii_of_string. Qed.

(** The pattern of [addImage] takes the prefix of a PNG data URL off. *)
Lemma strip_toDataURL png :
  Str.strip_data_url (DrawingPage.toDataURL png) = png.
Proof.
  unfold Str.strip_data_url, DrawingPage.toDataURL. cbv zeta.
  change ("data:image/png;base64," ++ png)
    with ("data:image/" ++ ("png;base64," ++ png)).
  rewrite startsWith_app, substring_drop.
  change ("png;base64," ++ png) with ("png" ++ String ";" ("base64," ++ png)).
  rewrite chars_app.
  change (Str.chars (String ";" ("base64," ++ png)))
    with (";"%char :: Str.chars ("base64," ++ png)).
  rewrite span_run;
    [| repeat (apply Forall_cons; [reflexivity |]); apply Forall_nil
     | reflexivity].
  cbn [Str.chars list_ascii_of_string].
  change (Str.of_chars (";"%char :: Str.chars ("base64," ++ png)))
    with (String ";" (Str.of_chars (Str.chars ("base64," ++ png)))).
  rewrite of_chars_chars.
  change (String ";" ("base64," ++ png)) with (";base64," ++ png).
  rewrite startsWith_app.
  exact (substring_drop ";base64," png).
Qed.

(** X18. A drawing submitted from the page, with a shape and a quality of
    its menus, is never turned down: the answer is 200, or 500 after a
    failure of the file system. With 200 the file saved holds the PNG of
    the canvas without the data-URL prefix, while the record added keeps
    the whole data URL. With an empty or missing canvas no request is
    sent. *)
Theorem submitDrawing_saves process now canvas png shape quality w :
  In shape validLabels -> In quality validQualities ->
  exists answer w',
    DrawingPage.submitDrawing process now canvas png shape quality w
    = (Ok answer, w')
    /\ match answer with
       | None => DrawingPage.isCanvasEmpty canvas = true /\ w' = w
       | Some response =>
           DrawingPage.isCanvasEmpty canvas = false
           /\ ((status response = 200
                /\ payload_of response
                   = Submit.Success (addedFilename now shape)
                       (addedRecord now shape quality
                          (DrawingPage.toDataURL png)).(Data.filePath)
                       shape quality now
                /\ imageStore w'
                   = (imageStore w
                      ++ [addedRecord now shape quality
                            (DrawingPage.toDataURL png)])%list
                /\ Fs.resolve (disk w')
                              (addedFilePath process now shape quality)
                   = Some (Fs.File now false png))
               \/ (status response = 500
                   /\ imageStore w' = imageStore w
                   /\ exists syscall path,
                       payload_of response
                       = Submit.Failure "Failed to save image"
                           (Some (SystemError syscall path))))
       end.
Proof.
  intros Hl Hq. unfold DrawingPage.submitDrawing.
  destruct canvas as [| | data] eqn:Hcanvas;
    [exists None, w; now repeat split | |].
  1: exists None, w; now repeat split.
  destruct (DrawingPage.isCanvasEmpty (DrawingPage.Pixels data)) eqn:Hempty;
    [exists None, w; now repeat split |].
  cbv zeta. unfold bind at 1.
  unfold Submit.POST, try_catch, bind, request_json.
  cbn [ret Submit.image Submit.label Submit.quality missing field field_or].
  assert (Hshape : Str.truthy shape = true).
  { destruct Hl as [<- | [<- | [<- | []]]]; reflexivity. }
  assert (Hquality : Str.or_default quality "perfect" = quality).
  { destruct Hq as [<- | [<- | [<- | []]]]; reflexivity. }
  rewrite Hshape, Hquality.
  change (negb (Str.truthy (DrawingPage.toDataURL png))) with false.
  cbn [negb orb].
  pose proof (addImage_run process now shape quality (DrawingPage.toDataURL png)
                w Hl Hq) as Hrun.
  cbv zeta in Hrun. rewrite Hrun. clear Hrun.
  destruct (if Fs.existsSync (disk w) (addedDir process shape quality)
            then Some (disk w)
            else Fs.mkdirSync_recursive (disk w)
                   (addedDir process shape quality) now) as [d1 |].
  2:{ eexists (Some _), _. split; [reflexivity |]. split; [reflexivity |].
      right. split; [reflexivity |]. split; [reflexivity |].
      eexists _, _. reflexivity. }
  rewrite strip_toDataURL.
  destruct (Fs.writeFileSync d1 (addedFilePath process now shape quality)
              png now) as [d2 |] eqn:Hwrite.
  - eexists (Some _), _. split; [reflexivity |]. split; [reflexivity |].
    left. split; [reflexivity |]. split; [reflexivity |].
    split; [reflexivity |]. cbn [disk].
    exact (writeFileSync_resolve _ _ _ _ _ Hwrite).
  - eexists (Some _), _. split; [reflexivity |]. split; [reflexivity |].
    right. split; [reflexivity |]. split; [reflexivity |].
    eexists _, _. reflexivity.
Qed.

Lemma submitDrawing_saves_witness :
  exists response w',
    DrawingPage.submitDrawing Examples.proc 1000
      (DrawingPage.Pixels [0; 0; 0; 255]) "AA==" "circle" "medium"
      (Examples.loaded Examples.bare)
    = (Ok (Some response), w')
    /\ Fs.resolve (disk w')
                  "/app/public/shapes/circles/medium/circle_1000.png"
       = Some (Fs.File 1000 false "AA==").
Proof.
  destruct (submitDrawing_saves Examples.proc 1000
              (DrawingPage.Pixels [0; 0; 0; 255]) "AA==" "circle" "medium"
              (Examples.loaded Examples.bare))
    as (answer & w' & Hrun & Hcase).
  - simpl. tauto.
  - simpl. tauto.
  - destruct answer as [response |].
    + exists response, w'. split; [exact Hrun |].
      destruct Hcase as [_ [(_ & _ & _ & Hfile) | (Hstatus & _)]].
      * exact Hfile.
      * vm_compute in Hrun. injection Hrun as <- _. discriminate Hstatus.
    + destruct Hcase as [Hempty _]. discriminate Hempty.
Defined.
